(** * Moltbook analysis console: the in-memory query engine of [src/app.js]

    A shallow embedding of [DataService] (index construction, filtering,
    ranking, histograms, similarity search, duplicate and outlier scans), of
    the tag network normalisation of [renderTagNetwork] and of the rectangle
    selection handlers of [renderSpaces] / [renderEmbeddings].

    Conventions of the model.
    - JavaScript strings are sequences of code units; the model covers the
      code units below 256, which is what [Ascii.ascii] holds.
    - Integer record fields ([upvotes], [comment_count], [weight], ...) are
      [Z].  Coordinates, pointer positions, distances and the bin bounds of
      [getHistogram] are IEEE 754 doubles, the primitive floats of the
      kernel, and every operation on them rounds as the code's does (module
      [Num]).  The percentages of the two networks are quotients of small
      integers; they are kept as exact rationals [Q], and what is stated
      of them is what rounding leaves true.
    - [String.prototype.localeCompare] collates by locale; the functions
      that call it take the comparison as a parameter [localeCompare].
    - A [Map] is an association list in insertion order, as iteration order
      of a JavaScript [Map] is observable in the code (ties of a stable sort).
    - Limits and bin counts are natural numbers. *)

From Stdlib Require Import List Bool Arith ZArith QArith Qabs String Ascii.
From Stdlib Require Import Lia Permutation Sorted DecimalString.
From Stdlib Require Floats.Floats Numbers.Cyclic.Int63.Uint63.
Import ListNotations.

Local Open Scope Z_scope.
Local Open Scope string_scope.
Local Open Scope list_scope.

(* ====================================================================== *)
(** ** The JavaScript built-ins the code relies on                        *)
(* ====================================================================== *)

Module JS.

(** *** Strings *)

(** One code unit of [String.prototype.toLowerCase], for code units
    below 256: A-Z, and U+00C0..U+00DE apart from the multiplication
    sign U+00D7, move up by 32. *)
Definition lowerUnit (c : ascii) : ascii :=
  let n := nat_of_ascii c in
  if ((65 <=? n) && (n <=? 90))%nat then ascii_of_nat (n + 32)
  else if ((192 <=? n) && (n <=? 222) && negb (n =? 215))%nat
       then ascii_of_nat (n + 32)
  else c.

Fixpoint toLowerCase (s : string) : string :=
  match s with
  | EmptyString => EmptyString
  | String c s' => String (lowerUnit c) (toLowerCase s')
  end.

(** White space and line terminators of the language below 256:
    TAB, LF, VT, FF, CR, SPACE and NO-BREAK SPACE. *)
Definition isWhiteSpace (c : ascii) : bool :=
  let n := nat_of_ascii c in
  ((9 <=? n) && (n <=? 13) || (n =? 32) || (n =? 160))%nat.

Fixpoint trimStart (s : string) : string :=
  match s with
  | EmptyString => EmptyString
  | String c s' => if isWhiteSpace c then trimStart s' else s
  end.

(** [trimEnd] keeps a character when it is not white space or when
    something survives behind it. *)
Fixpoint trimEnd (s : string) : string :=
  match s with
  | EmptyString => EmptyString
  | String c s' =>
      match trimEnd s' with
      | EmptyString => if isWhiteSpace c then EmptyString
                       else String c EmptyString
      | t => String c t
      end
  end.

Definition trim (s : string) : string := trimEnd (trimStart s).

(** [s.startsWith(q)] *)
Fixpoint startsWith (s q : string) {struct q} : bool :=
  match q with
  | EmptyString => true
  | String a q' =>
      match s with
      | EmptyString => false
      | String b s' => Ascii.eqb a b && startsWith s' q'
      end
  end.

(** [s.includes(q)]: [q] starts at some position of [s]. *)
Fixpoint includes (s q : string) : bool :=
  startsWith s q ||
  match s with
  | EmptyString => false
  | String _ s' => includes s' q
  end.

(** Truthiness of a string: every string but the empty one. *)
Definition truthy (s : string) : bool :=
  match s with EmptyString => false | _ => true end.

(** [id.split(':')]. *)
Fixpoint split (sep : ascii) (s : string) : list string :=
  match s with
  | EmptyString => [EmptyString]
  | String c s' =>
      if Ascii.eqb c sep then EmptyString :: split sep s'
      else match split sep s' with
           | [] => [String c EmptyString]
           | h :: t => String c h :: t
           end
  end.

(** Template literal of an integer. *)
Definition showZ (z : Z) : string := NilZero.string_of_int (Z.to_int z).

(** *** Set of strings: [new Set(arr)] and [set.has(x)] *)

Definition StrSet := list string.

Definition has (s : StrSet) (x : string) : bool :=
  existsb (String.eqb x) s.

(** [set.add(x)]: a new element goes last. *)
Definition add (s : StrSet) (x : string) : StrSet :=
  if has s x then s else s ++ [x].

Definition newSet (l : list string) : StrSet := fold_left add l [].

(** *** Map with string keys, in insertion order *)

Definition Map (V : Type) := list (string * V).

Fixpoint get {V} (m : Map V) (k : string) : option V :=
  match m with
  | [] => None
  | (k', v) :: m' => if String.eqb k k' then Some v else get m' k
  end.

(** [m.set(k, v)]: an existing key keeps its position. *)
Fixpoint set {V} (m : Map V) (k : string) (v : V) : Map V :=
  match m with
  | [] => [(k, v)]
  | (k', v') :: m' =>
      if String.eqb k k' then (k', v) :: m' else (k', v') :: set m' k v
  end.

(** [new Map(pairs)]. *)
Definition newMap {V} (pairs : list (string * V)) : Map V :=
  fold_left (fun m kv => set m (fst kv) (snd kv)) pairs [].

(** [x || d] for a value that is either undefined or an object. *)
Definition orElse {V} (o : option V) (d : V) : V :=
  match o with Some v => v | None => d end.

(** The shape of every counting and grouping loop of the code:
    [m.set(key(x), upd(m.get(key(x)), x))] for each [x] in turn. *)
Section Accumulate.
Context {X V : Type}.
Variables (key : X -> string) (upd : option V -> X -> V).

Definition accStep (m : Map V) (x : X) : Map V :=
  set m (key x) (upd (get m (key x)) x).

Definition accumulate (l : list X) (m : Map V) : Map V :=
  fold_left accStep l m.

(** What such a loop leaves under the key [k], from what was there. *)
Fixpoint valueOf (k : string) (o : option V) (l : list X) : option V :=
  match l with
  | [] => o
  | x :: l' =>
      if String.eqb k (key x) then valueOf k (Some (upd o x)) l'
      else valueOf k o l'
  end.
End Accumulate.

(** The distinct elements of a list, each at its first occurrence. *)
Fixpoint distinctInOrder (l : list string) : list string :=
  match l with
  | [] => []
  | k :: l' =>
      k :: filter (fun k' => negb (String.eqb k' k)) (distinctInOrder l')
  end.

(** *** Arrays *)

(** [Array.prototype.sort(cmp)] is stable.  A comparator is modelled by
    the sign of the number it returns: [Lt] negative, [Eq] zero, [Gt]
    positive.  Insertion from the right end is one stable sort; an
    element passes only those that compare strictly smaller than it. *)
Fixpoint insertBy {A} (cmp : A -> A -> comparison) (x : A) (l : list A)
  : list A :=
  match l with
  | [] => [x]
  | y :: l' =>
      match cmp x y with
      | Gt => y :: insertBy cmp x l'
      | _ => x :: l
      end
  end.

Definition sort {A} (cmp : A -> A -> comparison) (l : list A) : list A :=
  fold_right (insertBy cmp) [] l.

(** [a] may stand before [b] in an array sorted by [cmp]. *)
Definition le {A} (cmp : A -> A -> comparison) (a b : A) : Prop :=
  cmp a b <> Gt.

(** [arr.slice(0, n)] for a count [n]. *)
Definition slice0 {A} (n : nat) (l : list A) : list A := firstn n l.

(** Sign of a difference of two integers. *)
Definition signZ (z : Z) : comparison := Z.compare z 0.

(** [filter(Boolean)] over results of [Map.get]. *)
Fixpoint filterBoolean {A} (l : list (option A)) : list A :=
  match l with
  | [] => []
  | Some a :: l' => a :: filterBoolean l'
  | None :: l' => filterBoolean l'
  end.

End JS.

(* ====================================================================== *)
(** ** Numbers: IEEE 754 doubles                                          *)
(* ====================================================================== *)

Module Num.
Import PrimFloat.

Definition zero : float := 0%float.
Definition one : float := 1%float.
Definition five : float := 5%float.

(** An integer as a number: the double nearest to it, which is the
    integer itself below 2^53 in magnitude.  Integers of 2^63 and above
    in magnitude, which no field of the corpus holds, are not covered. *)
Definition ofZ (z : Z) : float :=
  if (z <? 0)%Z then opp (of_uint63 (Uint63.of_Z (- z)))
  else of_uint63 (Uint63.of_Z z).

(** What [Array.prototype.sort] reads off the number a comparator
    returns: negative, positive, or neither; zero and NaN are neither. *)
Definition sign (v : float) : comparison :=
  match compare v zero with
  | FLt => Lt
  | FGt => Gt
  | _ => Eq
  end.

(** [Math.min(a, b)] and [Math.max(a, b)]: NaN when an argument is
    NaN; of the two zeros the negative one is the lesser. *)
Definition mathMin (a b : float) : float :=
  if is_nan a then a
  else if is_nan b then b
  else if ltb b a then b
  else if ltb a b then a
  else if get_sign a then a else b.

Definition mathMax (a b : float) : float :=
  if is_nan a then a
  else if is_nan b then b
  else if ltb a b then b
  else if ltb b a then a
  else if get_sign a then b else a.

(** A number other than NaN and the two infinities. *)
Definition isFinite (v : float) : bool :=
  match FloatOps.Prim2SF v with
  | SpecFloat.S754_zero _ | SpecFloat.S754_finite _ _ _ => true
  | _ => false
  end.

(** The signed mantissa of a finite number. *)
Definition mantissa (s : bool) (m : positive) : Z :=
  if s then Zneg m else Zpos m.

(** [Math.floor(v)] of a finite number, as an integer. *)
Definition floor (v : float) : Z :=
  match FloatOps.Prim2SF v with
  | SpecFloat.S754_finite s m e => Z.shiftl (mantissa s m) e
  | _ => 0%Z
  end.

(** The rational a finite number stands for. *)
Definition exact (v : float) : Q :=
  match FloatOps.Prim2SF v with
  | SpecFloat.S754_finite s m e => (inject_Z (mantissa s m) * 2 ^ e)%Q
  | _ => 0%Q
  end.

End Num.

(** *** The order of the numbers

    What the proofs about doubles go by, read off the specification
    [SpecFloat] of the primitive operations (precision 53, least
    exponent -1074). *)

Module NumOrder.
Import SpecFloat FloatOps.
Local Open Scope Z_scope.

(** The sign of a number, as its comparison with zero; NaN has none. *)
Definition signOf (x : spec_float) : comparison :=
  match SFcompare x (S754_zero false) with
  | Some c => c
  | None => Eq
  end.

Definition signed (s : bool) : comparison := if s then Lt else Gt.

(** A number is placed on the integers by [key]: a finite number by
    its mantissa brought to the least exponent, the infinities beyond
    every finite number. *)
Definition top : Z := 2 ^ 2100.

Definition key (x : spec_float) : Z :=
  match x with
  | S754_zero _ => 0
  | S754_nan => 0
  | S754_infinity s => cond_Zopp s top
  | S754_finite s m e => cond_Zopp s (Zpos m * 2 ^ (e - (-1074)))
  end.

Definition keyOf (v : PrimFloat.float) : Z := key (Prim2SF v).

Definition isNumber (x : spec_float) : bool :=
  match x with S754_nan => false | _ => true end.

Definition flat (c : comparison) : PrimFloat.float_comparison :=
  match c with
  | Eq => PrimFloat.FEq
  | Lt => PrimFloat.FLt
  | Gt => PrimFloat.FGt
  end.

(** A number that is zero, finite or infinite, and not negative:
    zero of either sign is let through. *)
Definition notNegative (x : spec_float) : bool :=
  match x with
  | S754_zero _ => true
  | S754_infinity s => negb s
  | S754_finite s _ _ => negb s
  | S754_nan => false
  end.

Definition finite (x : spec_float) : bool :=
  match x with
  | S754_zero _ | S754_finite _ _ _ => true
  | _ => false
  end.

End NumOrder.

(* ====================================================================== *)
(** ** Records of the corpus                                              *)
(* ====================================================================== *)

Record Post := mkPost {
  post_id : string;
  title : string;
  content : string;
  content_len : Z;
  author_name : string;
  submolt_name : string;
  submolt_display_name : string;
  upvotes : Z;
  comment_count : Z;
  created_at : string
}.

Record Tag := mkTag { tag_post_id : string; tag : string }.

Record ClassNote := mkClassNote { note_post_id : string; class_note : string }.

Record TagEdge := mkTagEdge { tag_a : string; tag_b : string; weight : Z }.

Record Embedding := mkEmbedding {
  emb_post_id : string; x : PrimFloat.float; y : PrimFloat.float }.

Record SubmoltPoint := mkSubmoltPoint {
  umap_submolt_name : string;
  umap_x : PrimFloat.float;
  umap_y : PrimFloat.float
}.

(** [StateService.filters], the part [filterPosts] reads. *)
Record Engagement := mkEngagement { minUpvotes : Z; minComments : Z }.

Record Filters := mkFilters {
  submolts : list string;
  authors : list string;
  tags : list string;
  classNotes : list string;
  engagement : Engagement;
  search : string;
  postIds : option (list string)   (* [null] or an array *)
}.

Definition emptyFilters : Filters :=
  mkFilters [] [] [] [] (mkEngagement 0 0) "" None.

(* ====================================================================== *)
(** ** DataService                                                        *)
(* ====================================================================== *)

Module DataService.
Import JS.

(** The object's state: the loaded record arrays and the indexes
    [buildIndexes] derives from them.  [schema], [submolts] and
    [submoltByName], which no query below reads, are left out. *)
Record t := mk {
  posts : list Post;
  postTags : list Tag;
  postClassNotes : list ClassNote;
  tagEdges : list TagEdge;
  submoltUmap : list SubmoltPoint;
  postEmbeddings : list Embedding;
  postById : Map Post;
  tagsByPostId : Map (list Tag);
  classNotesByPostId : Map (list ClassNote);
  embeddingByPostId : Map Embedding;
  postsBySubmolt : Map (list Post);
  postsByAuthor : Map (list Post)
}.

(** [arr = m.get(k) || []; arr.push(v)] *)
Definition pushUpd {V} (o : option (list V)) (v : V) : list V :=
  orElse o [] ++ [v].

(** A turn of the loops that group by a key:
    [arr = m.get(k) || []; arr.push(v); m.set(k, arr)]. *)
Definition pushTo {V} (key : V -> string) (m : Map (list V)) (v : V)
  : Map (list V) :=
  set m (key v) (pushUpd (get m (key v)) v).

Definition groupBy {V} (key : V -> string) (l : list V) : Map (list V) :=
  fold_left (pushTo key) l [].

Definition buildIndexes (this : t) : t :=
  mk (posts this) (postTags this) (postClassNotes this) (tagEdges this)
     (submoltUmap this) (postEmbeddings this)
     (newMap (map (fun p => (post_id p, p)) (posts this)))
     (groupBy tag_post_id (postTags this))
     (groupBy note_post_id (postClassNotes this))
     (newMap (map (fun e => (emb_post_id e, e)) (postEmbeddings this)))
     (groupBy submolt_name (posts this))
     (groupBy author_name (posts this)).

(** [this] with another array in [posts], the indexes left as they are. *)
Definition withPosts (this : t) (ps : list Post) : t :=
  mk ps (postTags this) (postClassNotes this) (tagEdges this)
     (submoltUmap this) (postEmbeddings this) (postById this)
     (tagsByPostId this) (classNotesByPostId this)
     (embeddingByPostId this) (postsBySubmolt this) (postsByAuthor this).

(** *** filterPosts *)

(** The callbacks handed to [result.filter], one per stage. *)
Definition inSubmolts (f : Filters) (p : Post) : bool :=
  has (newSet (submolts f)) (submolt_name p).

Definition inAuthors (f : Filters) (p : Post) : bool :=
  has (newSet (authors f)) (author_name p).

Definition hasTag (this : t) (f : Filters) (p : Post) : bool :=
  let tags_ := orElse (get (tagsByPostId this) (post_id p)) [] in
  existsb (fun t => has (newSet (tags f)) (tag t)) tags_.

Definition hasClassNote (this : t) (f : Filters) (p : Post) : bool :=
  let notes := orElse (get (classNotesByPostId this) (post_id p)) [] in
  existsb (fun n => has (newSet (classNotes f)) (class_note n)) notes.

Definition enoughUpvotes (f : Filters) (p : Post) : bool :=
  (minUpvotes (engagement f) <=? upvotes p)%Z.

Definition enoughComments (f : Filters) (p : Post) : bool :=
  (minComments (engagement f) <=? comment_count p)%Z.

Definition textMatch (f : Filters) (p : Post) : bool :=
  let q := toLowerCase (search f) in
  includes (toLowerCase (title p)) q
  || includes (toLowerCase (content p)) q
  || includes (toLowerCase (author_name p)) q.

Definition inPostIds (ids : list string) (p : Post) : bool :=
  has (newSet ids) (post_id p).

(** The guards of the eight stages. *)
Definition nonEmpty {A} (l : list A) : bool := (0 <? List.length l)%nat.

Definition postIdsActive (f : Filters) : bool :=
  match postIds f with
  | Some ids => nonEmpty ids
  | None => false
  end.

Definition stage (guard : bool) (pred : Post -> bool) (result : list Post)
  : list Post :=
  if guard then filter pred result else result.

Definition filterPosts (this : t) (filters : Filters) : list Post :=
  let result := posts this in
  let result := stage (nonEmpty (submolts filters))
                      (inSubmolts filters) result in
  let result := stage (nonEmpty (authors filters))
                      (inAuthors filters) result in
  let result := stage (nonEmpty (tags filters))
                      (hasTag this filters) result in
  let result := stage (nonEmpty (classNotes filters))
                      (hasClassNote this filters) result in
  let result := stage (0 <? minUpvotes (engagement filters))%Z
                      (enoughUpvotes filters) result in
  let result := stage (0 <? minComments (engagement filters))%Z
                      (enoughComments filters) result in
  let result := stage (truthy (search filters))
                      (textMatch filters) result in
  let result := stage (postIdsActive filters)
                      (inPostIds (orElse (postIds filters) [])) result in
  result.

(** The conjunction the eight stages amount to, each predicate counted
    as satisfied when its field of the specification is empty. *)
Definition satisfies (this : t) (f : Filters) (p : Post) : bool :=
  (negb (nonEmpty (submolts f)) || inSubmolts f p)
  && (negb (nonEmpty (authors f)) || inAuthors f p)
  && (negb (nonEmpty (tags f)) || hasTag this f p)
  && (negb (nonEmpty (classNotes f)) || hasClassNote this f p)
  && (negb (0 <? minUpvotes (engagement f))%Z || enoughUpvotes f p)
  && (negb (0 <? minComments (engagement f))%Z || enoughComments f p)
  && (negb (truthy (search f)) || textMatch f p)
  && (negb (postIdsActive f) || inPostIds (orElse (postIds f) []) p).


(** The same conjunction in the words of the specification.  [q]
    occurs in [s] when [s] is [q] with something before and after. *)
Definition Occurs (q s : string) : Prop :=
  exists a b, s = (a ++ q ++ b)%string.

Definition tagsOf (this : t) (p : Post) : list Tag :=
  orElse (get (tagsByPostId this) (post_id p)) [].

Definition classNotesOf (this : t) (p : Post) : list ClassNote :=
  orElse (get (classNotesByPostId this) (post_id p)) [].

Record Satisfies (this : t) (f : Filters) (p : Post) : Prop := {
  sat_submolt : submolts f = [] \/ In (submolt_name p) (submolts f);
  sat_author : authors f = [] \/ In (author_name p) (authors f);
  sat_tag : tags f = [] \/
            exists t, In t (tagsOf this p) /\ In (tag t) (tags f);
  sat_classNote : classNotes f = [] \/
            exists n, In n (classNotesOf this p)
                      /\ In (class_note n) (classNotes f);
  sat_upvotes : (minUpvotes (engagement f) <= 0)%Z \/
                (minUpvotes (engagement f) <= upvotes p)%Z;
  sat_comments : (minComments (engagement f) <= 0)%Z \/
                 (minComments (engagement f) <= comment_count p)%Z;
  sat_search : search f = "" \/
               Occurs (toLowerCase (search f)) (toLowerCase (title p)) \/
               Occurs (toLowerCase (search f)) (toLowerCase (content p)) \/
               Occurs (toLowerCase (search f)) (toLowerCase (author_name p));
  sat_postIds : postIds f = None \/ postIds f = Some [] \/
                exists ids, postIds f = Some ids /\ In (post_id p) ids
}.

(** The specification [f] with another search string. *)
Definition withSearch (f : Filters) (q : string) : Filters :=
  mkFilters (submolts f) (authors f) (tags f) (classNotes f)
            (engagement f) q (postIds f).

(** *** Field access by name: [p[field]] *)

Inductive StrField :=
| f_post_id | f_title | f_content | f_author_name | f_submolt_name
| f_submolt_display_name | f_created_at.

Definition getStr (field : StrField) (p : Post) : string :=
  match field with
  | f_post_id => post_id p
  | f_title => title p
  | f_content => content p
  | f_author_name => author_name p
  | f_submolt_name => submolt_name p
  | f_submolt_display_name => submolt_display_name p
  | f_created_at => created_at p
  end.

Inductive NumField := f_upvotes | f_comment_count | f_content_len.

Definition getNum (field : NumField) (p : Post) : Z :=
  match field with
  | f_upvotes => upvotes p
  | f_comment_count => comment_count p
  | f_content_len => content_len p
  end.

(** *** getTopItems *)

Module Item.
Record t := mk { name : string; count : Z; displayName : string }.
End Item.

(** [n || 0] for a number that may be undefined. *)
Definition orZero (o : option Z) : Z := orElse o 0%Z.

(** [s || d] for a string that may be undefined or empty. *)
Definition orName (o : option string) (d : string) : string :=
  match o with
  | Some s => if truthy s then s else d
  | None => d
  end.

(** [(counts.get(key) || 0) + 1] *)
Definition countUpd (o : option Z) (_ : Post) : Z := (orZero o + 1)%Z.

(** One turn of the counting loop. *)
Definition countStep (field : StrField) (displayField : option StrField)
    (st : Map Z * Map string) (p : Post) : Map Z * Map string :=
  let (counts, displays) := st in
  (set counts (getStr field p) (countUpd (get counts (getStr field p)) p),
   match displayField with
   | Some d => set displays (getStr field p) (getStr d p)
   | None => displays
   end).

(** The comparator [(a, b) => b.count - a.count]. *)
Definition byCountDesc (a b : Item.t) : comparison :=
  signZ (Item.count b - Item.count a).

Definition getTopItems (posts : list Post) (field : StrField) (limit : nat)
    (displayField : option StrField) : list Item.t :=
  let (counts, displays) :=
    fold_left (countStep field displayField) posts ([], []) in
  slice0 limit
    (sort byCountDesc
       (map (fun e => Item.mk (fst e) (snd e)
                        (orName (get displays (fst e)) (fst e)))
            counts)).

(** The ranking in the words of the specification: the distinct keys
    in the order they are first met, each with the number of its
    occurrences. *)
Definition occurrences (k : string) (keys : list string) : Z :=
  Z.of_nat (count_occ string_dec keys k).

Definition tally (keys : list string) : list (string * Z) :=
  map (fun k => (k, occurrences k keys)) (distinctInOrder keys).

Definition nameCount (i : Item.t) : string * Z :=
  (Item.name i, Item.count i).

(** *** getHistogram *)

Module Bucket.
Record t := mk { min : Z; max : Z; count : nat; label : string }.
End Bucket.

(** [Math.min(...values)] and [Math.max(...values)] of a non-empty
    array, given as its first element and the rest. *)
Definition mathMin (v0 : Z) (vs : list Z) : Z := fold_left Z.min vs v0.
Definition mathMax (v0 : Z) (vs : list Z) : Z := fold_left Z.max vs v0.

(** The numbers of the loop: [binSize = (max - min) / bins],
    [lo = min + i * binSize] and [hi = min + (i + 1) * binSize], each
    operation rounded. *)
Definition binSize (min max : Z) (bins : nat) : PrimFloat.float :=
  PrimFloat.div (PrimFloat.sub (Num.ofZ max) (Num.ofZ min))
                (Num.ofZ (Z.of_nat bins)).

Definition binLo (min max : Z) (bins i : nat) : PrimFloat.float :=
  PrimFloat.add (Num.ofZ min)
                (PrimFloat.mul (Num.ofZ (Z.of_nat i)) (binSize min max bins)).

Definition binHi (min max : Z) (bins i : nat) : PrimFloat.float :=
  PrimFloat.add (Num.ofZ min)
                (PrimFloat.mul (Num.ofZ (Z.of_nat i + 1))
                               (binSize min max bins)).

(** The callback of [values.filter] in turn [i] of the loop:
    [i === bins - 1 ? v >= lo && v <= hi : v >= lo && v < hi]. *)
Definition inBin (min max : Z) (bins i : nat) (v : Z) : bool :=
  PrimFloat.leb (binLo min max bins i) (Num.ofZ v)
  && (if (Z.of_nat i =? Z.of_nat bins - 1)%Z
      then PrimFloat.leb (Num.ofZ v) (binHi min max bins i)
      else PrimFloat.ltb (Num.ofZ v) (binHi min max bins i)).

Definition bucketOf (min max : Z) (bins : nat) (values : list Z) (i : nat)
  : Bucket.t :=
  let lo := binLo min max bins i in
  let hi := binHi min max bins i in
  Bucket.mk (Num.floor lo) (Num.floor hi)
            (List.length (filter (inBin min max bins i) values))
            (showZ (Num.floor lo) ++ "-" ++ showZ (Num.floor hi)).

Definition getHistogram (posts : list Post) (field : NumField) (bins : nat)
  : list Bucket.t :=
  match map (getNum field) posts with
  | [] => []
  | v0 :: vs =>
      let values := v0 :: vs in
      let min := mathMin v0 vs in
      let max := mathMax v0 vs in
      if (max =? min)%Z
      then [Bucket.mk min (min + 1) (List.length posts) (showZ min)]
      else map (bucketOf min max bins values) (seq 0 bins)
  end.

Definition totalCount (hist : list Bucket.t) : nat :=
  list_sum (map Bucket.count hist).

(** The buckets that count a value: those whose test it passes. *)
Definition bucketsOf (min max : Z) (bins : nat) (v : Z) : list nat :=
  filter (fun i => inBin min max bins i v) (seq 0 bins).

(** *** sortPosts *)

Inductive SortField := by_created_at | by_num (field : NumField).

(** [a.localeCompare(b)] is the platform's, and collates by locale:
    it is a parameter of what calls it, as the sign it returns. *)
Definition Collation := string -> string -> comparison.

Definition sortCmp (localeCompare : Collation) (field : SortField)
    (asc : bool) (a b : Post) : comparison :=
  let cmp := match field with
             | by_created_at => localeCompare (created_at a) (created_at b)
             | by_num f => signZ (getNum f a - getNum f b)
             end in
  if asc then cmp else CompOpp cmp.

Definition sortPosts (localeCompare : Collation) (posts : list Post)
    (field : SortField) (asc : bool) : list Post :=
  sort (sortCmp localeCompare field asc) posts.

(** *** findSimilarPosts *)

(** An entry [{ id, d }] of [dists]. *)
Module Dist.
Record t := mk { id : string; d : PrimFloat.float }.
End Dist.

(** [v ** 2], taken as the product of [v] with itself. *)
Definition square (v : PrimFloat.float) : PrimFloat.float :=
  PrimFloat.mul v v.

(** [Math.sqrt((emb.x - target.x) ** 2 + (emb.y - target.y) ** 2)] *)
Definition dist (emb target : Embedding) : PrimFloat.float :=
  PrimFloat.sqrt
    (PrimFloat.add (square (PrimFloat.sub (x emb) (x target)))
                   (square (PrimFloat.sub (y emb) (y target)))).

(** The comparator [(a, b) => a.d - b.d]. *)
Definition byDistAsc (a b : Dist.t) : comparison :=
  Num.sign (PrimFloat.sub (Dist.d a) (Dist.d b)).

(** The loop over [embeddingByPostId.entries()]. *)
Definition distsFrom (postId : string) (target : Embedding)
    (entries : Map Embedding) : list Dist.t :=
  flat_map (fun e => if String.eqb (fst e) postId then []
                     else [Dist.mk (fst e) (dist (snd e) target)])
           entries.

Definition findSimilarPosts (this : t) (postId : string) (limit : nat)
  : list Post :=
  match get (embeddingByPostId this) postId with
  | None => []
  | Some target =>
      let dists := distsFrom postId target (embeddingByPostId this) in
      let dists := sort byDistAsc dists in
      filterBoolean
        (map (fun d => get (postById this) (Dist.id d))
             (slice0 limit dists))
  end.

(** The distance in the words of the specification: the Euclidean
    distance of two points of the plane, the root of the sum of the
    squares of the two coordinate differences, in the arithmetic of
    doubles; and the square of that distance taken exactly, over the
    rationals the coordinates stand for. *)
Module Euclid.

Definition distance (px py qx qy : PrimFloat.float) : PrimFloat.float :=
  let dx := PrimFloat.sub px qx in
  let dy := PrimFloat.sub py qy in
  PrimFloat.sqrt (PrimFloat.add (PrimFloat.mul dx dx) (PrimFloat.mul dy dy)).

Definition exactSquare (px py qx qy : PrimFloat.float) : Q :=
  ((Num.exact px - Num.exact qx) ^ 2 + (Num.exact py - Num.exact qy) ^ 2)%Q.

End Euclid.

(** The distance from [target] to the embedding indexed under an id,
    and to the embedding of a post; without an embedding it is given
    as 0. *)
Definition distFrom (this : t) (target : Embedding) (id : string)
  : PrimFloat.float :=
  match get (embeddingByPostId this) id with
  | Some e => Euclid.distance (x e) (y e) (x target) (y target)
  | None => Num.zero
  end.

Definition distOf (this : t) (target : Embedding) (p : Post)
  : PrimFloat.float :=
  distFrom this target (post_id p).

(** The square of the exact distance from [target] to the embedding
    of a post. *)
Definition exactSquareOf (this : t) (target : Embedding) (p : Post) : Q :=
  match get (embeddingByPostId this) (post_id p) with
  | Some e => Euclid.exactSquare (x e) (y e) (x target) (y target)
  | None => 0%Q
  end.

(** Embeddings with finite coordinates. *)
Definition finiteEmbedding (e : Embedding) : Prop :=
  Num.isFinite (x e) = true /\ Num.isFinite (y e) = true.

(** The candidates of a similarity query: every embedded id but the
    anchor, in the order of the index. *)
Definition candidateIds (this : t) (postId : string) : list string :=
  filter (fun id => negb (String.eqb id postId))
         (map fst (embeddingByPostId this)).

(** *** findDuplicates *)

Module Group.
Record t := mk { title : string; count : Z; posts : list Post }.
End Group.

Definition normTitle (p : Post) : string := trim (toLowerCase (title p)).

Definition dupStep (groups : Map (list Post)) (p : Post)
  : Map (list Post) :=
  let key := normTitle p in
  if (String.length key <? 10)%nat then groups
  else set groups key (pushUpd (get groups key) p).

Definition byGroupCountDesc (a b : Group.t) : comparison :=
  signZ (Group.count b - Group.count a).

Definition findDuplicates (posts : list Post) : list Group.t :=
  let groups := fold_left dupStep posts [] in
  slice0 20
    (sort byGroupCountDesc
       (map (fun e => Group.mk (fst e) (Z.of_nat (List.length (snd e)))
                               (snd e))
            (filter (fun e => (1 <? List.length (snd e))%nat) groups))).

Definition longEnough (p : Post) : bool :=
  negb (String.length (normTitle p) <? 10)%nat.

(** The normalized title in the words of the specification: the
    title trimmed, then case-folded. *)
Definition normalized (title : string) : string :=
  toLowerCase (trim title).

(** A group as the specification describes it: the posts of the input
    whose normalized title is the key, in input order, with their
    number, for a key of at least 10 characters borne by at least two
    posts. *)
Definition sameTitle (k : string) (p : Post) : bool :=
  String.eqb k (normalized (title p)).

Record GroupOf (posts : list Post) (g : Group.t) : Prop := {
  group_posts : Group.posts g = filter (sameTitle (Group.title g)) posts;
  group_count : Group.count g = Z.of_nat (List.length (Group.posts g));
  group_key : (10 <= String.length (Group.title g))%nat;
  group_size : (2 <= Group.count g)%Z
}.

(** *** findOutliers *)

Module Outlier.
Record t := mk { type : string; post : Post; value : Z }.
End Outlier.

Definition byUpvotesDesc (a b : Post) : comparison :=
  signZ (upvotes b - upvotes a).

Definition byContentLenDesc (a b : Post) : comparison :=
  signZ (content_len b - content_len a).

(** The two loops that push to [out], over the slices they scan. *)
Definition highUpvotes (top : list Post) : list Outlier.t :=
  flat_map (fun p => if (10 <? upvotes p)%Z
                     then [Outlier.mk "High Upvotes" p (upvotes p)]
                     else [])
           top.

Definition longContent (top : list Post) : list Outlier.t :=
  flat_map (fun p => if (5000 <? content_len p)%Z
                     then [Outlier.mk "Long Content" p (content_len p)]
                     else [])
           top.

Definition findOutliers (posts : list Post) : list Outlier.t :=
  let byUp := sort byUpvotesDesc posts in
  let out := highUpvotes (slice0 10 byUp) in
  let byLen := sort byContentLenDesc posts in
  out ++ longContent (slice0 5 byLen).

End DataService.

(* ====================================================================== *)
(** ** Arrays as mutable objects                                          *)
(* ====================================================================== *)

(** [filterPosts], [sortPosts] and [findOutliers] once more, this time
    with post arrays as objects in a store: [Array.prototype.sort] writes
    to the array it is called on, [filter], [slice] and the spread
    [[...posts]] allocate a new one.  The functions of [DataService] above
    give the contents; this module adds which array holds them. *)
Module Store.

Definition ref := nat.
Definition heap := list (list Post).

Definition M (A : Type) : Type := heap -> A * heap.

Definition ret {A} (a : A) : M A := fun h => (a, h).

Definition bind {A B} (m : M A) (k : A -> M B) : M B :=
  fun h => let (a, h') := m h in k a h'.

Notation "x <- m ;; k" := (bind m (fun x => k))
  (at level 61, m at next level, right associativity).

Definition deref (r : ref) : M (list Post) := fun h => (nth r h [], h).

Definition alloc (l : list Post) : M ref :=
  fun h => (List.length h, h ++ [l]).

Fixpoint update (r : ref) (l : list Post) (h : heap) : heap :=
  match h, r with
  | [], _ => []
  | _ :: h', O => l :: h'
  | a :: h', S r' => a :: update r' l h'
  end.

Definition assign (r : ref) (l : list Post) : M unit :=
  fun h => (tt, update r l h).

(** [arr.filter(f)] *)
Definition arrayFilter (r : ref) (f : Post -> bool) : M ref :=
  l <- deref r ;; alloc (filter f l).

(** [[...arr]] *)
Definition spread (r : ref) : M ref :=
  l <- deref r ;; alloc l.

(** [arr.sort(cmp)]: in place, and returns [arr]. *)
Definition arraySort (r : ref) (cmp : Post -> Post -> comparison) : M ref :=
  l <- deref r ;; _ <- assign r (JS.sort cmp l) ;; ret r.

(** [arr.slice(0, n)] *)
Definition arraySlice0 (r : ref) (n : nat) : M ref :=
  l <- deref r ;; alloc (JS.slice0 n l).

Definition stage (guard : bool) (pred : Post -> bool) (result : ref)
  : M ref :=
  if guard then arrayFilter result pred else ret result.

(** [this.posts] is the array [this_posts]; the indexes are those of
    [this]. *)
Definition filterPosts (this_posts : ref) (this : DataService.t)
    (filters : Filters) : M ref :=
  let result := this_posts in
  result <- stage (DataService.nonEmpty (submolts filters))
                  (DataService.inSubmolts filters) result ;;
  result <- stage (DataService.nonEmpty (authors filters))
                  (DataService.inAuthors filters) result ;;
  result <- stage (DataService.nonEmpty (tags filters))
                  (DataService.hasTag this filters) result ;;
  result <- stage (DataService.nonEmpty (classNotes filters))
                  (DataService.hasClassNote this filters) result ;;
  result <- stage (0 <? minUpvotes (engagement filters))%Z
                  (DataService.enoughUpvotes filters) result ;;
  result <- stage (0 <? minComments (engagement filters))%Z
                  (DataService.enoughComments filters) result ;;
  result <- stage (JS.truthy (search filters))
                  (DataService.textMatch filters) result ;;
  result <- stage (DataService.postIdsActive filters)
                  (DataService.inPostIds (JS.orElse (postIds filters) []))
                  result ;;
  ret result.

Definition sortPosts (localeCompare : DataService.Collation) (posts : ref)
    (field : DataService.SortField) (asc : bool) : M ref :=
  sorted <- spread posts ;;
  _ <- arraySort sorted (DataService.sortCmp localeCompare field asc) ;;
  ret sorted.

Definition findOutliers (posts : ref) : M (list DataService.Outlier.t) :=
  c <- spread posts ;;
  byUp <- arraySort c DataService.byUpvotesDesc ;;
  top <- arraySlice0 byUp 10 ;;
  tops <- deref top ;;
  let out := DataService.highUpvotes tops in
  c <- spread posts ;;
  byLen <- arraySort c DataService.byContentLenDesc ;;
  top <- arraySlice0 byLen 5 ;;
  tops <- deref top ;;
  ret (out ++ DataService.longContent tops).

(** Some stage of [filterPosts] is switched on. *)
Definition anyActive (filters : Filters) : bool :=
  DataService.nonEmpty (submolts filters)
  || DataService.nonEmpty (authors filters)
  || DataService.nonEmpty (tags filters)
  || DataService.nonEmpty (classNotes filters)
  || (0 <? minUpvotes (engagement filters))%Z
  || (0 <? minComments (engagement filters))%Z
  || JS.truthy (search filters)
  || DataService.postIdsActive filters.

(** The queries of the engine over the array [posts]; those that only
    iterate over it read it once. *)
Inductive Query :=
| q_filterPosts (this : DataService.t) (filters : Filters)
| q_sortPosts (field : DataService.SortField) (asc : bool)
| q_findOutliers
| q_getTopItems (field : DataService.StrField) (limit : nat)
                (displayField : option DataService.StrField)
| q_getHistogram (field : DataService.NumField) (bins : nat)
| q_findDuplicates.

Inductive Answer :=
| a_posts (r : ref)
| a_outliers (out : list DataService.Outlier.t)
| a_items (items : list DataService.Item.t)
| a_histogram (hist : list DataService.Bucket.t)
| a_groups (groups : list DataService.Group.t).

Definition run (localeCompare : DataService.Collation) (q : Query)
    (posts : ref) : M Answer :=
  match q with
  | q_filterPosts this filters =>
      r <- filterPosts posts this filters ;; ret (a_posts r)
  | q_sortPosts field asc =>
      r <- sortPosts localeCompare posts field asc ;; ret (a_posts r)
  | q_findOutliers =>
      out <- findOutliers posts ;; ret (a_outliers out)
  | q_getTopItems field limit displayField =>
      l <- deref posts ;;
      ret (a_items (DataService.getTopItems l field limit displayField))
  | q_getHistogram field bins =>
      l <- deref posts ;;
      ret (a_histogram (DataService.getHistogram l field bins))
  | q_findDuplicates =>
      l <- deref posts ;;
      ret (a_groups (DataService.findDuplicates l))
  end.

(** What a query answers, in terms of the contents [corpus] of the
    array it is run on, of the store [h] before it and the store [h']
    after it: the result of the function of [DataService]; for
    [sortPosts] in an array that did not exist before; for
    [filterPosts] in such an array when some stage is switched on, and
    in the array [posts] itself when none is. *)
Definition Answers (localeCompare : DataService.Collation) (q : Query)
    (posts : ref) (h h' : heap) (ans : Answer) : Prop :=
  let corpus := nth posts h [] in
  match q, ans with
  | q_filterPosts this filters, a_posts r =>
      nth r h' []
      = DataService.filterPosts (DataService.withPosts this corpus) filters
      /\ if anyActive filters then (List.length h <= r)%nat else r = posts
  | q_sortPosts field asc, a_posts r =>
      nth r h' [] = DataService.sortPosts localeCompare corpus field asc
      /\ (List.length h <= r)%nat
  | q_findOutliers, a_outliers out =>
      out = DataService.findOutliers corpus
  | q_getTopItems field limit displayField, a_items items =>
      items = DataService.getTopItems corpus field limit displayField
  | q_getHistogram field bins, a_histogram hist =>
      hist = DataService.getHistogram corpus field bins
  | q_findDuplicates, a_groups groups =>
      groups = DataService.findDuplicates corpus
  | _, _ => False
  end.

End Store.

(* ====================================================================== *)
(** ** renderTagNetwork: node weights, normalisation, threshold           *)
(* ====================================================================== *)

Module Network.
Import JS.

(** The value of a quotient of two integers in JavaScript. *)
Inductive num := Fin (q : Q) | PosInf | NegInf | NaN.

Definition div (a b : Z) : num :=
  if (b =? 0)%Z then
    if (a =? 0)%Z then NaN else if (0 <? a)%Z then PosInf else NegInf
  else Fin (inject_Z a / inject_Z b)%Q.

Definition times100 (n : num) : num :=
  match n with
  | Fin q => Fin (q * 100)%Q
  | other => other
  end.


Definition orZero (o : option Z) : Z := orElse o 0%Z.



Module NEdge.
Record t := mk { edge : TagEdge; normalizedWeight : num }.
End NEdge.







(** A node; [sizeRadicand] is the number under the root of [size]. *)
Module Node.
Record t := mk { id : string; label : string; group : string;
                 sizeRadicand : Z }.
End Node.

Module Link.
Record t := mk { source : string; target : string; weight : num }.
End Link.

Definition colon : ascii := ":"%char.


Definition linkOf (e : NEdge.t) : Link.t :=
  Link.mk (tag_a (NEdge.edge e)) (tag_b (NEdge.edge e))
          (NEdge.normalizedWeight e).

Inductive Rendered :=
| NoEdges
| NoEdgesAboveThreshold
| ForceGraph (nodes : list Node.t) (links : list Link.t).












End Network.

(* ====================================================================== *)
(** ** Rectangle selection (mouseup handlers of the two scatter plots)     *)
(* ====================================================================== *)

Module Selection.

Section Plot.
(** The two d3 scales of the plot. *)
Variables xScale yScale : PrimFloat.float -> PrimFloat.float.

Context {A : Type}.
Variables (px py : A -> PrimFloat.float) (key : A -> string).

(** The callback of [filter]: the scaled point against the corners,
    [px >= x0 && px <= x1 && py >= y0 && py <= y1]. *)
Definition inside (x0 y0 x1 y1 : PrimFloat.float) (d : A) : bool :=
  let sx := xScale (px d) in
  let sy := yScale (py d) in
  PrimFloat.leb x0 sx && PrimFloat.leb sx x1
  && PrimFloat.leb y0 sy && PrimFloat.leb sy y1.

(** The guard [x1 - x0 > 5 && y1 - y0 > 5]. *)
Definition guard (x0 y0 x1 y1 : PrimFloat.float) : bool :=
  PrimFloat.ltb Num.five (PrimFloat.sub x1 x0)
  && PrimFloat.ltb Num.five (PrimFloat.sub y1 y0).

(** The array [selected], when the handler gets to compute it. *)
Definition selected (points : list A)
    (selStart mouse : PrimFloat.float * PrimFloat.float)
  : option (list string) :=
  let x0 := Num.mathMin (fst selStart) (fst mouse) in
  let y0 := Num.mathMin (snd selStart) (snd mouse) in
  let x1 := Num.mathMax (fst selStart) (fst mouse) in
  let y1 := Num.mathMax (snd selStart) (snd mouse) in
  if guard x0 y0 x1 y1
  then Some (map key (filter (inside x0 y0 x1 y1) points))
  else None.

(** What the gesture selects: nothing when the handler stops at one
    of its guards. *)
Definition selection (points : list A)
    (selStart mouse : PrimFloat.float * PrimFloat.float)
  : list string :=
  match selected points selStart mouse with
  | Some ids => ids
  | None => []
  end.
End Plot.

(** The rectangle in the words of the specification: a point is in
    it when it is between the corners, edges included. *)
Definition Inside (x0 y0 x1 y1 sx sy : PrimFloat.float) : Prop :=
  (PrimFloat.leb x0 sx = true /\ PrimFloat.leb sx x1 = true)
  /\ (PrimFloat.leb y0 sy = true /\ PrimFloat.leb sy y1 = true).

(** The width and the height of the rectangle, as the handlers
    compute them: the differences of the corners, rounded. *)
Definition width (x0 x1 : PrimFloat.float) : PrimFloat.float :=
  PrimFloat.sub x1 x0.

Definition height (y0 y1 : PrimFloat.float) : PrimFloat.float :=
  PrimFloat.sub y1 y0.

(** The rectangles the handlers act on: more than 5 units wide and
    more than 5 units high. *)
Definition BigEnough (x0 y0 x1 y1 : PrimFloat.float) : Prop :=
  PrimFloat.ltb Num.five (width x0 x1) = true
  /\ PrimFloat.ltb Num.five (height y0 y1) = true.

(** A rectangle without width or without height: two corners agree in
    a coordinate. *)
Definition Degenerate (x0 y0 x1 y1 : PrimFloat.float) : Prop :=
  PrimFloat.eqb x0 x1 = true \/ PrimFloat.eqb y0 y1 = true.

(** The state the handlers act on: the drag in progress and the
    filters of [StateService]. *)
Record State := mkState {
  selStart : option (PrimFloat.float * PrimFloat.float);
  filters : Filters
}.

Definition setPostIds (f : Filters) (ids : list string) : Filters :=
  mkFilters (submolts f) (authors f) (tags f) (classNotes f)
            (engagement f) (search f) (Some ids).

Definition setSubmolts (f : Filters) (names : list string) : Filters :=
  mkFilters names (authors f) (tags f) (classNotes f)
            (engagement f) (search f) (postIds f).

(** [svg.on('mouseup', ...)] of [renderEmbeddings]. *)
Definition mouseupEmbeddings
    (xScale yScale : PrimFloat.float -> PrimFloat.float)
    (embs : list Embedding) (mouse : PrimFloat.float * PrimFloat.float)
    (st : State) : State :=
  match selStart st with
  | None => st
  | Some start =>
      match selection xScale yScale x y emb_post_id embs start mouse with
      | [] => mkState None (filters st)
      | ids => mkState None (setPostIds (filters st) ids)
      end
  end.

(** [svg.on('mouseup', ...)] of [renderSpaces]. *)
Definition mouseupSpaces
    (xScale yScale : PrimFloat.float -> PrimFloat.float)
    (umap : list SubmoltPoint) (mouse : PrimFloat.float * PrimFloat.float)
    (st : State) : State :=
  match selStart st with
  | None => st
  | Some start =>
      match selection xScale yScale umap_x umap_y umap_submolt_name
                      umap start mouse with
      | [] => mkState None (filters st)
      | names => mkState None (setSubmolts (filters st) names)
      end
  end.

(** [d3.scaleLinear().domain([d0, d1]).range([r0, r1])], which is the
    library's and not under [src/]: as d3 computes it for a domain with
    [d0 < d1], [t = (v - d0) / (d1 - d0)] and then
    [r0 * (1 - t) + r1 * t], each operation rounded. *)
Definition scaleLinear (d0 d1 r0 r1 : PrimFloat.float) (v : PrimFloat.float)
  : PrimFloat.float :=
  let t := PrimFloat.div (PrimFloat.sub v d0) (PrimFloat.sub d1 d0) in
  PrimFloat.add (PrimFloat.mul r0 (PrimFloat.sub Num.one t))
                (PrimFloat.mul r1 t).

End Selection.

(* ====================================================================== *)
(** ** Sample data                                                        *)
(* ====================================================================== *)

Module Sample.

Definition post (id author : string) (up comments : Z) : Post :=
  mkPost id ("Title of " ++ id) "" 0 author "m1" "m1" up comments "".

(** Four posts of four authors, named as the posts are. *)
Definition A := post "A" "A" 5 5.
Definition B := post "B" "B" 12 8.
Definition C := post "C" "C" 20 3.
Definition D := post "D" "D" 3 0.

Definition corpus : DataService.t :=
  DataService.buildIndexes
    (DataService.mk [A; B; C; D] [] [] [] [] [] [] [] [] [] [] []).

Definition minUpvotes10 : Filters :=
  mkFilters [] [] [] [] (mkEngagement 10 0) "" None.

Definition searchFor (q : string) : Filters :=
  mkFilters [] [] [] [] (mkEngagement 0 0) q None.

Definition P1 := post "P1" "ann" 1 0.
Definition P2 := post "P2" "bob" 2 0.
Definition P3 := post "P3" "cyd" 3 0.

Definition embedded : DataService.t :=
  DataService.buildIndexes
    (DataService.mk [P1; P2; P3] [] [] [] []
       [mkEmbedding "P1" (Num.ofZ 0) (Num.ofZ 0);
        mkEmbedding "P2" (Num.ofZ 1) (Num.ofZ 0);
        mkEmbedding "P3" (Num.ofZ 5) (Num.ofZ 5)]
       [] [] [] [] [] []).

(** The scales [renderEmbeddings] builds for [embedded] in a plot of
    380 by 380 units: domains from -5 to 10, a margin of 40. *)
Definition xScale : PrimFloat.float -> PrimFloat.float :=
  Selection.scaleLinear (Num.ofZ (-5)) (Num.ofZ 10) (Num.ofZ 40) (Num.ofZ 340).
Definition yScale : PrimFloat.float -> PrimFloat.float :=
  Selection.scaleLinear (Num.ofZ (-5)) (Num.ofZ 10) (Num.ofZ 340) (Num.ofZ 40).

(** Three embeddings in the order of the file: the anchor at the
    origin, then one post at (1, 2^-30) and one at (1, 0).  The second
    is the farther of the two from the anchor, by 2^-60 in the square
    of the distance. *)
Definition tiny : PrimFloat.float :=
  PrimFloat.div (Num.ofZ 1) (Num.ofZ (2 ^ 30)).

Definition anchor := post "T" "ann" 1 0.
Definition farther := post "B" "bob" 2 0.
Definition nearer := post "A" "cyd" 3 0.

Definition atAnchor := mkEmbedding "T" (Num.ofZ 0) (Num.ofZ 0).
Definition atFarther := mkEmbedding "B" (Num.ofZ 1) tiny.
Definition atNearer := mkEmbedding "A" (Num.ofZ 1) (Num.ofZ 0).

Definition close : DataService.t :=
  DataService.buildIndexes
    (DataService.mk [anchor; farther; nearer] [] [] [] []
       [atAnchor; atFarther; atNearer] [] [] [] [] [] []).

(** Two posts, of 0 and of 61 upvotes. *)
Definition low := post "low" "ann" 0 0.
Definition high := post "high" "bob" 61 0.

(** Three posts, two of them with one title but for the case and the
    blanks around it. *)
Definition titled (id title : string) : Post :=
  mkPost id title "" 0 "ann" "m1" "m1" 0 0 "".

Definition hello1 := titled "H1" "  Hello World! ".
Definition hello2 := titled "H2" "hello world!".
Definition other3 := titled "H3" "Another thing".



End Sample.

(* ====================================================================== *)
(** ** The other aggregations of DataService                              *)
(* ====================================================================== *)

Module Aggregates.
Import JS DataService.

(** An entry [{ name, count }] of a ranking. *)
Module NameCount.
Record t := mk { name : string; count : Z }.
End NameCount.

(** [counts.set(k, (counts.get(k) || 0) + 1)] *)
Definition bump (counts : Map Z) (k : string) : Map Z :=
  set counts k (orZero (get counts k) + 1)%Z.

(** The comparator [(a, b) => b.count - a.count]. *)
Definition byCountDesc (a b : NameCount.t) : comparison :=
  signZ (NameCount.count b - NameCount.count a).

(** [Array.from(counts.entries()).map(([name, count]) => ({ name, count }))
    .sort((a, b) => b.count - a.count)] *)
Definition ranked (counts : Map Z) : list NameCount.t :=
  sort byCountDesc (map (fun e => NameCount.mk (fst e) (snd e)) counts).

(** *** getTopTags, getTopClassNotes *)

Definition getTopTags (this : DataService.t) (posts : list Post)
    (limit : nat) : list NameCount.t :=
  let counts :=
    fold_left
      (fun counts p =>
         let tags := orElse (get (tagsByPostId this) (post_id p)) [] in
         fold_left (fun counts t => bump counts (tag t)) tags counts)
      posts [] in
  slice0 limit (ranked counts).

Definition getTopClassNotes (this : DataService.t) (posts : list Post)
    (limit : nat) : list NameCount.t :=
  let counts :=
    fold_left
      (fun counts p =>
         let notes :=
           orElse (get (classNotesByPostId this) (post_id p)) [] in
         fold_left (fun counts n => bump counts (class_note n)) notes counts)
      posts [] in
  slice0 limit (ranked counts).

(** The tags, the class notes, of a sequence of posts, post by post. *)
Definition tagNames (this : DataService.t) (posts : list Post)
  : list string :=
  flat_map (fun p => map tag (tagsOf this p)) posts.

Definition noteNames (this : DataService.t) (posts : list Post)
  : list string :=
  flat_map (fun p => map class_note (classNotesOf this p)) posts.

Definition pairOf (i : NameCount.t) : string * Z :=
  (NameCount.name i, NameCount.count i).

(** *** getAllTagsGrouped *)

Module TagGroup.
Record t := mk { prefix : string; tags : list NameCount.t }.
End TagGroup.

(** [parts = tag.split(':'); parts.length > 1 ? parts[0] : 'other'] *)
Definition prefixOf (tag : string) : string :=
  let parts := split ":"%char tag in
  if (1 <? List.length parts)%nat then hd ""%string parts else "other".

(** [m.has(k)] *)
Definition hasKey {V} (m : Map V) (k : string) : bool :=
  match get m k with Some _ => true | None => false end.

(** One turn of a loop that counts in a map of maps: the inner map is
    created when its key is new, then counted in; it is the object the
    outer map holds, so the outer map sees the count. *)
Definition nestedBump (outer inner : string) (groups : Map (Map Z))
  : Map (Map Z) :=
  let groups := if hasKey groups outer then groups
                else set groups outer [] in
  let tagMap := orElse (get groups outer) [] in
  set groups outer (bump tagMap inner).

(** What a turn of such a loop leaves under the outer key, from what
    was there. *)
Definition nestedUpd {X} (inner : X -> string) (o : option (Map Z)) (x : X)
  : Map Z :=
  bump (orElse o []) (inner x).

Definition byPrefix (localeCompare : Collation) (a b : TagGroup.t)
  : comparison :=
  localeCompare (TagGroup.prefix a) (TagGroup.prefix b).

Definition getAllTagsGrouped (localeCompare : Collation)
    (this : DataService.t) : list TagGroup.t :=
  let groups :=
    fold_left (fun groups t => nestedBump (prefixOf (tag t)) (tag t) groups)
              (postTags this) [] in
  let result := map (fun e => TagGroup.mk (fst e) (ranked (snd e))) groups in
  sort (byPrefix localeCompare) result.

(** The prefix of a tag in the words of the specification: what stands
    before the first colon of the tag, and [other] for a tag without a
    colon. *)
Definition colon : ascii := ":"%char.

Fixpoint beforeColon (tag : string) : option string :=
  match tag with
  | EmptyString => None
  | String c tag' =>
      if Ascii.eqb c colon then Some EmptyString
      else option_map (String c) (beforeColon tag')
  end.

Definition tagPrefix (tag : string) : string :=
  match beforeColon tag with
  | Some prefix => prefix
  | None => "other"
  end.

(** A tag is a prefix, a colon and a rest, the prefix without a
    colon; or it has no colon at all. *)
Definition Prefixed (tag prefix : string) : Prop :=
  (exists rest, tag = (prefix ++ String colon rest)%string)
  /\ ~ In colon (list_ascii_of_string prefix).

Definition Unprefixed (tag : string) : Prop :=
  ~ In colon (list_ascii_of_string tag).

(** The tags of the table that bear a prefix. *)
Definition tagsWithPrefix (this : DataService.t) (prefix : string)
  : list string :=
  filter (fun t => String.eqb prefix (tagPrefix t))
         (map tag (postTags this)).

(** A ranking of [keys] in the words used for [getTopItems]: each
    distinct key once with its number of occurrences, in descending
    order of count, keys of equal count in the order they are first
    met. *)
Record RankingOf (keys : list string) (r : list NameCount.t) : Prop := {
  ranking_entries : Permutation (map pairOf r) (tally keys);
  ranking_sorted :
    StronglySorted
      (fun a b => (NameCount.count b <= NameCount.count a)%Z) r;
  ranking_stable :
    forall c, filter (fun e => (snd e =? c)%Z) (map pairOf r)
              = filter (fun e => (snd e =? c)%Z) (tally keys)
}.

End Aggregates.

(* ====================================================================== *)
(** ** StateService                                                       *)
(* ====================================================================== *)

Module StateService.
Import JS.

(** [StateService.filters]: the fields [filterPosts] reads, which
    [Filters] holds, and the two others, [selectedPost] ([null] or a post
    id) and [tab]. *)
Record t := mk {
  filters : Filters;
  selectedPost : option string;
  tab : string
}.

(** The object [filters] starts as, and [clearFilters] resets to but for
    the tab. *)
Definition initial : t := mk emptyFilters None "overview".

(** [arr.indexOf(s)]: the first position of [s], or -1. *)
Fixpoint indexOfFrom (i : Z) (arr : list string) (s : string) : Z :=
  match arr with
  | [] => (-1)%Z
  | x :: arr' =>
      if String.eqb x s then i else indexOfFrom (i + 1)%Z arr' s
  end.

Definition indexOf (arr : list string) (s : string) : Z :=
  indexOfFrom 0 arr s.

(** [arr.splice(idx, 1)] for a position [idx] of the array. *)
Fixpoint splice1 (idx : nat) (arr : list string) : list string :=
  match arr, idx with
  | [], _ => []
  | _ :: arr', O => arr'
  | x :: arr', S idx' => x :: splice1 idx' arr'
  end.

(** The body the four toggles share:
    [idx = arr.indexOf(s); if (idx >= 0) arr.splice(idx, 1);
     else arr.push(s)]. *)
Definition toggle (arr : list string) (s : string) : list string :=
  let idx := indexOf arr s in
  if (0 <=? idx)%Z then splice1 (Z.to_nat idx) arr else arr ++ [s].

Definition withFilters (st : t) (f : Filters) : t :=
  mk f (selectedPost st) (tab st).

Definition toggleSubmoltFilter (st : t) (s : string) : t :=
  let f := filters st in
  withFilters st
    (mkFilters (toggle (submolts f) s) (authors f) (tags f) (classNotes f)
               (engagement f) (search f) (postIds f)).

Definition toggleTagFilter (st : t) (s : string) : t :=
  let f := filters st in
  withFilters st
    (mkFilters (submolts f) (authors f) (toggle (tags f) s) (classNotes f)
               (engagement f) (search f) (postIds f)).

Definition toggleClassNoteFilter (st : t) (s : string) : t :=
  let f := filters st in
  withFilters st
    (mkFilters (submolts f) (authors f) (tags f) (toggle (classNotes f) s)
               (engagement f) (search f) (postIds f)).

Definition toggleAuthorFilter (st : t) (s : string) : t :=
  let f := filters st in
  withFilters st
    (mkFilters (submolts f) (toggle (authors f) s) (tags f) (classNotes f)
               (engagement f) (search f) (postIds f)).

Inductive EngagementField := f_minUpvotes | f_minComments.

Definition setEngagement (st : t) (field : EngagementField) (val : Z) : t :=
  let f := filters st in
  let e := engagement f in
  withFilters st
    (mkFilters (submolts f) (authors f) (tags f) (classNotes f)
               (match field with
                | f_minUpvotes => mkEngagement val (minComments e)
                | f_minComments => mkEngagement (minUpvotes e) val
                end)
               (search f) (postIds f)).

Definition setSearch (st : t) (q : string) : t :=
  withFilters st (DataService.withSearch (filters st) q).

(** [setPostIds(ids)], [ids] an array or [null]. *)
Definition setPostIds (st : t) (ids : option (list string)) : t :=
  let f := filters st in
  withFilters st
    (mkFilters (submolts f) (authors f) (tags f) (classNotes f)
               (engagement f) (search f) ids).

Definition setSelectedPost (st : t) (postId : option string) : t :=
  mk (filters st) postId (tab st).

Definition setTab (st : t) (tab_ : string) : t :=
  mk (filters st) (selectedPost st) tab_.

Definition clearFilters (st : t) : t :=
  let currentTab := tab st in
  mk emptyFilters None currentTab.

(** The object [state] that [saveToHash] serialises and [loadFromHash]
    parses: a key is present or absent.  The two conversions between this
    object and the text of the hash, [JSON.stringify] with
    [encodeURIComponent] and back, are the platform's and are not
    modelled; a hash is the object it carries, or nothing for the empty
    hash. *)
Module HashState.
Record t := mk {
  s : option (list string);
  a : option (list string);
  t_ : option (list string);
  n : option (list string);
  u : option Z;
  c : option Z;
  q : option string;
  p : option string;
  tab : option string
}.
End HashState.

Definition Hash := option HashState.t.

(** [if (cond) state.k = v] *)
Definition key {V} (cond : bool) (v : V) : option V :=
  if cond then Some v else None.

Definition truthyOpt (o : option string) : bool :=
  match o with Some x => truthy x | None => false end.

(** [Object.keys(state).length > 0] *)
Definition hasKeys (h : HashState.t) : bool :=
  match HashState.s h, HashState.a h, HashState.t_ h, HashState.n h,
        HashState.u h, HashState.c h, HashState.q h, HashState.p h,
        HashState.tab h with
  | None, None, None, None, None, None, None, None, None => false
  | _, _, _, _, _, _, _, _, _ => true
  end.

Definition saveToHash (st : t) : Hash :=
  let f := filters st in
  let state :=
    HashState.mk
      (key (DataService.nonEmpty (submolts f)) (submolts f))
      (key (DataService.nonEmpty (authors f)) (authors f))
      (key (DataService.nonEmpty (tags f)) (tags f))
      (key (DataService.nonEmpty (classNotes f)) (classNotes f))
      (key (0 <? minUpvotes (engagement f))%Z (minUpvotes (engagement f)))
      (key (0 <? minComments (engagement f))%Z (minComments (engagement f)))
      (key (truthy (search f)) (search f))
      (match selectedPost st with
       | Some id => key (truthy id) id
       | None => None
       end)
      (key (truthy (tab st) && negb (String.eqb (tab st) "overview"))
           (tab st)) in
  if hasKeys state then Some state else None.

(** [if (state.k) target = state.k], for an array (truthy when
    present), a number (truthy when not 0) and a string (truthy when not
    empty). *)
Definition loadArr (o : option (list string)) (old : list string)
  : list string :=
  match o with Some l => l | None => old end.

Definition loadNum (o : option Z) (old : Z) : Z :=
  match o with
  | Some z => if (z =? 0)%Z then old else z
  | None => old
  end.

Definition loadStr (o : option string) (old : string) : string :=
  match o with
  | Some x => if truthy x then x else old
  | None => old
  end.

Definition loadFromHash (hash : Hash) (st : t) : t :=
  match hash with
  | None => st
  | Some state =>
      let f := filters st in
      mk (mkFilters
            (loadArr (HashState.s state) (submolts f))
            (loadArr (HashState.a state) (authors f))
            (loadArr (HashState.t_ state) (tags f))
            (loadArr (HashState.n state) (classNotes f))
            (mkEngagement
               (loadNum (HashState.u state) (minUpvotes (engagement f)))
               (loadNum (HashState.c state) (minComments (engagement f))))
            (loadStr (HashState.q state) (search f))
            (postIds f))
         (if truthyOpt (HashState.p state) then HashState.p state
          else selectedPost st)
         (loadStr (HashState.tab state) (tab st))
  end.

(** *** renderFilterChips *)

Module Chip.
Record t := mk { type : string; label : string; action : string }.
End Chip.

Definition quote : string := String "034"%char EmptyString.

Definition chipsOf (st : t) : list Chip.t :=
  let f := filters st in
  map (fun x => Chip.mk "submolt" x ("submolt:" ++ x)%string) (submolts f)
  ++ map (fun x => Chip.mk "author" x ("author:" ++ x)%string) (authors f)
  ++ map (fun x => Chip.mk "tag" x ("tag:" ++ x)%string) (tags f)
  ++ map (fun x => Chip.mk "note" x ("note:" ++ x)%string) (classNotes f)
  ++ (if truthy (search f)
      then [Chip.mk "search" (quote ++ search f ++ quote)%string "search"]
      else [])
  ++ (if (0 <? minUpvotes (engagement f))%Z
      then [Chip.mk "up" (showZ (minUpvotes (engagement f)) ++ "+ up")%string
                    "minUp"]
      else [])
  ++ (if (0 <? minComments (engagement f))%Z
      then [Chip.mk "comm"
                    (showZ (minComments (engagement f)) ++ "+ comm")%string
                    "minComm"]
      else []).

(** [action.slice(n)] *)
Fixpoint sliceFrom (n : nat) (x : string) : string :=
  match n, x with
  | O, _ => x
  | S n', String _ x' => sliceFrom n' x'
  | S _, EmptyString => EmptyString
  end.

(** What [el.dataset.action] reads back of an action written between
    double quotes in the markup of the chip: the attribute ends at the
    first double quote.  The decoding of character references and the
    treatment of CR and NUL by the parser are not modelled; [Plain]
    keeps to the strings they leave alone. *)
Fixpoint dataAction (action : string) : string :=
  match action with
  | EmptyString => EmptyString
  | String c action' =>
      if Ascii.eqb c "034"%char then EmptyString
      else String c (dataAction action')
  end.

Definition plainUnit (c : ascii) : bool :=
  negb (Ascii.eqb c "034"%char || Ascii.eqb c "&"%char
        || Ascii.eqb c "013"%char || Ascii.eqb c "000"%char).

Definition Plain (s : string) : Prop :=
  forallb plainUnit (list_ascii_of_string s) = true.

(** The click handler of a chip, from the action it reads. *)
Definition chipClick (action : string) (st : t) : t :=
  if String.eqb action "search" then setSearch st ""
  else if String.eqb action "minUp" then setEngagement st f_minUpvotes 0
  else if String.eqb action "minComm" then setEngagement st f_minComments 0
  else if startsWith action "submolt:"
       then toggleSubmoltFilter st (sliceFrom 8 action)
  else if startsWith action "author:"
       then toggleAuthorFilter st (sliceFrom 7 action)
  else if startsWith action "tag:"
       then toggleTagFilter st (sliceFrom 4 action)
  else if startsWith action "note:"
       then toggleClassNoteFilter st (sliceFrom 5 action)
  else st.

(** A click on the element of chip [c]. *)
Definition click (c : Chip.t) (st : t) : t :=
  chipClick (dataAction (Chip.action c)) st.

(** [arr] without the first occurrence of [s]. *)
Fixpoint removeFirst (arr : list string) (s : string) : list string :=
  match arr with
  | [] => []
  | x :: arr' => if String.eqb x s then arr' else x :: removeFirst arr' s
  end.

End StateService.

(* ====================================================================== *)
(** ** What the panels show of the queries                                *)
(* ====================================================================== *)

Module Table.
Import JS DataService.

(** [renderResultsTable]: the rows are
    [DataService.sortPosts(posts, currentSortField).slice(0, 500)]. *)
Definition rows (localeCompare : Collation) (posts : list Post)
    (currentSortField : SortField) : list Post :=
  slice0 500 (sortPosts localeCompare posts currentSortField false).

End Table.

(** The order a numeric field puts on the posts, in the direction
    asked of [sortPosts]. *)
Definition inOrder (f : DataService.NumField) (asc : bool) (a b : Post)
  : Prop :=
  if asc then (DataService.getNum f a <= DataService.getNum f b)%Z
  else (DataService.getNum f b <= DataService.getNum f a)%Z.

Module Integrity.
Import JS DataService.

(** The two kinds of entry [findOutliers] pushes. *)
Definition mkHigh (p : Post) : Outlier.t :=
  Outlier.mk "High Upvotes" p (upvotes p).

Definition mkLong (p : Post) : Outlier.t :=
  Outlier.mk "Long Content" p (content_len p).

(** The posts whose value of [k] is above the bound [t], the greatest
    first and ties in the order of the input, cut to [n]. *)
Definition topAbove (k : Post -> Z) (t : Z) (n : nat) (posts : list Post)
  : list Post :=
  firstn n (filter (fun p => (t <? k p)%Z)
                   (sort (fun a b => signZ (k b - k a)) posts)).

(** [renderIntegrity]: the outliers listed are
    [DataService.findOutliers(all)], cut by [outliers.slice(0, 8)]. *)
Definition shownOutliers (all : list Post) : list Outlier.t :=
  slice0 8 (findOutliers all).

End Integrity.

(** [renderFilterLists] counts the communities and the class notes of the
    whole corpus itself, in maps whose entries it sorts and cuts. *)
Module FilterLists.
Import JS DataService Aggregates.

(** The comparator [(a, b) => b[1] - a[1]]. *)
Definition bySndDesc (a b : string * Z) : comparison :=
  signZ (snd b - snd a).

Definition topSubmolts (all : list Post) : list (string * Z) :=
  let submoltCounts :=
    fold_left (fun counts p => bump counts (submolt_name p)) all [] in
  slice0 20 (sort bySndDesc submoltCounts).

Definition topNotes (this : DataService.t) (all : list Post)
  : list (string * Z) :=
  let noteCounts :=
    fold_left
      (fun counts p =>
         let notes :=
           orElse (get (classNotesByPostId this) (post_id p)) [] in
         fold_left (fun counts n => bump counts (class_note n)) notes counts)
      all [] in
  slice0 15 (sort bySndDesc noteCounts).

End FilterLists.

(** [showAuthorInReader]: nothing is shown for a name without posts;
    otherwise the communities the author is active in are counted over
    the posts of the author, sorted and cut to five. *)
Module Reader.
Import JS DataService Aggregates.

Definition activeIn (this : DataService.t) (name : string)
  : option (list (string * Z)) :=
  let posts := orElse (get (postsByAuthor this) name) [] in
  if (List.length posts =? 0)%nat then None
  else
    let submoltCounts :=
      fold_left (fun counts p => bump counts (submolt_name p)) posts [] in
    Some (slice0 5 (sort FilterLists.bySndDesc submoltCounts)).

End Reader.

(* ====================================================================== *)
(** ** renderAuthorSubmoltNetwork                                         *)
(* ====================================================================== *)

Module BridgeNetwork.
Import JS DataService Aggregates Network.

(** A node of this graph; [size] is a constant of its kind. *)
Module BNode.
Record t := mk { id : string; label : string; group : string; size : Z }.
End BNode.











Inductive Rendered :=
| NoBridgeAuthors
| NoEdgesAboveThreshold
| ForceGraph (nodes : list BNode.t) (links : list Link.t).


(** The click handler given to the graph:
    [id.startsWith('a:')] toggles the author [id.slice(2)],
    [id.startsWith('s:')] the community. *)
Definition nodeClick (id : string) (st : StateService.t) : StateService.t :=
  if startsWith id "a:"
  then StateService.toggleAuthorFilter st (StateService.sliceFrom 2 id)
  else if startsWith id "s:"
  then StateService.toggleSubmoltFilter st (StateService.sliceFrom 2 id)
  else st.


(** The link between an author and a community that holds [cnt] of
    the author's posts. *)
Definition linkOf (maxEdgeWeight : Z) (author : string) (sc : string * Z)
  : Link.t :=
  Link.mk ("a:" ++ author) ("s:" ++ fst sc)
          (times100 (div (snd sc) maxEdgeWeight)).




End BridgeNetwork.

(* ====================================================================== *)
(** ** The buttons of the embeddings panel                                *)
(* ====================================================================== *)

Module EmbeddingsEvents.
Import JS DataService.

(** [[selectedPostId, ...similar.map(p => p.post_id)]] *)
Definition similarIds (this : DataService.t) (selectedPostId : string)
  : list string :=
  selectedPostId
  :: map post_id (findSimilarPosts this selectedPostId 10).

(** The click on [find-similar-btn]; [selectedPostId] is [null] or a
    post id, and nothing is done when it is falsy. *)
Definition findSimilarClick (this : DataService.t)
    (selectedPostId : option string) (st : StateService.t)
  : StateService.t :=
  match selectedPostId with
  | Some id =>
      if truthy id
      then StateService.setPostIds st (Some (similarIds this id))
      else st
  | None => st
  end.

(** The click on [clear-selection-btn], on [selectedPostId] and the
    filters. *)
Definition clearSelectionClick (st : StateService.t)
  : option string * StateService.t :=
  (None, StateService.setPostIds st None).

(** A specification without its list of post ids. *)
Definition withoutPostIds (f : Filters) : Filters :=
  mkFilters (submolts f) (authors f) (tags f) (classNotes f)
            (engagement f) (search f) None.

End EmbeddingsEvents.

(* ====================================================================== *)
(** * Properties                                                          *)
(* ====================================================================== *)

(** ** Lists *)

Module ListFacts.

Lemma filter_filter_and {A} (f g : A -> bool) (l : list A) :
  filter f (filter g l) = filter (fun a => g a && f a) l.
Proof.
  induction l as [|a l IH]; simpl; [reflexivity|].
  destruct (g a); simpl; [destruct (f a)|]; now rewrite IH.
Qed.

Lemma filter_idem {A} (f : A -> bool) (l : list A) :
  filter f (filter f l) = filter f l.
Proof.
  rewrite filter_filter_and. apply filter_ext.
  intros a. now destruct (f a).
Qed.

Lemma filter_true {A} (l : list A) : filter (fun _ => true) l = l.
Proof. induction l; simpl; congruence. Qed.

Lemma filter_all {A} (f : A -> bool) (l : list A) :
  (forall a, In a l -> f a = true) -> filter f l = l.
Proof.
  induction l as [|a l IH]; simpl; intros H; [reflexivity|].
  rewrite (H a (or_introl eq_refl)). f_equal. apply IH. auto.
Qed.

Lemma filter_none {A} (f : A -> bool) (l : list A) :
  (forall a, In a l -> f a = false) -> filter f l = [].
Proof.
  induction l as [|a l IH]; simpl; intros H; [reflexivity|].
  rewrite (H a (or_introl eq_refl)). apply IH. auto.
Qed.

Lemma filter_map {A B} (P : B -> bool) (g : A -> B) (l : list A) :
  filter P (map g l) = map g (filter (fun a => P (g a)) l).
Proof.
  induction l as [|a l IH]; simpl; [reflexivity|].
  destruct (P (g a)); simpl; now rewrite IH.
Qed.

Lemma In_firstn {A} n (l : list A) a : In a (firstn n l) -> In a l.
Proof.
  intros H. rewrite <- (firstn_skipn n l). apply in_or_app. now left.
Qed.

Lemma StronglySorted_weaken {A} (R S : A -> A -> Prop) (l : list A) :
  (forall a b, R a b -> S a b) -> StronglySorted R l -> StronglySorted S l.
Proof.
  intros RS. induction 1 as [|a l H IH Ha]; constructor; [exact IH|].
  eapply Forall_impl; [|exact Ha]. intros b. apply RS.
Qed.

Lemma StronglySorted_weaken_in {A} (R S : A -> A -> Prop) (l : list A) :
  (forall a b, In a l -> In b l -> R a b -> S a b) ->
  StronglySorted R l -> StronglySorted S l.
Proof.
  intros H SS. induction SS as [|a l SS IH Ha]; constructor.
  - apply IH. intros b c Hb Hc. apply H; now right.
  - rewrite Forall_forall in *. intros b Hb.
    apply H; [now left|now right|now apply Ha].
Qed.

Lemma StronglySorted_firstn {A} (R : A -> A -> Prop) n (l : list A) :
  StronglySorted R l -> StronglySorted R (firstn n l).
Proof.
  intros H. revert n. induction H as [|a l H IH Ha]; intros [|n]; simpl;
    try constructor.
  - apply IH.
  - rewrite Forall_forall in *. intros b Hb. apply Ha.
    eapply In_firstn; eauto.
Qed.

End ListFacts.

(** ** Array.prototype.sort *)

Module SortFacts.
Import JS.

Section Sort.
Context {A : Type}.
Variable cmp : A -> A -> comparison.

Lemma insertBy_perm x l : Permutation (insertBy cmp x l) (x :: l).
Proof.
  induction l as [|y l IH]; simpl; [reflexivity|].
  destruct (cmp x y); try reflexivity.
  rewrite IH. apply perm_swap.
Qed.

Lemma sort_perm l : Permutation (sort cmp l) l.
Proof.
  induction l as [|x l IH]; simpl; [reflexivity|].
  unfold sort in *. simpl. rewrite insertBy_perm. now constructor.
Qed.

Lemma sort_In x l : In x (sort cmp l) <-> In x l.
Proof.
  split; apply Permutation_in; [|symmetry]; apply sort_perm.
Qed.

(** An element that no [P]-element may precede is inserted in front
    of all of them: the sort never swaps two elements of a class of
    ties. *)
Lemma filter_insertBy (P : A -> bool) x l :
  (P x = true -> forall y, In y l -> P y = true -> cmp x y <> Gt) ->
  filter P (insertBy cmp x l) = filter P (x :: l).
Proof.
  induction l as [|y l IH]; intros H; [reflexivity|].
  cbn [insertBy].
  destruct (cmp x y) eqn:E; try reflexivity.
  cbn [filter]. rewrite IH.
  - cbn [filter]. destruct (P x) eqn:Px; [|reflexivity].
    destruct (P y) eqn:Py; [|reflexivity].
    exfalso. apply (H eq_refl y); simpl; auto.
  - intros Px z Hz. apply H; simpl; auto.
Qed.

Lemma sort_stable (P : A -> bool) l :
  (forall a b, P a = true -> P b = true -> cmp a b <> Gt) ->
  filter P (sort cmp l) = filter P l.
Proof.
  intros H. induction l as [|x l IH]; [reflexivity|].
  change (sort cmp (x :: l)) with (insertBy cmp x (sort cmp l)).
  rewrite filter_insertBy by (intros; now apply H).
  simpl. now rewrite IH.
Qed.

Hypothesis total : forall a b, cmp a b = Gt -> cmp b a <> Gt.
Hypothesis trans : forall a b c, le cmp a b -> le cmp b c -> le cmp a c.

Lemma insertBy_sorted x l :
  StronglySorted (le cmp) l -> StronglySorted (le cmp) (insertBy cmp x l).
Proof.
  induction 1 as [|y l H IH Hy]; simpl.
  - repeat constructor.
  - assert (S : StronglySorted (le cmp) (y :: l)) by now constructor.
    destruct (cmp x y) eqn:E.
    + constructor; [exact S|]. constructor; [unfold le; congruence|].
      rewrite Forall_forall in *. intros z Hz.
      apply (trans x y z); [unfold le; congruence|now apply Hy].
    + constructor; [exact S|]. constructor; [unfold le; congruence|].
      rewrite Forall_forall in *. intros z Hz.
      apply (trans x y z); [unfold le; congruence|now apply Hy].
    + constructor; [exact IH|].
      rewrite Forall_forall in *. intros z Hz.
      apply (Permutation_in _ (insertBy_perm x l)) in Hz.
      destruct Hz as [<-|Hz]; [now apply total|now apply Hy].
Qed.

Lemma sort_sorted l : StronglySorted (le cmp) (sort cmp l).
Proof.
  induction l as [|x l IH]; [constructor|].
  change (sort cmp (x :: l)) with (insertBy cmp x (sort cmp l)).
  now apply insertBy_sorted.
Qed.
End Sort.

(** Comparators that agree on the elements of an array sort it alike. *)
Lemma insertBy_ext_in {A} (cmp cmp' : A -> A -> comparison) x l :
  (forall y, In y l -> cmp x y = cmp' x y) ->
  insertBy cmp x l = insertBy cmp' x l.
Proof.
  induction l as [|y l IH]; intros H; [reflexivity|].
  cbn [insertBy]. rewrite <- (H y) by now left.
  destruct (cmp x y); try reflexivity.
  f_equal. apply IH. intros z Hz. apply H. now right.
Qed.

Lemma sort_ext_in {A} (cmp cmp' : A -> A -> comparison) l :
  (forall a b, In a l -> In b l -> cmp a b = cmp' a b) ->
  sort cmp l = sort cmp' l.
Proof.
  induction l as [|x l IH]; intros H; [reflexivity|].
  change (sort cmp (x :: l)) with (insertBy cmp x (sort cmp l)).
  change (sort cmp' (x :: l)) with (insertBy cmp' x (sort cmp' l)).
  rewrite <- IH by (intros a b Ha Hb; apply H; now right).
  apply insertBy_ext_in. intros y Hy. apply sort_In in Hy.
  apply H; [now left|now right].
Qed.

(** Comparators that are the sign of a difference of keys. *)
Lemma signZ_le (a b : Z) : signZ (a - b) <> Gt <-> (a <= b)%Z.
Proof.
  unfold signZ. rewrite Z.compare_gt_iff. lia.
Qed.

Lemma sort_by_Z_desc {A} (k : A -> Z) (l : list A) :
  StronglySorted (fun a b => (k b <= k a)%Z)
                 (sort (fun a b => signZ (k b - k a)) l).
Proof.
  apply (ListFacts.StronglySorted_weaken
           (le (fun a b => signZ (k b - k a)))).
  - intros a b. apply signZ_le.
  - apply sort_sorted.
    + intros a b H. apply signZ_le. apply Z.compare_gt_iff in H. lia.
    + unfold le. intros a b c. rewrite !signZ_le. lia.
Qed.

(** A comparator that compares integer keys, on the elements of the
    array at least, sorts by the keys. *)
Lemma sort_by_key {A} (k : A -> Z) (cmp : A -> A -> comparison) l :
  (forall a b, In a l -> In b l -> cmp a b = (k a ?= k b)%Z) ->
  StronglySorted (fun a b => (k a <= k b)%Z) (sort cmp l).
Proof.
  intros H. rewrite (sort_ext_in cmp (fun a b => (k a ?= k b)%Z)) by exact H.
  apply (ListFacts.StronglySorted_weaken
           (le (fun a b => (k a ?= k b)%Z))).
  - intros a b L. unfold le in L. apply Z.compare_le_iff. exact L.
  - apply sort_sorted.
    + intros a b G. apply Z.compare_gt_iff in G.
      intros G'. apply Z.compare_gt_iff in G'. lia.
    + unfold le. intros a b c.
      rewrite !Z.compare_le_iff. lia.
Qed.

End SortFacts.

(** ** Map and Set *)

Module MapFacts.
Import JS.

Lemma has_In s v : has s v = true <-> In v s.
Proof.
  unfold has. rewrite existsb_exists. split.
  - intros (w & Hw & E). apply String.eqb_eq in E. now subst w.
  - intros H. exists v. split; [exact H|apply String.eqb_refl].
Qed.

Lemma has_false s v : has s v = false <-> ~ In v s.
Proof.
  rewrite <- has_In. destruct (has s v); split; congruence.
Qed.

Section Map.
Context {V : Type}.
Implicit Types (m : Map V) (k : string) (v : V).

Lemma get_set_same m k v : get (set m k v) k = Some v.
Proof.
  induction m as [|[k' v'] m IH]; simpl.
  - now rewrite String.eqb_refl.
  - destruct (String.eqb k k') eqn:E; simpl; rewrite E; auto.
Qed.

Lemma get_set_other m k k' v :
  k' <> k -> get (set m k v) k' = get m k'.
Proof.
  intros N. induction m as [|[k0 v0] m IH]; simpl.
  - apply String.eqb_neq in N. now rewrite N.
  - destruct (String.eqb k k0) eqn:E; simpl.
    + apply String.eqb_eq in E. subst k0.
      apply String.eqb_neq in N. now rewrite N.
    + now rewrite IH.
Qed.

Lemma In_get m k v :
  NoDup (map fst m) -> In (k, v) m -> get m k = Some v.
Proof.
  induction m as [|[k' v'] m IH]; simpl; [tauto|].
  intros ND [E|H].
  - injection E as -> ->. now rewrite String.eqb_refl.
  - inversion_clear ND as [|? ? Hk ND'].
    destruct (String.eqb k k') eqn:E.
    + apply String.eqb_eq in E. subst k'. exfalso. apply Hk.
      apply in_map_iff. now exists (k, v).
    + auto.
Qed.

Lemma keys_set m k v : map fst (set m k v) = add (map fst m) k.
Proof.
  unfold add. induction m as [|[k' v'] m IH]; simpl; [reflexivity|].
  destruct (String.eqb k k') eqn:E; simpl; [reflexivity|].
  rewrite IH. unfold has. now destruct (existsb _ _).
Qed.

(** A map without repeated keys is its keys with their values. *)
Lemma map_by_keys m (g : string -> V) :
  NoDup (map fst m) ->
  (forall k, In k (map fst m) -> get m k = Some (g k)) ->
  m = map (fun k => (k, g k)) (map fst m).
Proof.
  induction m as [|[k v] m IH]; simpl; intros ND H; [reflexivity|].
  inversion_clear ND as [|? ? Hk ND'].
  f_equal.
  - specialize (H k (or_introl eq_refl)).
    rewrite String.eqb_refl in H. congruence.
  - apply IH; [exact ND'|]. intros k' Hk'.
    specialize (H k' (or_intror Hk')).
    destruct (String.eqb k' k) eqn:E; [|exact H].
    apply String.eqb_eq in E. now subst k'.
Qed.
End Map.



(** Adding the elements of [l] one by one puts the new ones behind,
    each where it first occurs in [l]. *)
Lemma fold_add l : forall acc,
  fold_left add l acc
  = acc ++ filter (fun k => negb (has acc k)) (distinctInOrder l).
Proof.
  induction l as [|k l IH]; intros acc; simpl.
  - now rewrite app_nil_r.
  - rewrite IH. unfold add. destruct (has acc k) eqn:E; simpl.
    + f_equal. rewrite ListFacts.filter_filter_and.
      apply filter_ext_in. intros a _.
      destruct (String.eqb a k) eqn:Ea; simpl; [|reflexivity].
      apply String.eqb_eq in Ea. subst a. now rewrite E.
    + rewrite <- app_assoc. simpl. do 2 f_equal.
      rewrite ListFacts.filter_filter_and.
      apply filter_ext. intros a.
      unfold has. rewrite existsb_app. simpl.
      rewrite orb_false_r, negb_orb. apply andb_comm.
Qed.

Lemma distinctInOrder_In l k : In k (distinctInOrder l) <-> In k l.
Proof.
  induction l as [|a l IH]; simpl; [tauto|].
  rewrite filter_In, IH, negb_true_iff, String.eqb_neq.
  destruct (string_dec a k); intuition congruence.
Qed.

Lemma newSet_distinct l : newSet l = distinctInOrder l.
Proof.
  unfold newSet. rewrite fold_add. apply ListFacts.filter_true.
Qed.

Lemma has_newSet l v : has (newSet l) v = true <-> In v l.
Proof.
  rewrite has_In, newSet_distinct. apply distinctInOrder_In.
Qed.

Lemma distinctInOrder_NoDup l : NoDup (distinctInOrder l).
Proof.
  induction l as [|a l IH]; simpl; constructor.
  - rewrite filter_In, negb_true_iff, String.eqb_neq. tauto.
  - now apply NoDup_filter.
Qed.

Lemma valueOf_absent {X V} (key : X -> string) upd k (o : option V) l :
  ~ In k (map key l) -> valueOf key upd k o l = o.
Proof.
  revert o. induction l as [|a l IH]; intros o H; simpl; [reflexivity|].
  simpl in H. destruct (String.eqb k (key a)) eqn:E.
  - apply String.eqb_eq in E. exfalso. apply H. now left.
  - apply IH. tauto.
Qed.

Section Accumulate.
Context {X V : Type}.
Variables (key : X -> string) (upd : option V -> X -> V).

Lemma get_accumulate l : forall m k,
  get (accumulate key upd l m) k = valueOf key upd k (get m k) l.
Proof.
  induction l as [|x l IH]; intros m k; simpl; [reflexivity|].
  unfold accumulate in *. simpl. rewrite IH. unfold accStep.
  destruct (String.eqb k (key x)) eqn:E.
  - apply String.eqb_eq in E. subst k. now rewrite get_set_same.
  - apply String.eqb_neq in E. now rewrite get_set_other.
Qed.

Lemma keys_accumulate l : forall m,
  map fst (accumulate key upd l m)
  = fold_left add (map key l) (map fst m).
Proof.
  induction l as [|x l IH]; intros m; simpl; [reflexivity|].
  unfold accumulate in *. simpl. rewrite IH. unfold accStep.
  now rewrite keys_set.
Qed.

Lemma keys_accumulate_nil l :
  map fst (accumulate key upd l []) = distinctInOrder (map key l).
Proof.
  rewrite keys_accumulate, fold_add. simpl. apply ListFacts.filter_true.
Qed.

(** The whole map such a loop builds from the empty one. *)
Lemma accumulate_nil l (g : string -> V) :
  (forall k, In k (map key l) ->
             valueOf key upd k None l = Some (g k)) ->
  accumulate key upd l []
  = map (fun k => (k, g k)) (distinctInOrder (map key l)).
Proof.
  intros H. rewrite <- keys_accumulate_nil.
  apply map_by_keys.
  - rewrite keys_accumulate_nil. apply distinctInOrder_NoDup.
  - intros k Hk. rewrite keys_accumulate_nil in Hk.
    rewrite distinctInOrder_In in Hk.
    rewrite get_accumulate. apply H. exact Hk.
Qed.
End Accumulate.

End MapFacts.

(** ** IEEE 754 doubles

    What the theorems need of the arithmetic of doubles, from the
    specification of the primitive operations: the sign of a
    difference, the order of the numbers, and the numbers that are not
    NaN. *)

Module FloatFacts.
Import SpecFloat FloatOps FloatAxioms NumOrder.
Local Open Scope Z_scope.

(** The number of binary digits of a mantissa. *)
Lemma digits2_pos_bounds m :
  2 ^ (Zpos (digits2_pos m) - 1) <= Zpos m < 2 ^ Zpos (digits2_pos m).
Proof.
  induction m as [m IH|m IH|]; cbn [digits2_pos].
  - rewrite Pos2Z.inj_succ.
    replace (Z.succ (Zpos (digits2_pos m)) - 1)
      with (Z.succ (Zpos (digits2_pos m) - 1)) by lia.
    rewrite !Z.pow_succ_r by lia. lia.
  - rewrite Pos2Z.inj_succ.
    replace (Z.succ (Zpos (digits2_pos m)) - 1)
      with (Z.succ (Zpos (digits2_pos m) - 1)) by lia.
    rewrite !Z.pow_succ_r by lia. lia.
  - simpl. lia.
Qed.

(** Shifting a mantissa to the left multiplies it by a power of 2. *)
Lemma iter_xO m d : Zpos (Pos.iter xO m d) = Zpos m * 2 ^ Zpos d.
Proof.
  induction d as [|d IH] using Pos.peano_ind.
  - simpl. lia.
  - rewrite Pos.iter_succ, Pos2Z.inj_succ, Z.pow_succ_r by lia.
    rewrite Pos2Z.inj_xO, IH. lia.
Qed.

Lemma shl_align_value m e e' :
  e' <= e ->
  Zpos (fst (shl_align m e e')) = Zpos m * 2 ^ (e - e')
  /\ snd (shl_align m e e') = e'.
Proof.
  intros L. unfold shl_align.
  destruct (e' - e) as [|d|d] eqn:E; try lia.
  - assert (e = e') by lia. subst. rewrite Z.sub_diag. simpl. lia.
  - cbn [fst snd]. rewrite iter_xO. split; [|reflexivity].
    f_equal. f_equal. lia.
Qed.

(** Shifting to the right keeps what is not negative so, halving it. *)
Lemma shr_1_m r :
  0 <= shr_m r -> shr_m (shr_1 r) = shr_m r / 2.
Proof.
  destruct r as [m r s]. cbn [shr_m]. intros H.
  destruct m as [|[p|p|]|p]; cbn [shr_1 shr_m]; try lia.
  - reflexivity.
  - rewrite Pos2Z.inj_xI. apply (Z.div_unique _ 2 _ 1); lia.
  - rewrite Pos2Z.inj_xO. apply (Z.div_unique _ 2 _ 0); lia.
  - reflexivity.
Qed.

Lemma iter_shr_1_m n : forall r,
  0 <= shr_m r ->
  shr_m (iter_pos shr_1 n r) = shr_m r / 2 ^ Zpos n.
Proof.
  induction n as [n IH|n IH|]; intros r H; cbn [iter_pos].
  - assert (H1 : 0 <= shr_m (shr_1 r)).
    { rewrite shr_1_m by exact H. apply Z.div_pos; lia. }
    assert (H2 : 0 <= shr_m (iter_pos shr_1 n (shr_1 r))).
    { rewrite IH by exact H1. apply Z.div_pos; [exact H1|].
      apply Z.pow_pos_nonneg; lia. }
    rewrite IH by exact H2. rewrite IH by exact H1.
    rewrite shr_1_m by exact H.
    rewrite !Z.div_div by (try apply Z.pow_pos_nonneg; lia).
    f_equal.
    replace (Zpos n~1) with (1 + Zpos n + Zpos n) by lia.
    rewrite !Z.pow_add_r by lia. rewrite Z.pow_1_r. ring.
  - assert (H2 : 0 <= shr_m (iter_pos shr_1 n r)).
    { rewrite IH by exact H. apply Z.div_pos; [exact H|].
      apply Z.pow_pos_nonneg; lia. }
    rewrite IH by exact H2. rewrite IH by exact H.
    rewrite !Z.div_div by (try apply Z.pow_pos_nonneg; lia).
    f_equal. 
    replace (Zpos n~0) with (Zpos n + Zpos n) by lia.
    rewrite !Z.pow_add_r by lia. ring.
  - rewrite shr_1_m by exact H. reflexivity.
Qed.

Lemma shr_record_of_loc_m m l : shr_m (shr_record_of_loc m l) = m.
Proof. destruct l as [|[]]; reflexivity. Qed.



Lemma fexp_ge e : (-1074) <= fexp prec emax e.
Proof. unfold fexp, SpecFloat.emin, prec, emax. lia. Qed.

(** Rounding a positive mantissa whose exponent is not below the
    least one leaves a positive mantissa. *)
Lemma shr_fexp_pos m e l :
  (-1074) <= e ->
  0 < shr_m (fst (shr_fexp prec emax (Zpos m) e l))
  /\ (-1074) <= snd (shr_fexp prec emax (Zpos m) e l).
Proof.
  intros L. unfold shr_fexp, shr. cbn [Zdigits2].
  set (d := Zpos (digits2_pos m)).
  destruct (fexp prec emax (d + e) - e) as [|n|n] eqn:E; cbn [fst snd];
    rewrite ?shr_record_of_loc_m; try lia.
  rewrite iter_shr_1_m by (rewrite shr_record_of_loc_m; lia).
  rewrite shr_record_of_loc_m. split; [|lia].
  assert (N : Zpos n <= d - 1).
  { unfold fexp, SpecFloat.emin, prec, emax in E. lia. }
  assert (B := digits2_pos_bounds m). fold d in B.
  apply Z.div_str_pos. split; [apply Z.pow_pos_nonneg; lia|].
  etransitivity; [|apply B]. apply Z.pow_le_mono_r; lia.
Qed.

Lemma round_nearest_even_pos m l : 0 < m -> 0 < round_nearest_even m l.
Proof.
  intros H. unfold round_nearest_even.
  destruct l as [|[]]; try destruct (Z.even m); lia.
Qed.

Lemma binary_round_aux_sign s m e l :
  (-1074) <= e ->
  signOf (binary_round_aux prec emax s (Zpos m) e l) = signed s.
Proof.
  intros L. unfold binary_round_aux.
  destruct (shr_fexp_pos m e l L) as [P1 L1].
  destruct (shr_fexp prec emax (Zpos m) e l) as [r1 e1]. cbn [fst snd] in *.
  assert (P2 := round_nearest_even_pos _ (loc_of_shr_record r1) P1).
  destruct (round_nearest_even (shr_m r1) (loc_of_shr_record r1))
    as [|m2|m2]; try lia.
  destruct (shr_fexp_pos m2 e1 loc_Exact L1) as [P3 _].
  destruct (shr_fexp prec emax (Zpos m2) e1 loc_Exact) as [r3 e3].
  cbn [fst snd] in *.
  destruct (shr_m r3) as [|m3|m3]; try lia.
  destruct (e3 <=? emax - prec); destruct s; reflexivity.
Qed.

Lemma binary_round_sign s m e :
  (-1074) <= e ->
  signOf (binary_round prec emax s m e) = signed s.
Proof.
  intros L. unfold binary_round.
  destruct (shl_align m e (fexp prec emax (Zpos (digits2_pos m) + e)))
    as [mz ez] eqn:E.
  apply binary_round_aux_sign.
  assert (F := fexp_ge (Zpos (digits2_pos m) + e)).
  unfold shl_align in E.
  destruct (fexp prec emax (Zpos (digits2_pos m) + e) - e);
    injection E as <- <-; [exact L|exact L|exact F].
Qed.

Lemma binary_normalize_sign m e :
  (-1074) <= e ->
  signOf (binary_normalize prec emax m e false) = (m ?= 0).
Proof.
  intros L. destruct m as [|m|m]; cbn [binary_normalize].
  - reflexivity.
  - now rewrite binary_round_sign.
  - now rewrite binary_round_sign.
Qed.


(** *** Numbers in order

    A valid number other than NaN is placed on the integers by [key]:
    the comparison of two numbers is the comparison of their keys. *)

Lemma mul_compare_mono_r p n m :
  0 < p -> (n * p ?= m * p) = (n ?= m).
Proof. intros H. symmetry. apply Zmult_compare_compat_r. lia. Qed.

Lemma bounded_finite m e :
  bounded prec emax m e = true ->
  (-1074) <= e <= 971
  /\ Zpos m < 2 ^ 53
  /\ ((-1074) < e -> 2 ^ 52 <= Zpos m).
Proof.
  unfold bounded, canonical_mantissa, fexp, SpecFloat.emin, prec, emax.
  intros H. apply andb_true_iff in H as (C & B).
  apply Z.eqb_eq in C. apply Z.leb_le in B.
  assert (D := digits2_pos_bounds m).
  set (d := Zpos (digits2_pos m)) in *.
  split; [lia|]. split.
  - apply (Z.lt_le_trans _ (2 ^ d)); [lia|].
    apply Z.pow_le_mono_r; lia.
  - intros L. assert (d = 53) by lia.
    replace 52 with (d - 1) by lia. lia.
Qed.

Lemma key_finite m e :
  bounded prec emax m e = true ->
  0 < Zpos m * 2 ^ (e - (-1074)) < top.
Proof.
  intros B. apply bounded_finite in B as (E & M & _).
  assert (P : 0 < 2 ^ (e - (-1074))) by (apply Z.pow_pos_nonneg; lia).
  split; [lia|].
  apply (Z.lt_le_trans _ (2 ^ 53 * 2 ^ (e - (-1074)))).
  - apply Z.mul_lt_mono_pos_r; assumption.
  - unfold top. rewrite <- Z.pow_add_r by lia.
    apply Z.pow_le_mono_r; lia.
Qed.

Lemma top_pos : 0 < top.
Proof. unfold top. apply Z.pow_pos_nonneg; lia. Qed.

(** Of two valid mantissas, the one with the lesser exponent is the
    lesser number. *)
Lemma lesser_exponent m1 e1 m2 e2 :
  bounded prec emax m1 e1 = true ->
  bounded prec emax m2 e2 = true ->
  e1 < e2 ->
  Zpos m1 * 2 ^ (e1 - (-1074)) < Zpos m2 * 2 ^ (e2 - (-1074)).
Proof.
  intros B1 B2 L.
  apply bounded_finite in B1 as (E1 & M1 & _).
  apply bounded_finite in B2 as (E2 & _ & M2).
  assert (N2 : 2 ^ 52 <= Zpos m2) by (apply M2; lia).
  replace (e2 - (-1074)) with ((e1 - (-1074)) + 1 + (e2 - e1 - 1)) by lia.
  rewrite !Z.pow_add_r by lia.
  assert (P : 0 < 2 ^ (e1 - (-1074))) by (apply Z.pow_pos_nonneg; lia).
  assert (K : 0 < 2 ^ (e2 - e1 - 1)) by (apply Z.pow_pos_nonneg; lia).
  change (2 ^ 1) with 2.
  change (2 ^ 53) with (2 * 2 ^ 52) in M1.
  set (p := 2 ^ (e1 - (-1074))) in *. set (k := 2 ^ (e2 - e1 - 1)) in *.
  set (h := 2 ^ 52) in *.
  apply (Z.lt_le_trans _ (2 * h * p)).
  - apply Z.mul_lt_mono_pos_r; assumption.
  - apply (Z.le_trans _ (Zpos m2 * (p * 2))); [nia|].
    apply Z.mul_le_mono_nonneg_l; [lia|]. nia.
Qed.

Lemma compare_key x y :
  valid_binary x = true -> valid_binary y = true ->
  isNumber x = true -> isNumber y = true ->
  SFcompare x y = Some (key x ?= key y).
Proof.
  intros Vx Vy Nx Ny. assert (T := top_pos).
  destruct x as [sx|sx| |sx mx ex]; try discriminate;
    destruct y as [sy|sy| |sy my ey]; try discriminate;
    cbn [valid_binary] in Vx, Vy;
    try (assert (Kx := key_finite mx ex Vx));
    try (assert (Ky := key_finite my ey Vy));
    cbn [SFcompare key]; f_equal; symmetry;
    try (destruct sx); try (destruct sy); cbn [cond_Zopp];
    try (apply Z.compare_eq_iff; lia);
    try (apply Z.compare_lt_iff; lia);
    try (apply Z.compare_gt_iff; lia).
  - rewrite Z.compare_opp.
    destruct (Z.compare_spec ex ey) as [->|L|L].
    + rewrite mul_compare_mono_r by (apply Z.pow_pos_nonneg;
        apply bounded_finite in Vy; lia).
      cbn [Z.compare]. apply Pos.compare_antisym.
    + apply Z.compare_gt_iff. now apply lesser_exponent.
    + apply Z.compare_lt_iff. now apply lesser_exponent.
  - destruct (Z.compare_spec ex ey) as [->|L|L].
    + rewrite mul_compare_mono_r by (apply Z.pow_pos_nonneg;
        apply bounded_finite in Vy; lia).
      reflexivity.
    + apply Z.compare_lt_iff. now apply lesser_exponent.
    + apply Z.compare_gt_iff. now apply lesser_exponent.
Qed.

(** The sign of a difference is the comparison of the two numbers:
    a difference other than zero does not round to zero. *)
Lemma sub_sign x y :
  valid_binary x = true -> valid_binary y = true ->
  isNumber x = true -> isNumber y = true ->
  signOf (SFsub prec emax x y) = (key x ?= key y).
Proof.
  intros Vx Vy Nx Ny. assert (T := top_pos).
  destruct x as [sx|sx| |sx mx ex]; try discriminate;
    destruct y as [sy|sy| |sy my ey]; try discriminate;
    cbn [valid_binary] in Vx, Vy;
    try (assert (Kx := key_finite mx ex Vx));
    try (assert (Ky := key_finite my ey Vy));
    cbn [SFsub key].
  9: {
    assert (Ex := bounded_finite _ _ Vx). assert (Ey := bounded_finite _ _ Vy).
    set (ez := Z.min ex ey).
    rewrite binary_normalize_sign by (unfold ez; lia).
    destruct (shl_align_value mx ex ez) as [-> _]; [unfold ez; lia|].
    destruct (shl_align_value my ey ez) as [-> _]; [unfold ez; lia|].
    assert (Q : 0 < 2 ^ (ez - (-1074)))
      by (apply Z.pow_pos_nonneg; unfold ez; lia).
    assert (Hx : cond_Zopp sx (Zpos mx * 2 ^ (ex - (-1074)))
                 = cond_Zopp sx (Zpos mx * 2 ^ (ex - ez)) * 2 ^ (ez - (-1074))).
    { replace (ex - (-1074)) with ((ex - ez) + (ez - (-1074))) by lia.
      rewrite Z.pow_add_r by (unfold ez; lia).
      destruct sx; cbn [cond_Zopp]; ring. }
    assert (Hy : cond_Zopp sy (Zpos my * 2 ^ (ey - (-1074)))
                 = cond_Zopp sy (Zpos my * 2 ^ (ey - ez)) * 2 ^ (ez - (-1074))).
    { replace (ey - (-1074)) with ((ey - ez) + (ez - (-1074))) by lia.
      rewrite Z.pow_add_r by (unfold ez; lia).
      destruct sy; cbn [cond_Zopp]; ring. }
    rewrite Hx, Hy, mul_compare_mono_r by exact Q.
    symmetry. apply Z.compare_sub. }
  all: try (destruct sx); try (destruct sy); cbn [cond_Zopp negb];
    unfold signOf; cbn [SFcompare]; symmetry;
    try (apply Z.compare_eq_iff; lia);
    try (apply Z.compare_lt_iff; lia);
    try (apply Z.compare_gt_iff; lia).
Qed.

(** *** The same, of the numbers of the machine *)

Lemma is_nan_isNumber v :
  PrimFloat.is_nan v = negb (isNumber (Prim2SF v)).
Proof.
  unfold PrimFloat.is_nan. rewrite eqb_spec. unfold SFeqb.
  destruct (isNumber (Prim2SF v)) eqn:N.
  - rewrite compare_key by (try apply Prim2SF_valid; exact N).
    now rewrite Z.compare_refl.
  - destruct (Prim2SF v); try discriminate. reflexivity.
Qed.

Lemma number_isNumber v :
  PrimFloat.is_nan v = false -> isNumber (Prim2SF v) = true.
Proof.
  rewrite is_nan_isNumber. now destruct (isNumber (Prim2SF v)).
Qed.

Lemma compare_keys a b :
  PrimFloat.is_nan a = false -> PrimFloat.is_nan b = false ->
  PrimFloat.compare a b = flat (keyOf a ?= keyOf b).
Proof.
  intros Na Nb. rewrite compare_spec.
  rewrite compare_key
    by (try apply Prim2SF_valid; now apply number_isNumber).
  unfold keyOf. now destruct (_ ?= _).
Qed.

Lemma leb_keys a b :
  PrimFloat.is_nan a = false -> PrimFloat.is_nan b = false ->
  PrimFloat.leb a b = true <-> keyOf a <= keyOf b.
Proof.
  intros Na Nb. rewrite leb_spec. unfold SFleb.
  rewrite compare_key
    by (try apply Prim2SF_valid; now apply number_isNumber).
  unfold keyOf, Z.le. destruct (_ ?= _); split; congruence.
Qed.

Lemma ltb_keys a b :
  PrimFloat.is_nan a = false -> PrimFloat.is_nan b = false ->
  PrimFloat.ltb a b = true <-> keyOf a < keyOf b.
Proof.
  intros Na Nb. rewrite ltb_spec. unfold SFltb.
  rewrite compare_key
    by (try apply Prim2SF_valid; now apply number_isNumber).
  unfold keyOf, Z.lt. destruct (_ ?= _); split; congruence.
Qed.

Lemma eqb_keys a b :
  PrimFloat.is_nan a = false -> PrimFloat.is_nan b = false ->
  PrimFloat.eqb a b = true <-> keyOf a = keyOf b.
Proof.
  intros Na Nb. rewrite eqb_spec. unfold SFeqb.
  rewrite compare_key
    by (try apply Prim2SF_valid; now apply number_isNumber).
  unfold keyOf. rewrite <- Z.compare_eq_iff.
  destruct (_ ?= _); split; congruence.
Qed.

(** A comparison that holds is a comparison of numbers. *)
Lemma leb_numbers a b :
  PrimFloat.leb a b = true ->
  PrimFloat.is_nan a = false /\ PrimFloat.is_nan b = false.
Proof.
  rewrite leb_spec, !is_nan_isNumber. unfold SFleb.
  destruct (Prim2SF a), (Prim2SF b); cbn; intros H;
    try discriminate; now split.
Qed.

Lemma ltb_numbers a b :
  PrimFloat.ltb a b = true ->
  PrimFloat.is_nan a = false /\ PrimFloat.is_nan b = false.
Proof.
  rewrite ltb_spec, !is_nan_isNumber. unfold SFltb.
  destruct (Prim2SF a), (Prim2SF b); cbn; intros H;
    try discriminate; now split.
Qed.

Lemma eqb_numbers a b :
  PrimFloat.eqb a b = true ->
  PrimFloat.is_nan a = false /\ PrimFloat.is_nan b = false.
Proof.
  rewrite eqb_spec, !is_nan_isNumber. unfold SFeqb.
  destruct (Prim2SF a), (Prim2SF b); cbn; intros H;
    try discriminate; now split.
Qed.


(** What [Array.prototype.sort] reads off a difference of two numbers
    is their comparison. *)
Lemma Prim2SF_zero : Prim2SF Num.zero = S754_zero false.
Proof. reflexivity. Qed.

Lemma sign_signOf v : Num.sign v = signOf (Prim2SF v).
Proof.
  unfold Num.sign, signOf. rewrite compare_spec, Prim2SF_zero.
  now destruct (SFcompare _ _) as [[]|].
Qed.

Lemma sign_sub a b :
  PrimFloat.is_nan a = false -> PrimFloat.is_nan b = false ->
  Num.sign (PrimFloat.sub a b) = (keyOf a ?= keyOf b).
Proof.
  intros Na Nb. rewrite sign_signOf, sub_spec.
  apply sub_sign; try apply Prim2SF_valid; now apply number_isNumber.
Qed.

(** *** Numbers that are not NaN *)

Lemma shr_fexp_nonneg m e l :
  0 <= m -> 0 <= shr_m (fst (shr_fexp prec emax m e l)).
Proof.
  intros H. unfold shr_fexp, shr.
  destruct (fexp prec emax (Zdigits2 m + e) - e) as [|n|n]; cbn [fst];
    rewrite ?iter_shr_1_m by (now rewrite shr_record_of_loc_m);
    rewrite shr_record_of_loc_m; try exact H.
  apply Z.div_pos; [exact H|]. apply Z.pow_pos_nonneg; lia.
Qed.

Lemma round_nearest_even_nonneg m l : 0 <= m -> 0 <= round_nearest_even m l.
Proof.
  intros H. unfold round_nearest_even.
  destruct l as [|[]]; try destruct (Z.even m); lia.
Qed.

Lemma binary_round_aux_number s m e l :
  0 <= m ->
  isNumber (binary_round_aux prec emax s m e l) = true
  /\ (s = false ->
      notNegative (binary_round_aux prec emax s m e l) = true).
Proof.
  intros H. unfold binary_round_aux.
  assert (P1 := shr_fexp_nonneg m e l H).
  destruct (shr_fexp prec emax m e l) as [r1 e1]. cbn [fst] in P1.
  assert (P2 := round_nearest_even_nonneg _ (loc_of_shr_record r1) P1).
  assert (P3 := shr_fexp_nonneg _ e1 loc_Exact P2).
  destruct (shr_fexp prec emax _ e1 loc_Exact) as [r3 e3]. cbn [fst] in P3.
  destruct (shr_m r3) as [|m3|m3]; try lia.
  - split; [reflexivity|]. reflexivity.
  - destruct (e3 <=? emax - prec); split; try reflexivity;
      now intros ->.
Qed.

Lemma signOf_number x : signOf x <> Eq -> isNumber x = true.
Proof. destruct x; try reflexivity. intros H. now elim H. Qed.

Lemma signOf_positive x : signOf x = Gt -> notNegative x = true.
Proof.
  destruct x as [s|s| |s m e]; try reflexivity; try discriminate;
    destruct s; try reflexivity; discriminate.
Qed.

Lemma sub_number x y :
  valid_binary x = true -> valid_binary y = true ->
  finite x = true -> finite y = true ->
  isNumber (SFsub prec emax x y) = true.
Proof.
  intros Vx Vy Fx Fy.
  destruct x as [sx|sx| |sx mx ex]; try discriminate;
    destruct y as [sy|sy| |sy my ey]; try discriminate;
    cbn [SFsub]; try reflexivity.
  - destruct sx, sy; reflexivity.
  - cbn [valid_binary] in Vx, Vy.
    apply bounded_finite in Vx as (Ex & _). apply bounded_finite in Vy as (Ey & _).
    set (D := _ - _).
    assert (S := binary_normalize_sign D (Z.min ex ey) ltac:(lia)).
    destruct (Z.compare_spec D 0) as [E|L|L].
    + now rewrite E.
    + apply signOf_number. congruence.
    + apply signOf_number. congruence.
Qed.

Lemma square_notNegative x :
  isNumber x = true -> notNegative (SFmul prec emax x x) = true.
Proof.
  destruct x as [s|s| |s m e]; try discriminate; intros _; cbn [SFmul].
  - reflexivity.
  - now destruct s.
  - apply binary_round_aux_number; [lia|]. now destruct s.
Qed.

Lemma add_notNegative x y :
  valid_binary x = true -> valid_binary y = true ->
  notNegative x = true -> notNegative y = true ->
  notNegative (SFadd prec emax x y) = true.
Proof.
  intros Vx Vy Nx Ny.
  destruct x as [sx|sx| |sx mx ex]; try discriminate;
    destruct y as [sy|sy| |sy my ey]; try discriminate;
    cbn [SFadd]; try assumption; try reflexivity.
  - now destruct sx, sy.
  - destruct sx, sy; try discriminate. reflexivity.
  - cbn [valid_binary] in Vx, Vy.
    apply bounded_finite in Vx as (Ex & _). apply bounded_finite in Vy as (Ey & _).
    destruct sx, sy; try discriminate. cbn [cond_Zopp].
    apply signOf_positive.
    rewrite binary_normalize_sign by lia.
    apply Z.compare_gt_iff. lia.
Qed.

Lemma sqrt_number x :
  notNegative x = true -> isNumber (SFsqrt prec emax x) = true.
Proof.
  destruct x as [s|s| |s m e]; try discriminate; intros N; cbn [SFsqrt].
  - reflexivity.
  - now destruct s.
  - destruct s; [discriminate|].
    unfold SFsqrt_core_binary.
    set (m' := match _ - _ with Z0 => _ | Zpos _ => _ | Zneg _ => _ end).
    assert (Q := Z.sqrtrem_sqrt m').
    destruct (Z.sqrtrem m') as [q r]. cbn [fst] in Q.
    apply binary_round_aux_number. rewrite Q. apply Z.sqrt_nonneg.
Qed.

(** The distance of two points with finite coordinates is a number. *)
Lemma isFinite_finite v : Num.isFinite v = finite (Prim2SF v).
Proof. reflexivity. Qed.

Lemma distance_number px py qx qy :
  Num.isFinite px = true -> Num.isFinite py = true ->
  Num.isFinite qx = true -> Num.isFinite qy = true ->
  PrimFloat.is_nan (DataService.Euclid.distance px py qx qy) = false.
Proof.
  rewrite !isFinite_finite. intros Fpx Fpy Fqx Fqy.
  unfold DataService.Euclid.distance. cbv zeta.
  rewrite is_nan_isNumber, sqrt_spec, add_spec, !mul_spec, !sub_spec.
  apply negb_false_iff, sqrt_number, add_notNegative.
  - rewrite <- !sub_spec, <- mul_spec. apply Prim2SF_valid.
  - rewrite <- !sub_spec, <- mul_spec. apply Prim2SF_valid.
  - apply square_notNegative, sub_number;
      try apply Prim2SF_valid; assumption.
  - apply square_notNegative, sub_number;
      try apply Prim2SF_valid; assumption.
Qed.

End FloatFacts.


(** ** filterPosts *)

Module FilterFacts.
Import JS DataService ListFacts MapFacts.

Lemma stage_filter guard pred (l : list Post) :
  stage guard pred l = filter (fun p => negb guard || pred p) l.
Proof.
  unfold stage. destruct guard; simpl.
  - reflexivity.
  - symmetry. apply filter_true.
Qed.

Lemma filterPosts_filter this f :
  filterPosts this f = filter (satisfies this f) (posts this).
Proof.
  unfold filterPosts. cbv zeta.
  rewrite !stage_filter, !filter_filter_and.
  apply filter_ext. intros p. unfold satisfies.
  rewrite !andb_assoc. reflexivity.
Qed.

Lemma startsWith_app s q :
  startsWith s q = true <-> exists b, s = (q ++ b)%string.
Proof.
  revert s. induction q as [|c q IH]; intros s; simpl.
  - split; [intros _; now exists s|intros _; reflexivity].
  - destruct s as [|d s].
    + split; [discriminate|]. intros (b & E). discriminate.
    + rewrite andb_true_iff, Ascii.eqb_eq, IH. split.
      * intros (-> & b & ->). now exists b.
      * intros (b & E). injection E as -> ->. split; [trivial|now exists b].
Qed.

Lemma includes_Occurs s q : includes s q = true <-> Occurs q s.
Proof.
  unfold Occurs. induction s as [|c s IH].
  - simpl. rewrite orb_false_r, startsWith_app. split.
    + intros (b & E). now exists "", b.
    + intros (a & b & E). destruct a; [now exists b|discriminate].
  - cbn [includes]. rewrite orb_true_iff, startsWith_app, IH. split.
    + intros [(b & E)|(a & b & E)].
      * now exists "", b.
      * exists (String c a), b. simpl. now rewrite E.
    + intros (a & b & E). destruct a as [|d a].
      * left. now exists b.
      * right. exists a, b. simpl in E. now injection E.
Qed.

Lemma nonEmpty_false {A} (l : list A) : nonEmpty l = false <-> l = [].
Proof. destruct l; cbv; split; congruence. Qed.

Lemma truthy_false s : truthy s = false <-> s = "".
Proof. destruct s; simpl; split; congruence. Qed.

Lemma skip_or (guard test : bool) (Skip Test : Prop) :
  (guard = false <-> Skip) -> (test = true <-> Test) ->
  (negb guard || test = true <-> Skip \/ Test).
Proof.
  intros H1 H2. rewrite orb_true_iff, negb_true_iff. tauto.
Qed.

Lemma satisfies_Satisfies this f p :
  satisfies this f p = true <-> Satisfies this f p.
Proof.
  unfold satisfies. rewrite !andb_true_iff.
  rewrite (skip_or _ _ _ _ (nonEmpty_false (submolts f))
                   (has_newSet (submolts f) (submolt_name p))).
  rewrite (skip_or _ _ _ _ (nonEmpty_false (authors f))
                   (has_newSet (authors f) (author_name p))).
  rewrite (skip_or (nonEmpty (tags f)) (hasTag this f p) (tags f = [])
             (exists t, In t (tagsOf this p) /\ In (tag t) (tags f))
             (nonEmpty_false _)).
  2:{ unfold hasTag. rewrite existsb_exists.
      split; intros (t & H1 & H2); exists t; split; trivial;
        now apply has_newSet. }
  rewrite (skip_or (nonEmpty (classNotes f)) (hasClassNote this f p)
             (classNotes f = [])
             (exists n, In n (classNotesOf this p)
                        /\ In (class_note n) (classNotes f))
             (nonEmpty_false _)).
  2:{ unfold hasClassNote. rewrite existsb_exists.
      split; intros (t & H1 & H2); exists t; split; trivial;
        now apply has_newSet. }
  rewrite (skip_or _ (enoughUpvotes f p)
             (minUpvotes (engagement f) <= 0)%Z
             (minUpvotes (engagement f) <= upvotes p)%Z).
  2:{ rewrite Z.ltb_ge. reflexivity. }
  2:{ apply Z.leb_le. }
  rewrite (skip_or _ (enoughComments f p)
             (minComments (engagement f) <= 0)%Z
             (minComments (engagement f) <= comment_count p)%Z).
  2:{ rewrite Z.ltb_ge. reflexivity. }
  2:{ apply Z.leb_le. }
  rewrite (skip_or _ (textMatch f p) (search f = "")
             (Occurs (toLowerCase (search f)) (toLowerCase (title p)) \/
              Occurs (toLowerCase (search f)) (toLowerCase (content p)) \/
              Occurs (toLowerCase (search f)) (toLowerCase (author_name p)))
             (truthy_false _)).
  2:{ unfold textMatch. rewrite !orb_true_iff, !includes_Occurs. tauto. }
  rewrite (skip_or (postIdsActive f) _
             (postIds f = None \/ postIds f = Some [])
             (exists ids, postIds f = Some ids /\ In (post_id p) ids)).
  2:{ unfold postIdsActive. destruct (postIds f) as [[|i ids]|]; cbv;
      split; intros H; auto; try discriminate.
      destruct H; discriminate. }
  2:{ unfold inPostIds. rewrite has_newSet.
      destruct (postIds f) as [ids|]; simpl.
      - split; [intros H; now exists ids|].
        intros (ids' & E & H). congruence.
      - split; [tauto|]. intros (ids' & E & H). discriminate. }
  split.
  - intros [[[[[[[H1 H2] H3] H4] H5] H6] H7] H8].
    constructor; tauto.
  - intros [H1 H2 H3 H4 H5 H6 H7 H8]. tauto.
Qed.

(** C1.  [filterPosts] returns the posts of the corpus that satisfy
    every active predicate, in corpus order: it is the corpus filtered by
    the conjunction [satisfies], which holds of a post exactly when
    [Satisfies] does (community and author membership, one matching tag,
    one matching class note, the two thresholds, the text match, the id
    list), a predicate whose field of the specification is empty counting
    as satisfied.  With the all-empty specification the corpus comes back
    as it is, and on the sample corpus of four posts a minimum of 10
    upvotes leaves [B; C]. *)
Theorem filterPosts_conjunction :
  (forall this f,
      filterPosts this f = filter (satisfies this f) (posts this)
      /\ forall p, satisfies this f p = true <-> Satisfies this f p)
  /\ (forall this, filterPosts this emptyFilters = posts this)
  /\ filterPosts Sample.corpus Sample.minUpvotes10 = [Sample.B; Sample.C].
Proof.
  split.
  - intros this f. split; [apply filterPosts_filter|].
    intros p. apply satisfies_Satisfies.
  - split; reflexivity.
Qed.

(** C8.  Filtering the result of a filter again, with the same
    specification and the same indexes, changes nothing. *)
Theorem filterPosts_idempotent : forall this s,
  filterPosts (withPosts this (filterPosts this s)) s = filterPosts this s.
Proof.
  intros this s.
  rewrite (filterPosts_filter (withPosts this _) s).
  simpl posts. rewrite filterPosts_filter.
  assert (E : forall p,
             satisfies (withPosts this
                          (filter (satisfies this s) (posts this))) s p
             = satisfies this s p) by reflexivity.
  rewrite (filter_ext _ _ E). apply filter_idem.
Qed.

(** C6, as the claim states it, fails: a search string of two spaces
    is blank, yet it is applied as a query, and on the sample corpus it
    matches no post, where the empty search string keeps all four. *)
Lemma blank_search_is_applied :
  trim "  " = ""
  /\ filterPosts Sample.corpus (Sample.searchFor "  ") = []
  /\ filterPosts Sample.corpus (Sample.searchFor "  ")
     <> filterPosts Sample.corpus (Sample.searchFor "").
Proof. split; [reflexivity|]. split; [reflexivity|discriminate]. Qed.

Lemma satisfies_withSearch this f p :
  satisfies this f p
  = satisfies this (withSearch f "") p
    && (negb (truthy (search f)) || textMatch f p).
Proof.
  unfold satisfies, withSearch; simpl.
  unfold inSubmolts, inAuthors, hasTag, hasClassNote, enoughUpvotes,
    enoughComments, postIdsActive; simpl.
  repeat match goal with |- context [negb ?b || ?c] =>
    generalize (negb b || c); intro end.
  repeat match goal with b : bool |- _ => destruct b end; reflexivity.
Qed.

(** C6, amended.  The free-text predicate is skipped exactly when the
    search string is the empty string; any other search string, one made
    of white space included, is applied: the result is the result for the
    empty search string, filtered by a match of the lower-cased query as
    a substring of the lower-cased title, content or author name. *)
Theorem search_skipped_only_when_empty :
  (forall this f,
      filterPosts this f
      = if truthy (search f)
        then filter (textMatch f) (filterPosts this (withSearch f ""))
        else filterPosts this (withSearch f ""))
  /\ (forall q, truthy q = false <-> q = "")
  /\ (forall f p,
        textMatch f p = true <->
        Occurs (toLowerCase (search f)) (toLowerCase (title p)) \/
        Occurs (toLowerCase (search f)) (toLowerCase (content p)) \/
        Occurs (toLowerCase (search f)) (toLowerCase (author_name p))).
Proof.
  split; [|split].
  - intros this f.
    rewrite !filterPosts_filter.
    rewrite (filter_ext _ _ (satisfies_withSearch this f)).
    rewrite <- filter_filter_and.
    destruct (truthy (search f)); simpl; [reflexivity|].
    apply filter_true.
  - apply truthy_false.
  - intros f p. unfold textMatch.
    rewrite !orb_true_iff, !includes_Occurs. tauto.
Qed.

End FilterFacts.

(** ** getTopItems *)

Module TopItemsFacts.
Import JS DataService ListFacts MapFacts SortFacts.

Lemma countStep_accumulate field displayField posts : forall counts displays,
  fold_left (countStep field displayField) posts (counts, displays)
  = (accumulate (getStr field) countUpd posts counts,
     match displayField with
     | Some d => accumulate (getStr field) (fun _ p => getStr d p)
                            posts displays
     | None => displays
     end).
Proof.
  induction posts as [|p posts IH]; intros counts displays; simpl.
  - now destruct displayField.
  - rewrite IH. unfold accumulate. simpl.
    destruct displayField; reflexivity.
Qed.

Lemma occurrences_cons k a keys :
  occurrences k (a :: keys)
  = ((if String.eqb k a then 1 else 0) + occurrences k keys)%Z.
Proof.
  unfold occurrences. simpl.
  destruct (string_dec a k) as [->|N].
  - rewrite String.eqb_refl. lia.
  - assert (E : String.eqb k a = false) by (apply String.eqb_neq; congruence).
    rewrite E. lia.
Qed.

Lemma occurrences_absent k keys : ~ In k keys -> occurrences k keys = 0%Z.
Proof.
  intros H. unfold occurrences.
  now rewrite (proj1 (count_occ_not_In string_dec keys k) H).
Qed.

Lemma valueOf_count (key : Post -> string) k l : forall o,
  In k (map key l) ->
  valueOf key countUpd k o l
  = Some (orZero o + occurrences k (map key l))%Z.
Proof.
  induction l as [|a l IH]; intros o H; [destruct H|].
  cbn [valueOf map]. rewrite occurrences_cons.
  destruct (String.eqb k (key a)) eqn:E.
  - destruct (in_dec string_dec k (map key l)) as [I|I].
    + rewrite IH by exact I. unfold countUpd, orZero, orElse. f_equal; lia.
    + rewrite valueOf_absent by exact I.
      rewrite occurrences_absent by exact I.
      unfold countUpd. f_equal; lia.
  - apply String.eqb_neq in E. destruct H as [H|H]; [congruence|].
    rewrite IH by exact H. f_equal; lia.
Qed.

Lemma counts_tally field posts :
  accumulate (getStr field) countUpd posts []
  = tally (map (getStr field) posts).
Proof.
  apply accumulate_nil. intros k Hk.
  rewrite valueOf_count by exact Hk. reflexivity.
Qed.

(** C7.  [getTopItems] is the first [limit] entries of a ranking that
    holds each distinct key once with the number of its occurrences (it
    is a rearrangement of [tally]), is in descending order of count, and
    keeps entries of equal count in the order their keys are first met
    in the input.  Over the four sample posts, whose authors are
    distinct, the two top authors are the first two met. *)
Theorem getTopItems_ranking :
  (forall posts field limit displayField,
      exists ranked,
        getTopItems posts field limit displayField = firstn limit ranked
        /\ Permutation (map nameCount ranked)
                       (tally (map (getStr field) posts))
        /\ StronglySorted
             (fun a b => (Item.count b <= Item.count a)%Z) ranked
        /\ forall c,
             filter (fun e => (snd e =? c)%Z) (map nameCount ranked)
             = filter (fun e => (snd e =? c)%Z)
                      (tally (map (getStr field) posts)))
  /\ getTopItems [Sample.A; Sample.B; Sample.C; Sample.D]
                 f_author_name 2 None
     = [Item.mk "A" 1 "A"; Item.mk "B" 1 "B"].
Proof.
  split; [|reflexivity].
  intros posts field limit displayField.
  unfold getTopItems. rewrite countStep_accumulate, counts_tally.
  set (displays := match displayField with Some _ => _ | None => _ end).
  set (entries := map _ (tally _)).
  assert (E : map nameCount entries = tally (map (getStr field) posts)).
  { unfold entries. rewrite map_map. unfold nameCount. simpl.
    rewrite <- (map_id (tally _)) at 2. apply map_ext. now intros []. }
  exists (sort byCountDesc entries). repeat split.
  - rewrite <- E. apply Permutation_map, sort_perm.
  - apply (sort_by_Z_desc Item.count).
  - intros c. rewrite <- E, !filter_map. f_equal.
    apply sort_stable. intros a b Ha Hb.
    apply Z.eqb_eq in Ha, Hb. unfold nameCount in Ha, Hb. simpl in Ha, Hb.
    unfold byCountDesc, signZ. rewrite Ha, Hb, Z.sub_diag. discriminate.
Qed.

End TopItemsFacts.

(** ** findDuplicates *)

Module DuplicatesFacts.
Import JS DataService ListFacts MapFacts SortFacts.

Lemma dupStep_accumulate posts : forall groups,
  fold_left dupStep posts groups
  = accumulate normTitle pushUpd (filter longEnough posts) groups.
Proof.
  induction posts as [|p posts IH]; intros groups; [reflexivity|].
  cbn [fold_left filter]. rewrite IH. unfold dupStep, longEnough.
  destruct (String.length (normTitle p) <? 10)%nat; reflexivity.
Qed.

Lemma valueOf_push {X} (key : X -> string) k l : forall o,
  In k (map key l) ->
  valueOf key pushUpd k o l
  = Some (orElse o [] ++ filter (fun x => String.eqb k (key x)) l).
Proof.
  induction l as [|a l IH]; intros o H; [destruct H|].
  cbn [valueOf filter].
  destruct (String.eqb k (key a)) eqn:E.
  - destruct (in_dec string_dec k (map key l)) as [I|I].
    + rewrite IH by exact I. unfold pushUpd. simpl.
      now rewrite <- app_assoc.
    + rewrite valueOf_absent by exact I.
      rewrite filter_none; [reflexivity|].
      intros b Hb. apply String.eqb_neq. intros ->.
      apply I. now apply in_map.
  - apply String.eqb_neq in E. destruct H as [H|H]; [congruence|].
    now apply IH.
Qed.

(** Case folding keeps white space white space and the rest the rest,
    so trimming and case folding commute. *)
Lemma isWhiteSpace_lowerUnit c : isWhiteSpace (lowerUnit c) = isWhiteSpace c.
Proof.
  destruct c as [[] [] [] [] [] [] [] []]; reflexivity.
Qed.

Lemma trimStart_toLowerCase s :
  trimStart (toLowerCase s) = toLowerCase (trimStart s).
Proof.
  induction s as [|c s IH]; [reflexivity|].
  cbn [toLowerCase trimStart]. rewrite isWhiteSpace_lowerUnit.
  destruct (isWhiteSpace c); [exact IH|reflexivity].
Qed.

Lemma trimEnd_toLowerCase s :
  trimEnd (toLowerCase s) = toLowerCase (trimEnd s).
Proof.
  induction s as [|c s IH]; [reflexivity|].
  cbn [toLowerCase trimEnd]. rewrite IH, isWhiteSpace_lowerUnit.
  destruct (trimEnd s) as [|d t]; cbn [toLowerCase].
  - destruct (isWhiteSpace c); reflexivity.
  - reflexivity.
Qed.

Lemma normTitle_normalized p : normTitle p = normalized (title p).
Proof.
  unfold normTitle, normalized, trim.
  now rewrite trimStart_toLowerCase, trimEnd_toLowerCase.
Qed.

Lemma sameTitle_long k posts :
  (10 <= String.length k)%nat ->
  filter (sameTitle k) (filter longEnough posts) = filter (sameTitle k) posts.
Proof.
  intros L. rewrite filter_filter_and. apply filter_ext. intros p.
  unfold sameTitle, longEnough. rewrite <- normTitle_normalized.
  destruct (String.eqb k (normTitle p)) eqn:E; [|apply andb_false_r].
  apply String.eqb_eq in E. subst k.
  apply Nat.ltb_ge in L. now rewrite L.
Qed.

Lemma groups_by_title posts :
  fold_left dupStep posts []
  = map (fun k => (k, filter (sameTitle k) (filter longEnough posts)))
        (distinctInOrder (map normTitle (filter longEnough posts))).
Proof.
  rewrite dupStep_accumulate. apply accumulate_nil. intros k Hk.
  rewrite valueOf_push by exact Hk. simpl. f_equal.
  apply filter_ext. intros p. unfold sameTitle.
  now rewrite normTitle_normalized.
Qed.

Lemma In_groups posts k arr :
  In (k, arr) (fold_left dupStep posts []) <->
  (10 <= String.length k)%nat
  /\ (exists p, In p posts /\ normTitle p = k)
  /\ arr = filter (sameTitle k) posts.
Proof.
  rewrite groups_by_title, in_map_iff. split.
  - intros (k' & E & Hk). injection E as -> <-.
    apply distinctInOrder_In, in_map_iff in Hk as (p & <- & Hp).
    apply filter_In in Hp as (Hp & L).
    unfold longEnough in L. apply negb_true_iff, Nat.ltb_ge in L.
    split; [exact L|]. split; [now exists p|].
    now apply sameTitle_long.
  - intros (L & (p & Hp & <-) & ->). exists (normTitle p). split.
    + now rewrite sameTitle_long.
    + apply distinctInOrder_In, in_map, filter_In. split; [exact Hp|].
      unfold longEnough. now apply negb_true_iff, Nat.ltb_ge.
Qed.

Lemma NoDup_keys_filter {V} (P : string * V -> bool) (m : Map V) :
  NoDup (map fst m) -> NoDup (map fst (filter P m)).
Proof.
  induction m as [|e m IH]; simpl; intros ND; [constructor|].
  inversion_clear ND as [|? ? He ND'].
  destruct (P e); simpl; [|auto]. constructor; [|auto].
  intros H. apply He. apply in_map_iff in H as (e' & E & H).
  apply filter_In in H as (H & _). apply in_map_iff. now exists e'.
Qed.

(** C9.  [findDuplicates] returns the first 20 groups of a ranking in
    which every group is the posts of the input that share one
    normalized title, the title trimmed and case-folded, has a key of
    at least 10 characters and at least two members; every such key has
    its group in the ranking, once; the ranking is in descending order
    of group size.  Hence the result has at most 20 groups, none with a
    key shorter than 10 characters and none of size 1.  Of three posts
    titled [  Hello World! ], [hello world!] and [Another thing], the
    first two are the one group, under the key [hello world!]. *)
Theorem findDuplicates_groups : forall posts,
  (exists ranked,
      findDuplicates posts = firstn 20 ranked
      /\ Forall (GroupOf posts) ranked
      /\ NoDup (map Group.title ranked)
      /\ (forall k,
            (10 <= String.length k)%nat
            /\ (2 <= List.length (filter (sameTitle k) posts))%nat
            <-> In k (map Group.title ranked))
      /\ StronglySorted
           (fun a b => (Group.count b <= Group.count a)%Z) ranked)
  /\ (List.length (findDuplicates posts) <= 20)%nat
  /\ Forall (fun g => (10 <= String.length (Group.title g))%nat
                      /\ (2 <= Group.count g)%Z
                      /\ (2 <= List.length (Group.posts g))%nat)
            (findDuplicates posts)
  /\ findDuplicates [Sample.hello1; Sample.hello2; Sample.other3]
     = [Group.mk "hello world!" 2 [Sample.hello1; Sample.hello2]].
Proof.
  intros posts. unfold findDuplicates.
  set (groups := fold_left dupStep posts []).
  set (big := fun e : string * list Post => (1 <? List.length (snd e))%nat).
  set (mk := fun e : string * list Post =>
               Group.mk (fst e) (Z.of_nat (List.length (snd e))) (snd e)).
  set (ranked := sort byGroupCountDesc (map mk (filter big groups))).
  assert (G : Forall (GroupOf posts) ranked).
  { apply Forall_forall. intros g Hg.
    apply sort_In, in_map_iff in Hg as ([k arr] & <- & He).
    apply filter_In in He as (He & B).
    apply In_groups in He as (L & _ & ->).
    unfold big in B. simpl in B. apply Nat.ltb_lt in B.
    constructor; simpl; trivial. lia. }
  assert (T : Permutation (map Group.title ranked)
                          (map fst (filter big groups))).
  { unfold ranked. rewrite (sort_perm byGroupCountDesc).
    rewrite map_map. simpl. reflexivity. }
  split; [exists ranked; split; [reflexivity|]; split; [exact G|];
          split; [|split; [intros k; split|]]
         |split; [|split]].
  - apply (Permutation_NoDup (Permutation_sym T)).
    apply NoDup_keys_filter. unfold groups.
    rewrite groups_by_title, map_map. simpl. rewrite map_id.
    apply distinctInOrder_NoDup.
  - intros (L & N).
    apply (Permutation_in _ (Permutation_sym T)).
    apply in_map_iff. exists (k, filter (sameTitle k) posts).
    split; [reflexivity|]. apply filter_In. split.
    + apply In_groups. split; [exact L|]. split; [|reflexivity].
      destruct (filter (sameTitle k) posts) as [|p l] eqn:E;
        [simpl in N; lia|].
      assert (Hp : In p (filter (sameTitle k) posts))
        by (rewrite E; now left).
      apply filter_In in Hp as (Hp & S). exists p. split; [exact Hp|].
      rewrite normTitle_normalized. symmetry. now apply String.eqb_eq.
    + unfold big. simpl. apply Nat.ltb_lt. lia.
  - intros Hk. apply (Permutation_in _ T) in Hk.
    apply in_map_iff in Hk as ([k' arr] & <- & He).
    apply filter_In in He as (He & B).
    apply In_groups in He as (L & _ & ->).
    unfold big in B. simpl in B. apply Nat.ltb_lt in B. simpl. lia.
  - apply (sort_by_Z_desc Group.count).
  - unfold slice0. apply firstn_le_length.
  - apply Forall_forall. intros g Hg. apply In_firstn in Hg.
    fold ranked in Hg.
    rewrite Forall_forall in G. destruct (G g Hg) as [_ C L S].
    repeat split; trivial. lia.
  - reflexivity.
Qed.

End DuplicatesFacts.

(** ** findSimilarPosts *)

Module SimilarFacts.
Import JS DataService ListFacts MapFacts SortFacts.

(** [new Map(pairs)] as an accumulation that keeps the last value. *)
Lemma newMap_accumulate {V} (pairs : list (string * V)) :
  newMap pairs = accumulate fst (fun _ kv => snd kv) pairs [].
Proof. reflexivity. Qed.

Lemma valueOf_last {V} k v (l : list (string * V)) : forall o,
  valueOf fst (fun _ kv => snd kv) k o l = Some v ->
  o = Some v \/ In (k, v) l.
Proof.
  induction l as [|[k' v'] l IH]; intros o H; simpl in *; [now left|].
  destruct (String.eqb k k') eqn:E.
  - apply String.eqb_eq in E. subst k'.
    destruct (IH _ H) as [[= ->]|I]; auto.
  - destruct (IH _ H) as [->|I]; auto.
Qed.

Lemma newMap_get {V} (pairs : list (string * V)) k v :
  get (newMap pairs) k = Some v -> In (k, v) pairs.
Proof.
  rewrite newMap_accumulate, get_accumulate. intros H.
  apply valueOf_last in H as [H|H]; [discriminate|exact H].
Qed.

Lemma newMap_NoDup {V} (pairs : list (string * V)) :
  NoDup (map fst (newMap pairs)).
Proof.
  rewrite newMap_accumulate, keys_accumulate_nil.
  apply distinctInOrder_NoDup.
Qed.

Lemma postById_id this k p :
  get (postById (buildIndexes this)) k = Some p -> post_id p = k.
Proof.
  intros H. apply newMap_get, in_map_iff in H as (p' & E & _).
  now injection E as <- <-.
Qed.

Lemma In_dists postId target entries d :
  In d (distsFrom postId target entries) ->
  Dist.id d <> postId
  /\ exists e, In (Dist.id d, e) entries /\ Dist.d d = dist e target.
Proof.
  unfold distsFrom. rewrite in_flat_map. intros ([k e] & He & Hd).
  simpl in Hd. destruct (String.eqb k postId) eqn:E; [destruct Hd|].
  destruct Hd as [<-|[]]. simpl. apply String.eqb_neq in E.
  split; [exact E|]. now exists e.
Qed.

Lemma dists_ids postId target entries :
  map Dist.id (distsFrom postId target entries)
  = filter (fun id => negb (String.eqb id postId)) (map fst entries).
Proof.
  induction entries as [|[k e] m IH]; simpl; [reflexivity|].
  destruct (String.eqb k postId); simpl; now rewrite IH.
Qed.

Lemma filterBoolean_length {A} (l : list (option A)) :
  (List.length (filterBoolean l) <= List.length l)%nat.
Proof.
  induction l as [|[a|] l IH]; simpl; lia.
Qed.

Lemma In_filterBoolean {A B} (g : A -> option B) l b :
  In b (filterBoolean (map g l)) <-> exists a, In a l /\ g a = Some b.
Proof.
  induction l as [|a l IH]; simpl.
  - split; [tauto|]. intros (a & [] & _).
  - destruct (g a) as [b'|] eqn:E; simpl; rewrite IH; split.
    + intros [<-|(a' & I & G)]; [exists a|exists a']; auto.
    + intros (a' & [<-|I] & G); [left; congruence|right; now exists a'].
    + intros (a' & I & G). exists a'. auto.
    + intros (a' & [<-|I] & G); [congruence|now exists a'].
Qed.

(** Resolving the entries of a sorted array keeps the order. *)
Lemma resolve_sorted {D P} (R : D -> D -> Prop) (S : P -> P -> Prop)
    (g : D -> option P) (l : list D) :
  (forall d d' p p', In d l -> In d' l -> g d = Some p -> g d' = Some p' ->
                     R d d' -> S p p') ->
  StronglySorted R l ->
  StronglySorted S (filterBoolean (map g l)).
Proof.
  intros H SS. induction SS as [|d l SS IH Hd]; simpl; [constructor|].
  assert (IH' : StronglySorted S (filterBoolean (map g l))).
  { apply IH. intros a b p q Ha Hb. apply H; now right. }
  destruct (g d) as [p|] eqn:E; [|exact IH'].
  constructor; [exact IH'|].
  apply Forall_forall. intros q Hq.
  apply In_filterBoolean in Hq as (d' & I & G).
  apply (H d d' p q); auto; [now left|now right|].
  rewrite Forall_forall in Hd. now apply Hd.
Qed.

Lemma map_filter_in {A B} (g : A -> B) (P : A -> bool) (Q : B -> bool) l :
  (forall a, In a l -> P a = Q (g a)) ->
  map g (filter P l) = filter Q (map g l).
Proof.
  induction l as [|a l IH]; intros H; [reflexivity|].
  cbn [filter map]. rewrite <- (H a) by now left.
  rewrite <- IH by (intros b Hb; apply H; now right).
  now destruct (P a).
Qed.

(** The distance the code computes is the Euclidean distance, in
    double precision. *)
Lemma dist_distance e target :
  dist e target = Euclid.distance (x e) (y e) (x target) (y target).
Proof. reflexivity. Qed.

(** The comparator of [dists.sort], on two numbers. *)
Lemma byDistAsc_keys a b :
  PrimFloat.is_nan (Dist.d a) = false ->
  PrimFloat.is_nan (Dist.d b) = false ->
  byDistAsc a b
  = (NumOrder.keyOf (Dist.d a) ?= NumOrder.keyOf (Dist.d b))%Z.
Proof. intros Na Nb. now apply FloatFacts.sign_sub. Qed.

(** Entries at the same distance are not swapped. *)
Lemma ties_keep_their_order v l :
  filter (fun r => PrimFloat.eqb (Dist.d r) v) (sort byDistAsc l)
  = filter (fun r => PrimFloat.eqb (Dist.d r) v) l.
Proof.
  apply sort_stable. intros a b Ha Hb.
  destruct (FloatFacts.eqb_numbers _ _ Ha) as (Na & Nv).
  destruct (FloatFacts.eqb_numbers _ _ Hb) as (Nb & _).
  rewrite byDistAsc_keys by assumption.
  apply (FloatFacts.eqb_keys _ _ Na Nv) in Ha.
  apply (FloatFacts.eqb_keys _ _ Nb Nv) in Hb.
  rewrite Ha, Hb, Z.compare_refl. discriminate.
Qed.

Lemma sort_byDistAsc l :
  Forall (fun r => PrimFloat.is_nan (Dist.d r) = false) l ->
  StronglySorted (fun a b => PrimFloat.leb (Dist.d a) (Dist.d b) = true)
                 (sort byDistAsc l).
Proof.
  intros N. rewrite Forall_forall in N.
  apply (StronglySorted_weaken_in
           (fun a b => (NumOrder.keyOf (Dist.d a)
                        <= NumOrder.keyOf (Dist.d b))%Z)).
  - intros a b Ha Hb L. apply sort_In in Ha, Hb.
    now apply FloatFacts.leb_keys; auto.
  - apply sort_by_key. intros a b Ha Hb.
    apply byDistAsc_keys; auto.
Qed.

(** C5, as the claim states it, fails for two candidates that
    rounding puts at one distance.  Of the sample embeddings the second
    is at (1, 2^-30) and the third at (1, 0), the anchor at the origin:
    the third is the nearer, its distance squared being 1 against
    1 + 2^-60, yet both distances are computed as 1, the order of the
    index is kept, and the second is returned as the nearest. *)
Lemma close_points_are_ranked_as_the_index_has_them :
  findSimilarPosts Sample.close "T" 1 = [Sample.farther]
  /\ findSimilarPosts Sample.close "T" 2 = [Sample.farther; Sample.nearer]
  /\ (exactSquareOf Sample.close Sample.atAnchor Sample.nearer
      < exactSquareOf Sample.close Sample.atAnchor Sample.farther)%Q
  /\ ~ StronglySorted
         (fun p q => (exactSquareOf Sample.close Sample.atAnchor p
                      <= exactSquareOf Sample.close Sample.atAnchor q)%Q)
         (findSimilarPosts Sample.close "T" 2).
Proof.
  split; [reflexivity|]. split; [reflexivity|]. split.
  - vm_compute. reflexivity.
  - intros H.
    change (findSimilarPosts Sample.close "T" 2)
      with [Sample.farther; Sample.nearer] in H.
    inversion_clear H as [|? ? _ F]. inversion_clear F as [|? ? L _].
    vm_compute in L. now apply L.
Qed.

(** C5, amended.  For an anchor without an embedding
    [findSimilarPosts] returns the empty array.  Otherwise its result is
    what the first [limit] entries of a ranking resolve to in
    [postById], an id without a post being dropped.  The ranking holds
    the embedded ids other than the anchor, each with its Euclidean
    distance from the anchor as double precision gives it: the rounded
    square root of the rounded sum of the rounded squares of the two
    rounded coordinate differences.  Entries at one distance stand in
    the order of the index; and when the coordinates of the embeddings
    are finite, the ranking is in non-decreasing order of distance.  So
    the result has at most [limit] posts, none of them the anchor, in
    non-decreasing order of that distance.  On the sample embeddings the
    nearest post to P1 is P2, and the two nearest to P3 are P2, then
    P1. *)
Theorem findSimilarPosts_nearest :
  (forall this0 postId limit,
      let this := buildIndexes this0 in
      let result := findSimilarPosts this postId limit in
      match get (embeddingByPostId this) postId with
      | None => result = []
      | Some target =>
          (exists ranked,
              result = filterBoolean
                         (map (fun d => get (postById this) (Dist.id d))
                              (firstn limit ranked))
              /\ Permutation (map Dist.id ranked) (candidateIds this postId)
              /\ Forall (fun r => Dist.d r
                                  = distFrom this target (Dist.id r)) ranked
              /\ (forall v,
                    map Dist.id
                        (filter (fun r => PrimFloat.eqb (Dist.d r) v) ranked)
                    = filter (fun id => PrimFloat.eqb
                                          (distFrom this target id) v)
                             (candidateIds this postId))
              /\ (Forall finiteEmbedding (postEmbeddings this0) ->
                  StronglySorted
                    (fun a b => PrimFloat.leb (Dist.d a) (Dist.d b) = true)
                    ranked))
          /\ (List.length result <= limit)%nat
          /\ Forall (fun p => post_id p <> postId) result
          /\ (Forall finiteEmbedding (postEmbeddings this0) ->
              StronglySorted
                (fun p q => PrimFloat.leb (distOf this target p)
                                          (distOf this target q) = true)
                result)
      end)
  /\ findSimilarPosts Sample.embedded "P1" 1 = [Sample.P2]
  /\ findSimilarPosts Sample.embedded "P3" 2 = [Sample.P2; Sample.P1].
Proof.
  split; [|split; reflexivity].
  intros this0 postId limit this result. unfold result, findSimilarPosts.
  destruct (get (embeddingByPostId this) postId) as [target|] eqn:T;
    [|reflexivity].
  set (entries := embeddingByPostId this).
  set (dists := distsFrom postId target entries).
  set (ranked := sort byDistAsc dists).
  assert (R0 : forall d, In d dists ->
            Dist.id d <> postId /\
            exists e, get entries (Dist.id d) = Some e
                      /\ In e (postEmbeddings this0)
                      /\ Dist.d d = dist e target).
  { intros d Hd. apply In_dists in Hd as (N & e & I & E).
    split; [exact N|]. exists e.
    assert (G : get entries (Dist.id d) = Some e)
      by (apply In_get; [apply newMap_NoDup|exact I]).
    split; [exact G|]. split; [|exact E].
    apply newMap_get, in_map_iff in G as (e' & E' & I').
    now injection E' as _ <-. }
  assert (D0 : forall d, In d dists ->
            Dist.d d = distFrom this target (Dist.id d)).
  { intros d Hd. destruct (R0 d Hd) as (_ & e & G & _ & E).
    unfold distFrom. fold entries. now rewrite G, E. }
  assert (R : forall d, In d ranked -> In d dists)
    by (intros d; apply sort_In).
  assert (TI : In target (postEmbeddings this0)).
  { apply newMap_get, in_map_iff in T as (e' & E' & I').
    now injection E' as _ <-. }
  assert (SS : Forall finiteEmbedding (postEmbeddings this0) ->
               StronglySorted
                 (fun a b => PrimFloat.leb (Dist.d a) (Dist.d b) = true)
                 ranked).
  { intros F. rewrite Forall_forall in F. apply sort_byDistAsc.
    apply Forall_forall. intros d Hd.
    destruct (R0 d Hd) as (_ & e & _ & I & ->).
    rewrite dist_distance.
    destruct (F e I) as (Fx & Fy). destruct (F target TI) as (Tx & Ty).
    now apply FloatFacts.distance_number. }
  split; [exists ranked; split; [reflexivity|];
          split; [|split; [|split; [|exact SS]]]
         |split; [|split]].
  - unfold ranked. rewrite (sort_perm byDistAsc).
    unfold dists. now rewrite dists_ids.
  - apply Forall_forall. intros d Hd. now apply D0, R.
  - intros v. unfold ranked. rewrite ties_keep_their_order.
    unfold candidateIds. fold entries.
    rewrite <- (dists_ids postId target entries). fold dists.
    apply map_filter_in. intros d Hd. now rewrite (D0 d Hd).
  - etransitivity; [apply filterBoolean_length|].
    rewrite length_map. apply firstn_le_length.
  - apply Forall_forall. intros p Hp.
    apply In_filterBoolean in Hp as (d & Hd & G).
    apply In_firstn, R, R0 in Hd as (N & _).
    apply postById_id in G. congruence.
  - intros F.
    apply (resolve_sorted
             (fun a b => PrimFloat.leb (Dist.d a) (Dist.d b) = true)).
    + intros d d' p p' Hd Hd' G G' L.
      apply In_firstn, R, D0 in Hd. apply In_firstn, R, D0 in Hd'.
      apply postById_id in G, G'. unfold distOf.
      now rewrite G, G', <- Hd, <- Hd'.
    + apply StronglySorted_firstn, SS, F.
Qed.

Lemma findSimilarPosts_nearest_witness :
  StronglySorted
    (fun p q => PrimFloat.leb (distOf Sample.embedded
                                 (mkEmbedding "P3" (Num.ofZ 5) (Num.ofZ 5)) p)
                              (distOf Sample.embedded
                                 (mkEmbedding "P3" (Num.ofZ 5) (Num.ofZ 5)) q)
                = true)
    (findSimilarPosts Sample.embedded "P3" 2).
Proof.
  refine (proj2 (proj2 (proj2
            (proj1 findSimilarPosts_nearest
               (DataService.mk [Sample.P1; Sample.P2; Sample.P3] [] [] [] []
                  [mkEmbedding "P1" (Num.ofZ 0) (Num.ofZ 0);
                   mkEmbedding "P2" (Num.ofZ 1) (Num.ofZ 0);
                   mkEmbedding "P3" (Num.ofZ 5) (Num.ofZ 5)]
                  [] [] [] [] [] [])
               "P3" 2%nat))) _).
  repeat constructor.
Defined.

End SimilarFacts.

(** ** getHistogram *)

Module HistogramFacts.
Import JS DataService ListFacts.

Lemma mathMin_const v vs :
  Forall (fun w => w = v) vs -> mathMin v vs = v.
Proof.
  unfold mathMin. induction 1 as [|w vs -> _ IH]; simpl; [reflexivity|].
  now rewrite Z.min_id.
Qed.

Lemma mathMax_const v vs :
  Forall (fun w => w = v) vs -> mathMax v vs = v.
Proof.
  unfold mathMax. induction 1 as [|w vs -> _ IH]; simpl; [reflexivity|].
  now rewrite Z.max_id.
Qed.

(** When every post has the same value there is one bucket, from that
    value to the next integer, and it holds every post. *)
Lemma histogram_of_one_value posts field bins v :
  posts <> [] ->
  Forall (fun p => getNum field p = v) posts ->
  getHistogram posts field bins
  = [Bucket.mk v (v + 1) (List.length posts) (showZ v)].
Proof.
  intros N F. unfold getHistogram.
  destruct posts as [|p posts]; [contradiction|].
  cbn [map]. inversion_clear F as [|? ? Hp F'].
  assert (F'' : Forall (fun w => w = v) (map (getNum field) posts)).
  { apply Forall_forall. intros w Hw.
    apply in_map_iff in Hw as (q & <- & Hq).
    rewrite Forall_forall in F'. now apply F'. }
  rewrite Hp, mathMin_const, mathMax_const by exact F''.
  now rewrite Z.eqb_refl.
Qed.

(** Otherwise there is one bucket for each bin, and a bin ends where
    the next one starts: the two bounds are the same number. *)
Lemma histogram_of_two_values posts field bins v0 vs :
  map (getNum field) posts = v0 :: vs ->
  mathMax v0 vs <> mathMin v0 vs ->
  List.length (getHistogram posts field bins) = bins.
Proof.
  intros E N. unfold getHistogram. rewrite E.
  apply Z.eqb_neq in N. rewrite N.
  now rewrite length_map, length_seq.
Qed.

Lemma bins_follow_one_another min max bins i :
  binHi min max bins i = binLo min max bins (S i).
Proof.
  unfold binHi, binLo. now rewrite Nat2Z.inj_succ, <- Z.add_1_r.
Qed.

(** With a bin count of 0 the loop over the bins does not run: the
    histogram of two posts with different upvotes is empty. *)
Remark histogram_of_zero_bins :
  getHistogram [Sample.A; Sample.B] f_upvotes 0 = []
  /\ totalCount (getHistogram [Sample.A; Sample.B] f_upvotes 0)
     <> List.length [Sample.A; Sample.B].
Proof. split; [reflexivity|discriminate]. Qed.

(** C2.  The code misses what the claim says.  For two posts of 0 and
    of 61 upvotes and 7 bins the width of a bin is the double nearest to
    61/7, and 7 times that width, rounded, is 60.99999999999999: the
    upper bound of the last bucket, which the test of that bucket
    includes, is below the greatest value.  The post of 61 upvotes is
    counted in no bucket and the counts sum to 1, where there are 2
    posts. *)
Theorem getHistogram_loses_the_maximum :
  let posts := [Sample.low; Sample.high] in
  let hist := getHistogram posts f_upvotes 7 in
  map Bucket.count hist = [1; 0; 0; 0; 0; 0; 0]%nat
  /\ totalCount hist = 1%nat
  /\ List.length posts = 2%nat
  /\ bucketsOf 0 61 7 0 = [0%nat]
  /\ bucketsOf 0 61 7 61 = []
  /\ PrimFloat.ltb (binHi 0 61 7 6) (Num.ofZ 61) = true
  /\ map Bucket.label hist
     = ["0-8"; "8-17"; "17-26"; "26-34"; "34-43"; "43-52"; "52-60"].
Proof. repeat split; vm_compute; reflexivity. Qed.

End HistogramFacts.

(** ** Rectangle selection *)

Module SelectionFacts.
Import Selection ListFacts.

Lemma inside_Inside {A} (xScale yScale : PrimFloat.float -> PrimFloat.float)
    (px py : A -> PrimFloat.float) x0 y0 x1 y1 d :
  inside xScale yScale px py x0 y0 x1 y1 d = true
  <-> Inside x0 y0 x1 y1 (xScale (px d)) (yScale (py d)).
Proof.
  unfold inside, Inside. rewrite !andb_true_iff. tauto.
Qed.

Lemma guard_BigEnough x0 y0 x1 y1 :
  guard x0 y0 x1 y1 = true <-> BigEnough x0 y0 x1 y1.
Proof.
  unfold guard, BigEnough, width, height. now rewrite andb_true_iff.
Qed.

(** [Math.min] and [Math.max] of two numbers are the lesser and the
    greater of the two. *)
Lemma mathMin_least a b :
  PrimFloat.is_nan a = false -> PrimFloat.is_nan b = false ->
  (Num.mathMin a b = a \/ Num.mathMin a b = b)
  /\ PrimFloat.leb (Num.mathMin a b) a = true
  /\ PrimFloat.leb (Num.mathMin a b) b = true.
Proof.
  intros Na Nb. unfold Num.mathMin. rewrite Na, Nb.
  assert (Lab := FloatFacts.ltb_keys a b Na Nb).
  assert (Lba := FloatFacts.ltb_keys b a Nb Na).
  destruct (PrimFloat.ltb b a);
    [|destruct (PrimFloat.ltb a b);
      [|destruct (PrimFloat.get_sign a)]];
    (split; [auto|]);
    rewrite !FloatFacts.leb_keys by assumption;
    destruct Lab, Lba; split; try lia;
    (destruct (Z.lt_trichotomy (NumOrder.keyOf a) (NumOrder.keyOf b))
       as [L|[L|L]]; [| lia |]; auto; try lia;
     try (specialize (H0 L); discriminate);
     try (specialize (H2 L); discriminate)).
Qed.

Lemma mathMax_greatest a b :
  PrimFloat.is_nan a = false -> PrimFloat.is_nan b = false ->
  (Num.mathMax a b = a \/ Num.mathMax a b = b)
  /\ PrimFloat.leb a (Num.mathMax a b) = true
  /\ PrimFloat.leb b (Num.mathMax a b) = true.
Proof.
  intros Na Nb. unfold Num.mathMax. rewrite Na, Nb.
  assert (Lab := FloatFacts.ltb_keys a b Na Nb).
  assert (Lba := FloatFacts.ltb_keys b a Nb Na).
  destruct (PrimFloat.ltb a b);
    [|destruct (PrimFloat.ltb b a);
      [|destruct (PrimFloat.get_sign a)]];
    (split; [auto|]);
    rewrite !FloatFacts.leb_keys by assumption;
    destruct Lab, Lba; split; try lia;
    (destruct (Z.lt_trichotomy (NumOrder.keyOf a) (NumOrder.keyOf b))
       as [L|[L|L]]; [| lia |]; auto; try lia;
     try (specialize (H0 L); discriminate);
     try (specialize (H2 L); discriminate)).
Qed.

(** Where two corners agree in a coordinate, the difference of the
    two is not above 5. *)
Lemma no_extent a b :
  PrimFloat.eqb a b = true ->
  PrimFloat.ltb Num.five (PrimFloat.sub b a) = false.
Proof.
  intros E. destruct (FloatFacts.eqb_numbers _ _ E) as (Na & Nb).
  apply (FloatFacts.eqb_keys _ _ Na Nb) in E.
  destruct (PrimFloat.ltb Num.five (PrimFloat.sub b a)) eqn:L;
    [exfalso|reflexivity].
  destruct (FloatFacts.ltb_numbers _ _ L) as (N5 & Nw).
  apply (FloatFacts.ltb_keys _ _ N5 Nw) in L.
  assert (P5 : (0 < NumOrder.keyOf Num.five)%Z) by reflexivity.
  assert (S := FloatFacts.sign_sub b a Nb Na).
  rewrite E, Z.compare_refl in S.
  unfold Num.sign in S.
  rewrite (FloatFacts.compare_keys _ Num.zero Nw eq_refl) in S.
  change (NumOrder.keyOf Num.zero) with 0%Z in S.
  assert (G : (NumOrder.keyOf (PrimFloat.sub b a) ?= 0)%Z = Gt)
    by (apply Z.compare_gt_iff; lia).
  rewrite G in S. discriminate.
Qed.

(** C3, as the claim states it, fails for a small rectangle: in the
    plot of the sample embeddings P1 is drawn at (140, 240 and a
    rounding), inside the rectangle from (138, 238) to (142, 242), which
    is 4 units wide and high, and the handler selects nothing. *)
Lemma small_rectangle_selects_nothing :
  Inside (Num.ofZ 138) (Num.ofZ 238) (Num.ofZ 142) (Num.ofZ 242)
         (Sample.xScale (Num.ofZ 0)) (Sample.yScale (Num.ofZ 0))
  /\ map emb_post_id
         (filter (inside Sample.xScale Sample.yScale x y
                         (Num.ofZ 138) (Num.ofZ 238)
                         (Num.ofZ 142) (Num.ofZ 242))
                 (DataService.postEmbeddings Sample.embedded))
     = ["P1"]
  /\ selection Sample.xScale Sample.yScale x y emb_post_id
               (DataService.postEmbeddings Sample.embedded)
               (Num.ofZ 138, Num.ofZ 238) (Num.ofZ 142, Num.ofZ 242) = [].
Proof.
  split; [|split; reflexivity].
  unfold Inside. repeat split; reflexivity.
Qed.

(** The width of the rectangle is the difference the handler
    computes.  Between the doubles nearest to 0.7 and to 5.7 the exact
    difference is above 5 and the computed one is 5: such a rectangle
    is not wide enough. *)
Remark width_is_a_rounded_difference :
  let x0 := PrimFloat.div (Num.ofZ 7) (Num.ofZ 10) in
  let x1 := PrimFloat.div (Num.ofZ 57) (Num.ofZ 10) in
  (5 < Num.exact x1 - Num.exact x0)%Q
  /\ PrimFloat.eqb (width x0 x1) Num.five = true
  /\ forall y0 y1, ~ BigEnough x0 y0 x1 y1.
Proof.
  cbv zeta. split; [reflexivity|]. split; [reflexivity|].
  intros y0 y1 [W _]. vm_compute in W. discriminate.
Qed.

(** C3, amended.  The corners of the rectangle are the least and the
    greatest coordinates of the two ends of the drag.  The width and
    the height of the rectangle are the differences of the corners as
    double precision gives them.  When the width and the height are
    both above 5, the selection is the keys of exactly the points whose
    scaled position lies between the corners, the four edges included,
    in the order of the points; if every point lies there, it is the
    keys of all points.  Otherwise nothing is selected; so it is for a
    rectangle without width or without height, two corners of which
    agree in a coordinate. *)
Theorem rect_selection_guarded :
  forall (xScale yScale : PrimFloat.float -> PrimFloat.float) (A : Type)
         (px py : A -> PrimFloat.float) (key : A -> string)
         (points : list A) (start mouse : PrimFloat.float * PrimFloat.float),
    let x0 := Num.mathMin (fst start) (fst mouse) in
    let y0 := Num.mathMin (snd start) (snd mouse) in
    let x1 := Num.mathMax (fst start) (fst mouse) in
    let y1 := Num.mathMax (snd start) (snd mouse) in
    let sel := selection xScale yScale px py key points start mouse in
    (BigEnough x0 y0 x1 y1 ->
       sel = map key (filter (inside xScale yScale px py x0 y0 x1 y1) points)
       /\ (forall d, inside xScale yScale px py x0 y0 x1 y1 d = true
                     <-> Inside x0 y0 x1 y1 (xScale (px d)) (yScale (py d)))
       /\ ((forall d, In d points ->
              Inside x0 y0 x1 y1 (xScale (px d)) (yScale (py d))) ->
           sel = map key points))
    /\ (~ BigEnough x0 y0 x1 y1 -> sel = [])
    /\ (Degenerate x0 y0 x1 y1 -> sel = [])
    /\ (PrimFloat.is_nan (fst start) = false ->
        PrimFloat.is_nan (fst mouse) = false ->
        (x0 = fst start \/ x0 = fst mouse)
        /\ (x1 = fst start \/ x1 = fst mouse)
        /\ PrimFloat.leb x0 (fst start) = true
        /\ PrimFloat.leb x0 (fst mouse) = true
        /\ PrimFloat.leb (fst start) x1 = true
        /\ PrimFloat.leb (fst mouse) x1 = true)
    /\ (PrimFloat.is_nan (snd start) = false ->
        PrimFloat.is_nan (snd mouse) = false ->
        (y0 = snd start \/ y0 = snd mouse)
        /\ (y1 = snd start \/ y1 = snd mouse)
        /\ PrimFloat.leb y0 (snd start) = true
        /\ PrimFloat.leb y0 (snd mouse) = true
        /\ PrimFloat.leb (snd start) y1 = true
        /\ PrimFloat.leb (snd mouse) y1 = true).
Proof.
  intros xScale yScale A px py key points start mouse x0 y0 x1 y1 sel.
  assert (G := guard_BigEnough x0 y0 x1 y1).
  assert (S : sel = if guard x0 y0 x1 y1
                    then map key (filter (inside xScale yScale px py
                                                 x0 y0 x1 y1) points)
                    else []).
  { unfold sel, selection, selected. fold x0 y0 x1 y1.
    now destruct (guard x0 y0 x1 y1). }
  assert (Small : ~ BigEnough x0 y0 x1 y1 -> sel = []).
  { intros N. rewrite S.
    destruct (guard x0 y0 x1 y1); [|reflexivity].
    exfalso. now apply N, G. }
  split; [|split; [exact Small|split; [|split]]].
  - intros B. apply G in B. rewrite S, B.
    split; [reflexivity|]. split; [intros d; apply inside_Inside|].
    intros H. apply (f_equal (map key)). apply filter_all.
    intros d Hd. apply inside_Inside. now apply H.
  - intros D. apply Small. intros [B1 B2]. unfold width, height in *.
    destruct D as [D|D]; apply no_extent in D; congruence.
  - intros Na Nb.
    destruct (mathMin_least _ _ Na Nb) as (M1 & M2 & M3).
    destruct (mathMax_greatest _ _ Na Nb) as (M4 & M5 & M6).
    repeat split; assumption.
  - intros Na Nb.
    destruct (mathMin_least _ _ Na Nb) as (M1 & M2 & M3).
    destruct (mathMax_greatest _ _ Na Nb) as (M4 & M5 & M6).
    repeat split; assumption.
Qed.

Lemma rect_selection_guarded_witness :
  selection Sample.xScale Sample.yScale x y emb_post_id
            (DataService.postEmbeddings Sample.embedded)
            (Num.ofZ 130, Num.ofZ 230) (Num.ofZ 170, Num.ofZ 250)
  = ["P1"; "P2"].
Proof.
  refine (eq_trans (proj1 (proj1 (rect_selection_guarded
            Sample.xScale Sample.yScale Embedding x y emb_post_id
            (DataService.postEmbeddings Sample.embedded)
            (Num.ofZ 130, Num.ofZ 230) (Num.ofZ 170, Num.ofZ 250)) _)) _).
  - split; reflexivity.
  - reflexivity.
Defined.

(** The two handlers store the selection, when there is one. *)
Lemma mouseupEmbeddings_selection xScale yScale embs mouse start f :
  mouseupEmbeddings xScale yScale embs mouse (mkState (Some start) f)
  = mkState None
      (match selection xScale yScale x y emb_post_id embs start mouse with
       | [] => f
       | ids => setPostIds f ids
       end).
Proof.
  unfold mouseupEmbeddings. simpl.
  now destruct (selection _ _ _ _ _ _ _ _).
Qed.

Lemma mouseupSpaces_selection xScale yScale umap mouse start f :
  mouseupSpaces xScale yScale umap mouse (mkState (Some start) f)
  = mkState None
      (match selection xScale yScale umap_x umap_y umap_submolt_name
                       umap start mouse with
       | [] => f
       | names => setSubmolts f names
       end).
Proof.
  unfold mouseupSpaces. simpl.
  now destruct (selection _ _ _ _ _ _ _ _).
Qed.

End SelectionFacts.

(** ** renderTagNetwork *)

Module NetworkFacts.
Import JS Network ListFacts MapFacts.


















End NetworkFacts.

(** ** Queries and the store *)

Module StoreFacts.
Import Store.

Lemma nth_last (h : heap) l : nth (List.length h) (h ++ [l]) [] = l.
Proof. apply nth_middle. Qed.

Lemma update_last (h : heap) l l' :
  update (List.length h) l' (h ++ [l]) = h ++ [l'].
Proof. induction h as [|a h IH]; simpl; [reflexivity|]. now rewrite IH. Qed.

Lemma run_spread r h : spread r h = (List.length h, h ++ [nth r h []]).
Proof. reflexivity. Qed.

Lemma run_arrayFilter r f h :
  arrayFilter r f h = (List.length h, h ++ [filter f (nth r h [])]).
Proof. reflexivity. Qed.

Lemma run_arraySlice0 r n h :
  arraySlice0 r n h = (List.length h, h ++ [JS.slice0 n (nth r h [])]).
Proof. reflexivity. Qed.

(** Sorting the array allocated last rewrites that array only. *)
Lemma run_arraySort_last h l cmp :
  arraySort (List.length h) cmp (h ++ [l])
  = (List.length h, h ++ [JS.sort cmp l]).
Proof.
  unfold arraySort, bind, deref, assign, ret.
  now rewrite nth_last, update_last.
Qed.

Lemma nth_old (h ext : heap) r :
  (r < List.length h)%nat -> nth r (h ++ ext) [] = nth r h [].
Proof. intros H. now apply app_nth1. Qed.

(** One stage of [filterPosts]: the store grows, the result holds the
    contents the stage of [DataService] gives, and it is a new array
    exactly when the stage is switched on. *)
Lemma stage_step (h : heap) posts guard pred r hc L (act : bool) :
  (exists ext, hc = h ++ ext) -> (r < List.length hc)%nat ->
  nth r hc [] = L ->
  (if act then (List.length h <= r)%nat else r = posts) ->
  let r' := fst (stage guard pred r hc) in
  let hc' := snd (stage guard pred r hc) in
  (exists ext, hc' = h ++ ext) /\ (r' < List.length hc')%nat
  /\ nth r' hc' [] = DataService.stage guard pred L
  /\ (if act || guard then (List.length h <= r')%nat else r' = posts).
Proof.
  intros (ext & ->) Hr HL Ha. unfold stage, DataService.stage.
  destruct guard.
  - rewrite run_arrayFilter. cbn [fst snd].
    split; [exists (ext ++ [filter pred (nth r (h ++ ext) [])]);
            now rewrite app_assoc|].
    split; [rewrite !length_app; simpl; lia|].
    split; [now rewrite nth_last, HL|].
    rewrite orb_true_r, length_app. lia.
  - unfold ret. cbn [fst snd].
    split; [now exists ext|]. split; [exact Hr|]. split; [exact HL|].
    now rewrite orb_false_r.
Qed.

(** Runs the stage at the head of the goal, carrying the four facts of
    [stage_step] over to its result. *)
Ltac stage_next :=
  match goal with
  | E : exists ext, ?hc = ?h ++ ext,
    R : (?r < List.length ?hc)%nat,
    L : nth ?r ?hc [] = _,
    A : (if ?act then _ else _)
    |- context [stage ?g ?p ?r ?hc] =>
      let S := fresh "S" in
      pose proof (stage_step h _ g p r hc _ act E R L A) as S;
      cbv zeta in S; clear E R L A; revert S;
      destruct (stage g p r hc) as [? ?]; cbn [fst snd];
      let E' := fresh "E" in
      let R' := fresh "R" in
      let L' := fresh "L" in
      let A' := fresh "A" in
      intros (E' & R' & L' & A')
  end.

Lemma filterPosts_run (h : heap) posts this filters :
  (posts < List.length h)%nat ->
  let r := fst (filterPosts posts this filters h) in
  let h' := snd (filterPosts posts this filters h) in
  (exists ext, h' = h ++ ext)
  /\ nth r h' []
     = DataService.filterPosts
         (DataService.withPosts this (nth posts h [])) filters
  /\ (if anyActive filters then (List.length h <= r)%nat else r = posts).
Proof.
  intros R. unfold filterPosts, bind, ret. cbv beta zeta.
  assert (E : exists ext, h = h ++ ext)
    by (exists []; now rewrite app_nil_r).
  assert (L : nth posts h [] = nth posts h []) by reflexivity.
  assert (A : if false then (List.length h <= posts)%nat
              else posts = posts) by reflexivity.
  do 8 stage_next.
  split; [exact E|]. split; [exact L|exact A].
Qed.

Lemma sortPosts_run localeCompare (h : heap) posts field asc :
  sortPosts localeCompare posts field asc h
  = (List.length h,
     h ++ [DataService.sortPosts localeCompare (nth posts h []) field asc]).
Proof.
  unfold sortPosts, bind, ret. rewrite run_spread.
  now rewrite run_arraySort_last.
Qed.

Lemma findOutliers_run (h : heap) posts :
  (posts < List.length h)%nat ->
  let corpus := nth posts h [] in
  findOutliers posts h
  = (DataService.findOutliers corpus,
     h ++ [JS.sort DataService.byUpvotesDesc corpus;
           JS.slice0 10 (JS.sort DataService.byUpvotesDesc corpus);
           JS.sort DataService.byContentLenDesc corpus;
           JS.slice0 5 (JS.sort DataService.byContentLenDesc corpus)]).
Proof.
  intros Hp corpus. unfold findOutliers, bind, ret, deref.
  rewrite run_spread, run_arraySort_last. fold corpus.
  set (s1 := JS.sort DataService.byUpvotesDesc corpus).
  rewrite run_arraySlice0, !nth_last.
  set (t1 := JS.slice0 10 s1).
  set (h1 := (h ++ [s1]) ++ [t1]).
  assert (E1 : h1 = h ++ [s1; t1])
    by (unfold h1; now rewrite <- app_assoc).
  rewrite run_spread.
  replace (nth posts h1 []) with corpus
    by (rewrite E1; symmetry; now apply nth_old).
  rewrite run_arraySort_last.
  set (s2 := JS.sort DataService.byContentLenDesc corpus).
  rewrite run_arraySlice0, !nth_last.
  rewrite E1, <- !app_assoc. reflexivity.
Qed.

(** C10, as the claim states it, fails in one clause: with no
    predicate switched on, [filterPosts] does not return a new array;
    it returns the array of the corpus itself, here the array 0 of a
    store that holds nothing else. *)
Lemma unfiltered_result_is_the_corpus_array :
  fst (filterPosts 0%nat Sample.corpus emptyFilters
                   [DataService.posts Sample.corpus]) = 0%nat
  /\ (fst (filterPosts 0%nat Sample.corpus emptyFilters
                       [DataService.posts Sample.corpus])
      < List.length [DataService.posts Sample.corpus])%nat
  /\ snd (filterPosts 0%nat Sample.corpus emptyFilters
                      [DataService.posts Sample.corpus])
     = [DataService.posts Sample.corpus].
Proof. split; [reflexivity|]. split; [simpl; lia|reflexivity]. Qed.

(** C10, amended.  No query writes to an array that exists when it
    starts: the store after a query is the store before it with new
    arrays behind, so the array of the corpus, and any other array the
    query is run on, holds the same posts in the same order afterwards.
    [sortPosts] and [findOutliers] sort copies they allocate;
    [sortPosts] returns a new array, and so does [filterPosts] when
    some predicate is switched on, whereas with none switched on it
    returns the very array it was run on; the aggregations only read
    it.  Each query answers what the function of [DataService] gives
    for the contents of that array.  This holds whatever the collation
    of the platform is. *)
Theorem queries_leave_arrays_unchanged :
  forall (localeCompare : DataService.Collation) q (h : heap) posts,
  (posts < List.length h)%nat ->
  let ans := fst (run localeCompare q posts h) in
  let h' := snd (run localeCompare q posts h) in
  (exists ext, h' = h ++ ext)
  /\ (forall r, (r < List.length h)%nat -> nth r h' [] = nth r h [])
  /\ Answers localeCompare q posts h h' ans.
Proof.
  intros localeCompare q h posts Hp ans h'.
  assert (X : (exists ext, h' = h ++ ext)
              /\ Answers localeCompare q posts h h' ans).
  { unfold ans, h', Answers, run, bind, ret, deref.
    destruct q as [this filters|field asc| |field limit disp|field bins|].
    - destruct (filterPosts_run h posts this filters Hp) as (E & L & A).
      destruct (filterPosts posts this filters h) as [r hr].
      simpl in *. auto.
    - rewrite sortPosts_run. simpl. split; [now eexists|].
      rewrite nth_last. auto.
    - rewrite (findOutliers_run h posts Hp). simpl.
      split; [now eexists|reflexivity].
    - simpl. split; [exists []; now rewrite app_nil_r|reflexivity].
    - simpl. split; [exists []; now rewrite app_nil_r|reflexivity].
    - simpl. split; [exists []; now rewrite app_nil_r|reflexivity]. }
  destruct X as ((ext & E) & A).
  split; [now exists ext|]. split; [|exact A].
  intros r Hr. rewrite E. now apply nth_old.
Qed.

Lemma queries_leave_arrays_unchanged_witness :
  nth 0 (snd (run String.compare
                  (q_sortPosts (DataService.by_num DataService.f_upvotes)
                               false)
                  0%nat [DataService.posts Sample.corpus])) []
  = DataService.posts Sample.corpus.
Proof.
  refine (proj1 (proj2 (queries_leave_arrays_unchanged String.compare
            (q_sortPosts (DataService.by_num DataService.f_upvotes) false)
            [DataService.posts Sample.corpus] 0%nat _)) 0%nat _).
  - simpl. lia.
  - simpl. lia.
Defined.

End StoreFacts.

(* ====================================================================== *)
(** * Further properties of the code                                      *)
(* ====================================================================== *)

(** ** buildIndexes *)

Module IndexFacts.
Import JS DataService ListFacts MapFacts.

(** With keys that occur once, the last value set under a key is the
    only one. *)
Lemma valueOf_unique {V} k v (l : list (string * V)) : forall o,
  NoDup (map fst l) -> In (k, v) l ->
  valueOf fst (fun _ kv => snd kv) k o l = Some v.
Proof.
  induction l as [|[k' v'] l IH]; intros o ND H; [destruct H|].
  simpl in ND. inversion_clear ND as [|? ? Hk ND'].
  cbn [valueOf fst snd]. destruct H as [E|H].
  - injection E as -> ->. rewrite String.eqb_refl.
    now apply valueOf_absent.
  - destruct (String.eqb k k') eqn:E; [|now apply IH].
    apply String.eqb_eq in E. subst k'. exfalso. apply Hk.
    apply in_map_iff. now exists (k, v).
Qed.

Lemma newMap_lookup {V X} (key : X -> string) (val : X -> V) (l : list X) x :
  NoDup (map key l) -> In x l ->
  get (newMap (map (fun a => (key a, val a)) l)) (key x) = Some (val x).
Proof.
  intros ND H. rewrite SimilarFacts.newMap_accumulate, get_accumulate.
  apply valueOf_unique.
  - now rewrite map_map.
  - apply in_map_iff. now exists x.
Qed.

Lemma newMap_missing {V} (pairs : list (string * V)) k :
  ~ In k (map fst pairs) -> get (newMap pairs) k = None.
Proof.
  intros H. rewrite SimilarFacts.newMap_accumulate, get_accumulate.
  now apply valueOf_absent.
Qed.

(** X1.  When the post ids of the corpus are distinct, every post is
    found in [postById] under its id; an id no post bears is not found;
    and whatever is found under an id is a post of the corpus with that
    id.  The same holds of [embeddingByPostId] and the embeddings. *)
Theorem indexes_by_id : forall this,
  NoDup (map post_id (posts this)) ->
  NoDup (map emb_post_id (postEmbeddings this)) ->
  let built := buildIndexes this in
  (forall p, In p (posts this) -> get (postById built) (post_id p) = Some p)
  /\ (forall id p, get (postById built) id = Some p ->
                   In p (posts this) /\ post_id p = id)
  /\ (forall id, ~ In id (map post_id (posts this)) ->
                 get (postById built) id = None)
  /\ (forall e, In e (postEmbeddings this) ->
                get (embeddingByPostId built) (emb_post_id e) = Some e)
  /\ (forall id, ~ In id (map emb_post_id (postEmbeddings this)) ->
                 get (embeddingByPostId built) id = None).
Proof.
  intros this NP NE built. unfold built. simpl.
  split; [|split; [|split; [|split]]].
  - intros p Hp. now apply (newMap_lookup post_id (fun p => p)).
  - intros id p H. apply SimilarFacts.newMap_get, in_map_iff in H
      as (p' & E & Hp). injection E as <- <-. auto.
  - intros id H. apply newMap_missing. now rewrite map_map.
  - intros e He. now apply (newMap_lookup emb_post_id (fun e => e)).
  - intros id H. apply newMap_missing. now rewrite map_map.
Qed.

Lemma indexes_by_id_witness :
  get (postById Sample.corpus) "C" = Some Sample.C.
Proof.
  refine (proj1 (indexes_by_id
            (DataService.mk [Sample.A; Sample.B; Sample.C; Sample.D]
               [] [] [] [] [] [] [] [] [] [] []) _ _) Sample.C _).
  - repeat constructor; simpl; intuition discriminate.
  - constructor.
  - simpl. tauto.
Defined.

(** The grouping loops of [buildIndexes]. *)
Lemma groupBy_groups {X} (key : X -> string) (l : list X) :
  groupBy key l
  = map (fun k => (k, filter (fun x => String.eqb k (key x)) l))
        (distinctInOrder (map key l)).
Proof.
  unfold groupBy.
  change (fold_left (pushTo key) l []) with (accumulate key pushUpd l []).
  apply accumulate_nil. intros k Hk.
  now rewrite DuplicatesFacts.valueOf_push.
Qed.

Lemma groupBy_get {X} (key : X -> string) (l : list X) k :
  get (groupBy key l) k
  = if in_dec string_dec k (map key l)
    then Some (filter (fun x => String.eqb k (key x)) l)
    else None.
Proof.
  unfold groupBy.
  change (fold_left (pushTo key) l []) with (accumulate key pushUpd l []).
  rewrite get_accumulate.
  destruct (in_dec string_dec k (map key l)) as [I|I].
  - now rewrite DuplicatesFacts.valueOf_push.
  - now rewrite valueOf_absent.
Qed.

Lemma groupBy_orElse {X} (key : X -> string) (l : list X) k :
  orElse (get (groupBy key l) k) []
  = filter (fun x => String.eqb k (key x)) l.
Proof.
  rewrite groupBy_get.
  destruct (in_dec string_dec k (map key l)) as [I|I]; [reflexivity|].
  simpl. symmetry. apply filter_none. intros x Hx.
  apply String.eqb_neq. intros ->. apply I. now apply in_map.
Qed.

(** X2.  Each grouping index of [buildIndexes] holds under a key the
    records of its table that bear the key, in table order: the tags and
    the class notes of a post id, the posts of a community, the posts of
    an author; a key that no record bears has no entry, and an entry is
    never empty. *)
Theorem grouping_indexes : forall this,
  let built := buildIndexes this in
  (forall id, orElse (get (tagsByPostId built) id) []
              = filter (fun t => String.eqb id (tag_post_id t))
                       (postTags this))
  /\ (forall id, orElse (get (classNotesByPostId built) id) []
                 = filter (fun n => String.eqb id (note_post_id n))
                          (postClassNotes this))
  /\ (forall s, orElse (get (postsBySubmolt built) s) []
                = filter (fun p => String.eqb s (submolt_name p))
                         (posts this))
  /\ (forall a, orElse (get (postsByAuthor built) a) []
                = filter (fun p => String.eqb a (author_name p))
                         (posts this))
  /\ (forall s, get (postsBySubmolt built) s = None
                <-> ~ In s (map submolt_name (posts this)))
  /\ (forall a, get (postsByAuthor built) a = None
                <-> ~ In a (map author_name (posts this)))
  /\ Forall (fun e => snd e <> []) (postsBySubmolt built)
  /\ Forall (fun e => snd e <> []) (postsByAuthor built)
  /\ Forall (fun e => snd e <> []) (tagsByPostId built)
  /\ Forall (fun e => snd e <> []) (classNotesByPostId built).
Proof.
  intros this built. unfold built. simpl.
  assert (NoneIff : forall X (key : X -> string) (l : list X) k,
             get (groupBy key l) k = None <-> ~ In k (map key l)).
  { intros X key l k. rewrite groupBy_get.
    destruct (in_dec string_dec k (map key l)); split;
      try tauto; discriminate. }
  assert (NonEmpty : forall X (key : X -> string) (l : list X),
             Forall (fun e => snd e <> []) (groupBy key l)).
  { intros X key l. rewrite groupBy_groups. apply Forall_forall.
    intros e He. apply in_map_iff in He as (k & <- & Hk). simpl.
    apply distinctInOrder_In, in_map_iff in Hk as (x & <- & Hx).
    intros E.
    assert (I : In x (filter (fun y => String.eqb (key x) (key y)) l))
      by (apply filter_In; split; [exact Hx|apply String.eqb_refl]).
    rewrite E in I. destruct I. }
  repeat match goal with |- _ /\ _ => split end;
    try (intros k; apply groupBy_orElse);
    try (intros k; apply NoneIff);
    apply NonEmpty.
Qed.

Lemma keyed_split {X} (f g : X -> bool) (l : list X) :
  (forall x, In x l -> f x = true -> g x = false) ->
  Permutation (filter f l ++ filter g l) (filter (fun x => f x || g x) l).
Proof.
  induction l as [|a l IH]; intros D; [constructor|].
  assert (IH' := IH (fun x I => D x (or_intror I))).
  simpl. destruct (f a) eqn:Fa; simpl.
  - rewrite (D a (or_introl eq_refl) Fa). now constructor.
  - destruct (g a); [|exact IH'].
    rewrite <- Permutation_middle. now constructor.
Qed.

Lemma groups_cover {X} (key : X -> string) (l : list X) (ks : list string) :
  NoDup ks ->
  Permutation
    (flat_map (fun k => filter (fun x => String.eqb k (key x)) l) ks)
    (filter (fun x => has ks (key x)) l).
Proof.
  induction 1 as [|k ks Hk ND IH]; simpl.
  - rewrite filter_none; [constructor|reflexivity].
  - rewrite IH, keyed_split.
    + apply Permutation_refl'. apply filter_ext. intros x.
      unfold has. simpl. now rewrite String.eqb_sym.
    + intros x _ E. apply String.eqb_eq in E. subst k.
      now apply has_false.
Qed.

(** X3.  The groups of [postsBySubmolt], and those of [postsByAuthor],
    divide the corpus: the keys are distinct, every post of a group bears
    the key of the group, and the groups put end to end are the posts of
    the corpus rearranged, so every post is in exactly one group. *)
Theorem grouping_divides_the_corpus : forall this,
  let built := buildIndexes this in
  (NoDup (map fst (postsBySubmolt built))
   /\ Forall (fun e => Forall (fun p => submolt_name p = fst e) (snd e))
             (postsBySubmolt built)
   /\ Permutation (List.concat (map snd (postsBySubmolt built))) (posts this))
  /\ (NoDup (map fst (postsByAuthor built))
      /\ Forall (fun e => Forall (fun p => author_name p = fst e) (snd e))
                (postsByAuthor built)
      /\ Permutation (List.concat (map snd (postsByAuthor built))) (posts this)).
Proof.
  intros this built. unfold built. simpl.
  assert (G : forall (key : Post -> string) (l : list Post),
             NoDup (map fst (groupBy key l))
             /\ Forall (fun e => Forall (fun p => key p = fst e) (snd e))
                       (groupBy key l)
             /\ Permutation (List.concat (map snd (groupBy key l))) l).
  { intros key l. rewrite groupBy_groups. split; [|split].
    - rewrite map_map. simpl. rewrite map_id. apply distinctInOrder_NoDup.
    - apply Forall_forall. intros e He.
      apply in_map_iff in He as (k & <- & _). simpl.
      apply Forall_forall. intros p Hp. apply filter_In in Hp as (_ & E).
      symmetry. now apply String.eqb_eq.
    - rewrite map_map. simpl. rewrite <- flat_map_concat_map.
      rewrite groups_cover by apply distinctInOrder_NoDup.
      apply Permutation_refl'. apply filter_all. intros p Hp.
      apply has_In, distinctInOrder_In. now apply in_map. }
  split; apply G.
Qed.

End IndexFacts.

(** ** StateService *)

Module StateFacts.
Import JS StateService ListFacts MapFacts.

Lemma indexOfFrom_spec arr s : forall i,
  (0 <= i)%Z ->
  (~ In s arr /\ indexOfFrom i arr s = (-1)%Z)
  \/ (In s arr /\ (i <= indexOfFrom i arr s)%Z
      /\ splice1 (Z.to_nat (indexOfFrom i arr s - i)) arr
         = removeFirst arr s).
Proof.
  induction arr as [|x arr IH]; intros i Hi; [left; simpl; tauto|].
  cbn [indexOfFrom removeFirst]. destruct (String.eqb x s) eqn:E.
  - apply String.eqb_eq in E. subst x. right.
    split; [now left|]. split; [lia|].
    now rewrite Z.sub_diag.
  - apply String.eqb_neq in E.
    destruct (IH (i + 1)%Z ltac:(lia)) as [[N R]|[I [L R]]].
    + left. split; [|exact R]. intros [H|H]; tauto.
    + right. split; [now right|]. split; [lia|].
      replace (Z.to_nat (indexOfFrom (i + 1) arr s - i))
        with (S (Z.to_nat (indexOfFrom (i + 1) arr s - (i + 1)))) by lia.
      simpl. now rewrite R.
Qed.

Lemma toggle_absent arr s : ~ In s arr -> toggle arr s = arr ++ [s].
Proof.
  intros N. unfold toggle, indexOf.
  destruct (indexOfFrom_spec arr s 0 ltac:(lia)) as [[_ R]|[I _]];
    [|contradiction].
  now rewrite R.
Qed.

Lemma toggle_present arr s : In s arr -> toggle arr s = removeFirst arr s.
Proof.
  intros I. unfold toggle, indexOf.
  destruct (indexOfFrom_spec arr s 0 ltac:(lia)) as [[N _]|[_ [L R]]];
    [contradiction|].
  rewrite Z.sub_0_r in R. rewrite R.
  now replace (0 <=? indexOfFrom 0 arr s)%Z with true
    by (symmetry; apply Z.leb_le; exact L).
Qed.

Lemma removeFirst_In arr s x :
  In x (removeFirst arr s) -> In x arr.
Proof.
  induction arr as [|a arr IH]; simpl; [tauto|].
  destruct (String.eqb a s); simpl; tauto.
Qed.

Lemma removeFirst_other arr s x :
  x <> s -> In x arr -> In x (removeFirst arr s).
Proof.
  intros N. induction arr as [|a arr IH]; simpl; [tauto|].
  destruct (String.eqb a s) eqn:E; simpl.
  - apply String.eqb_eq in E. intros [H|H]; [congruence|exact H].
  - tauto.
Qed.

Lemma removeFirst_NoDup arr s :
  NoDup arr -> NoDup (removeFirst arr s) /\ ~ In s (removeFirst arr s).
Proof.
  induction 1 as [|a arr Ha ND IH]; simpl; [split; [constructor|tauto]|].
  destruct (String.eqb a s) eqn:E.
  - apply String.eqb_eq in E. subst a. tauto.
  - apply String.eqb_neq in E. destruct IH as [IH1 IH2]. split.
    + constructor; [|exact IH1]. intros H. apply Ha.
      eapply removeFirst_In; eauto.
    + intros [H|H]; tauto.
Qed.

Lemma removeFirst_perm arr s :
  In s arr -> Permutation (s :: removeFirst arr s) arr.
Proof.
  induction arr as [|a arr IH]; simpl; [tauto|].
  destruct (String.eqb a s) eqn:E.
  - apply String.eqb_eq in E. now subst a.
  - apply String.eqb_neq in E. intros [H|H]; [congruence|].
    rewrite perm_swap. constructor. now apply IH.
Qed.

Lemma removeFirst_snoc arr s :
  ~ In s arr -> removeFirst (arr ++ [s]) s = arr.
Proof.
  induction arr as [|a arr IH]; simpl; intros N.
  - now rewrite String.eqb_refl.
  - destruct (String.eqb a s) eqn:E.
    + apply String.eqb_eq in E. tauto.
    + rewrite IH; tauto.
Qed.

(** X4.  A toggle of a name in a list of selected names without
    repetition: the list stays without repetition; the name is selected
    afterwards exactly when it was not before; no other name is touched;
    toggling twice gives the selection back, as the same list when the
    name was not selected, and with the name moved to the end when it
    was. *)
Theorem toggle_flips_membership : forall arr s,
  NoDup arr ->
  NoDup (toggle arr s)
  /\ (In s (toggle arr s) <-> ~ In s arr)
  /\ (forall x, x <> s -> (In x (toggle arr s) <-> In x arr))
  /\ (~ In s arr -> toggle (toggle arr s) s = arr)
  /\ (In s arr -> toggle (toggle arr s) s = removeFirst arr s ++ [s])
  /\ Permutation (toggle (toggle arr s) s) arr.
Proof.
  intros arr s ND.
  destruct (in_dec string_dec s arr) as [I|N].
  - rewrite (toggle_present arr s I).
    destruct (removeFirst_NoDup arr s ND) as [ND' N'].
    rewrite (toggle_absent _ s N').
    split; [exact ND'|]. split; [tauto|]. split; [|split; [tauto|split]].
    + intros x Nx. split; [apply removeFirst_In|now apply removeFirst_other].
    + reflexivity.
    + rewrite <- Permutation_cons_append. now apply removeFirst_perm.
  - rewrite (toggle_absent arr s N).
    assert (I : In s (arr ++ [s])) by (apply in_or_app; right; now left).
    rewrite (toggle_present _ s I), (removeFirst_snoc arr s N).
    split; [|split; [tauto|split; [|split; [reflexivity|split]]]].
    + apply NoDup_app; [exact ND|repeat constructor; simpl; tauto|].
      intros a Ha [<-|[]]. contradiction.
    + intros x Nx. rewrite in_app_iff. simpl. intuition congruence.
    + tauto.
    + reflexivity.
Qed.

Lemma toggle_flips_membership_witness :
  toggle (toggle ["m1"; "m2"] "m3") "m3" = ["m1"; "m2"].
Proof.
  refine (proj1 (proj2 (proj2 (proj2
            (toggle_flips_membership ["m1"; "m2"] "m3" _)))) _).
  - repeat constructor; simpl; intuition discriminate.
  - simpl. intuition discriminate.
Defined.

Lemma loadArr_key (l old : list string) :
  old = [] -> loadArr (key (DataService.nonEmpty l) l) old = l.
Proof. intros ->. now destruct l. Qed.

Lemma loadNum_key (z : Z) :
  (0 <= z)%Z -> loadNum (key (0 <? z)%Z z) 0%Z = z.
Proof.
  intros H. unfold key, loadNum.
  destruct (Z.ltb_spec 0 z) as [P|P].
  - destruct (Z.eqb_spec z 0); [lia|reflexivity].
  - lia.
Qed.

Lemma loadStr_key (x : string) : loadStr (key (truthy x) x) "" = x.
Proof. now destruct x. Qed.

(** X5.  A state saved to the hash and loaded into the state the page
    starts with comes back as it was, but for the list of post ids, which
    is not saved: this holds whenever the two thresholds are not
    negative, the selected post, if any, is not the empty string, and the
    tab is not the empty string. *)
Theorem hash_round_trip : forall st,
  (0 <= minUpvotes (engagement (filters st)))%Z ->
  (0 <= minComments (engagement (filters st)))%Z ->
  selectedPost st <> Some ""%string ->
  tab st <> ""%string ->
  loadFromHash (saveToHash st) initial = setPostIds st None.
Proof.
  intros [[sub aut tg cn [mu mc] q ids] sel tb] Hu Hc Hs Ht.
  simpl in *.
  change (setPostIds _ None)
    with (mk (mkFilters sub aut tg cn (mkEngagement mu mc) q None) sel tb).
  unfold saveToHash. cbn [filters selectedPost tab
    submolts authors tags classNotes engagement search postIds
    minUpvotes minComments].
  set (state := HashState.mk _ _ _ _ _ _ _ _ _).
  assert (L : loadFromHash (Some state) initial
              = mk (mkFilters sub aut tg cn (mkEngagement mu mc) q None)
                   sel tb).
  { unfold loadFromHash, state, initial, emptyFilters.
    cbn [HashState.s HashState.a HashState.t_ HashState.n HashState.u
         HashState.c HashState.q HashState.p HashState.tab
         filters selectedPost tab submolts authors tags classNotes
         engagement search postIds minUpvotes minComments].
    rewrite !loadArr_key by reflexivity.
    rewrite !loadNum_key by assumption.
    rewrite loadStr_key. f_equal.
    - destruct sel as [[|c x]|]; try reflexivity. congruence.
    - destruct tb as [|c x]; [congruence|]. cbn [truthy andb].
      destruct (String.eqb (String c x) "overview") eqn:E; cbn.
      + apply String.eqb_eq in E. now rewrite E.
      + reflexivity. }
  destruct (hasKeys state) eqn:K; [exact L|]. clear L.
  unfold hasKeys, state in K. cbn in K.
  destruct sub, aut, tg, cn; cbn in K; try discriminate.
  destruct (0 <? mu)%Z eqn:Eu; cbn in K; try discriminate.
  destruct (0 <? mc)%Z eqn:Ec; cbn in K; try discriminate.
  destruct q; cbn in K; try discriminate.
  destruct sel as [[|c x]|]; cbn in K; try discriminate; try congruence.
  destruct tb as [|c x]; [congruence|].
  destruct (String.eqb (String c x) "overview") eqn:E; cbn in K;
    try discriminate.
  apply String.eqb_eq in E. apply Z.ltb_ge in Eu, Ec.
  rewrite E. replace mu with 0%Z by lia. replace mc with 0%Z by lia.
  reflexivity.
Qed.

Lemma hash_round_trip_witness :
  loadFromHash
    (saveToHash (mk (mkFilters ["m1"] [] ["style:dry"] []
                               (mkEngagement 10 0) "cat" (Some ["P1"]))
                    (Some "P2") "spaces"))
    initial
  = mk (mkFilters ["m1"] [] ["style:dry"] []
                  (mkEngagement 10 0) "cat" None)
       (Some "P2") "spaces".
Proof.
  refine (hash_round_trip
            (mk (mkFilters ["m1"] [] ["style:dry"] []
                           (mkEngagement 10 0) "cat" (Some ["P1"]))
                (Some "P2") "spaces") _ _ _ _).
  - simpl. lia.
  - simpl. lia.
  - discriminate.
  - discriminate.
Defined.



(** X22.  Loading the hash that was just saved into the state it was
    saved from changes nothing, whatever the state; and loading a hash a
    second time changes nothing more. *)
Theorem saved_hash_reloads_in_place :
  (forall st, loadFromHash (saveToHash st) st = st)
  /\ (forall hash st,
        loadFromHash hash (loadFromHash hash st) = loadFromHash hash st).
Proof.
  split.
  - intros [[sub aut tg cn [mu mc] q ids] sel tb].
    unfold saveToHash. cbv zeta.
    destruct (hasKeys _); [|reflexivity].
    unfold loadFromHash.
    cbn [filters submolts authors tags classNotes engagement search postIds
         minUpvotes minComments selectedPost tab
         HashState.s HashState.a HashState.t_ HashState.n HashState.u
         HashState.c HashState.q HashState.p HashState.tab].
    assert (A : forall (c : bool) (l : list string), loadArr (key c l) l = l)
      by (intros [] l; reflexivity).
    assert (N : forall (c : bool) z, loadNum (key c z) z = z)
      by (intros [] z; simpl; [destruct (z =? 0)%Z|]; reflexivity).
    assert (S : forall (c : bool) x, loadStr (key c x) x = x)
      by (intros [] x; simpl; [destruct (truthy x)|]; reflexivity).
    rewrite !A, !N, !S. f_equal.
    destruct sel as [id|]; [|reflexivity].
    destruct (truthy id) eqn:T; simpl; [now rewrite T|reflexivity].
  - intros [h|] st; [|reflexivity].
    destruct st as [[sub aut tg cn [mu mc] q ids] sel tb].
    destruct h as [hs ha ht hn hu hc hq hp htab].
    unfold loadFromHash.
    cbn [filters submolts authors tags classNotes engagement search postIds
         minUpvotes minComments selectedPost tab
         HashState.s HashState.a HashState.t_ HashState.n HashState.u
         HashState.c HashState.q HashState.p HashState.tab].
    assert (A : forall o (l : list string),
                 loadArr o (loadArr o l) = loadArr o l)
      by (intros [l'|] l; reflexivity).
    assert (N : forall o z, loadNum o (loadNum o z) = loadNum o z).
    { intros [z'|] z; [|reflexivity]. simpl.
      destruct (z' =? 0)%Z eqn:E; simpl; rewrite ?E; reflexivity. }
    assert (S : forall o x, loadStr o (loadStr o x) = loadStr o x).
    { intros [z'|] z; [|reflexivity]. simpl.
      destruct (truthy z') eqn:E; simpl; rewrite ?E; reflexivity. }
    rewrite !A, !N, !S. f_equal.
    now destruct (truthyOpt hp).
Qed.

(** *** The filter chips *)

(** The action of a chip leads its click back to the filter it shows. *)
Lemma chipClick_dispatch st x :
  chipClick ("submolt:" ++ x) st = toggleSubmoltFilter st x
  /\ chipClick ("author:" ++ x) st = toggleAuthorFilter st x
  /\ chipClick ("tag:" ++ x) st = toggleTagFilter st x
  /\ chipClick ("note:" ++ x) st = toggleClassNoteFilter st x
  /\ chipClick "search" st = setSearch st ""
  /\ chipClick "minUp" st = setEngagement st f_minUpvotes 0
  /\ chipClick "minComm" st = setEngagement st f_minComments 0.
Proof. repeat split; reflexivity. Qed.

Lemma removeFirst_length arr s :
  In s arr -> List.length arr = S (List.length (removeFirst arr s)).
Proof.
  induction arr as [|a arr IH]; simpl; [tauto|].
  destruct (String.eqb a s) eqn:E; [reflexivity|].
  apply String.eqb_neq in E. intros [H|H]; [congruence|].
  simpl. now rewrite <- IH.
Qed.

(** What the click on a chip of a list does to the chips of that list. *)
Lemma list_chip_removed (mk : string -> Chip.t) (arr : list string) x :
  (forall a b, mk a = mk b -> a = b) ->
  NoDup arr -> In x arr ->
  ~ In (mk x) (map mk (toggle arr x))
  /\ incl (map mk (toggle arr x)) (map mk arr)
  /\ List.length (map mk arr) = S (List.length (map mk (toggle arr x))).
Proof.
  intros Inj ND I. rewrite (toggle_present arr x I).
  destruct (removeFirst_NoDup arr x ND) as [_ N].
  split; [|split].
  - intros H. apply in_map_iff in H as (y & E & Hy).
    apply Inj in E. now subst y.
  - intros c Hc. apply in_map_iff in Hc as (y & <- & Hy).
    apply in_map. eapply removeFirst_In; eauto.
  - rewrite !length_map. now apply removeFirst_length.
Qed.

(** Splits a membership in the chips into the seven kinds of chip. *)
Ltac chip_cases H :=
  repeat (apply in_app_or in H; destruct H as [H|H]);
  try (apply in_map_iff in H;
       let l := fresh "lbl" in let Hl := fresh "Hlbl" in
       destruct H as (l & H & Hl));
  try (match type of H with In _ (if ?b then _ else _) =>
         destruct b eqn:?; [destruct H as [H|[]]|destruct H] end).


(** The handler run on the action of a chip as [chips] holds it
    removes that chip and no other. *)
Lemma action_removes_the_chip : forall st c,
  NoDup (submolts (filters st)) -> NoDup (authors (filters st)) ->
  NoDup (tags (filters st)) -> NoDup (classNotes (filters st)) ->
  In c (chipsOf st) ->
  let after := chipsOf (chipClick (Chip.action c) st) in
  ~ In c after
  /\ incl after (chipsOf st)
  /\ List.length (chipsOf st) = S (List.length after).
Proof.
  intros [[sub aut tg cn [mu mc] q ids] sel tb] c.
  cbn [filters submolts authors tags classNotes].
  intros N1 N2 N3 N4 Hc. cbv zeta.
  assert (I1 : forall a b, Chip.mk "submolt" a ("submolt:" ++ a)
                           = Chip.mk "submolt" b ("submolt:" ++ b) -> a = b)
    by (intros a b [= ?]; assumption).
  assert (I2 : forall a b, Chip.mk "author" a ("author:" ++ a)
                           = Chip.mk "author" b ("author:" ++ b) -> a = b)
    by (intros a b [= ?]; assumption).
  assert (I3 : forall a b, Chip.mk "tag" a ("tag:" ++ a)
                           = Chip.mk "tag" b ("tag:" ++ b) -> a = b)
    by (intros a b [= ?]; assumption).
  assert (I4 : forall a b, Chip.mk "note" a ("note:" ++ a)
                           = Chip.mk "note" b ("note:" ++ b) -> a = b)
    by (intros a b [= ?]; assumption).
  unfold chipsOf in Hc.
  cbn [filters submolts authors tags classNotes engagement search
       minUpvotes minComments] in Hc.
  chip_cases Hc; subst c; cbn [Chip.action].
  - (* a community *)
    change (chipClick ("submolt:" ++ lbl) ?s) with (toggleSubmoltFilter s lbl).
    destruct (list_chip_removed _ sub lbl I1 N1 Hlbl) as (A & B & C).
    unfold chipsOf, toggleSubmoltFilter, withFilters.
    cbn [filters submolts authors tags classNotes engagement search
         minUpvotes minComments].
    split; [|split].
    + intros H'. apply in_app_or in H' as [H'|H']; [tauto|].
      chip_cases H'; discriminate.
    + apply incl_app; [now apply incl_appl|now apply incl_appr, incl_refl].
    + rewrite !length_app, C. reflexivity.
  - (* an author *)
    change (chipClick ("author:" ++ lbl) ?s) with (toggleAuthorFilter s lbl).
    destruct (list_chip_removed _ aut lbl I2 N2 Hlbl) as (A & B & C).
    unfold chipsOf, toggleAuthorFilter, withFilters.
    cbn [filters submolts authors tags classNotes engagement search
         minUpvotes minComments].
    split; [|split].
    + intros H'. apply in_app_or in H' as [H'|H'];
        [apply in_map_iff in H' as (? & H' & _); discriminate|].
      apply in_app_or in H' as [H'|H']; [tauto|].
      chip_cases H'; discriminate.
    + apply incl_app; [now apply incl_appl, incl_refl|].
      apply incl_appr, incl_app;
        [now apply incl_appl|now apply incl_appr, incl_refl].
    + rewrite !length_app, C. simpl. lia.
  - (* a tag *)
    change (chipClick ("tag:" ++ lbl) ?s) with (toggleTagFilter s lbl).
    destruct (list_chip_removed _ tg lbl I3 N3 Hlbl) as (A & B & C).
    unfold chipsOf, toggleTagFilter, withFilters.
    cbn [filters submolts authors tags classNotes engagement search
         minUpvotes minComments].
    split; [|split].
    + intros H'. apply in_app_or in H' as [H'|H'];
        [apply in_map_iff in H' as (? & H' & _); discriminate|].
      apply in_app_or in H' as [H'|H'];
        [apply in_map_iff in H' as (? & H' & _); discriminate|].
      apply in_app_or in H' as [H'|H']; [tauto|].
      chip_cases H'; discriminate.
    + apply incl_app; [now apply incl_appl, incl_refl|].
      apply incl_appr, incl_app; [now apply incl_appl, incl_refl|].
      apply incl_appr, incl_app;
        [now apply incl_appl|now apply incl_appr, incl_refl].
    + rewrite !length_app, C. simpl. lia.
  - (* a class note *)
    change (chipClick ("note:" ++ lbl) ?s) with (toggleClassNoteFilter s lbl).
    destruct (list_chip_removed _ cn lbl I4 N4 Hlbl) as (A & B & C).
    unfold chipsOf, toggleClassNoteFilter, withFilters.
    cbn [filters submolts authors tags classNotes engagement search
         minUpvotes minComments].
    split; [|split].
    + intros H'. apply in_app_or in H' as [H'|H'];
        [apply in_map_iff in H' as (? & H' & _); discriminate|].
      apply in_app_or in H' as [H'|H'];
        [apply in_map_iff in H' as (? & H' & _); discriminate|].
      apply in_app_or in H' as [H'|H'];
        [apply in_map_iff in H' as (? & H' & _); discriminate|].
      apply in_app_or in H' as [H'|H']; [tauto|].
      chip_cases H'; discriminate.
    + apply incl_app; [now apply incl_appl, incl_refl|].
      apply incl_appr, incl_app; [now apply incl_appl, incl_refl|].
      apply incl_appr, incl_app; [now apply incl_appl, incl_refl|].
      apply incl_appr, incl_app;
        [now apply incl_appl|now apply incl_appr, incl_refl].
    + rewrite !length_app, C. simpl. lia.
  - (* the search string *)
    change (chipClick "search" ?s) with (setSearch s "").
    unfold chipsOf, setSearch, withFilters, DataService.withSearch.
    cbn [filters submolts authors tags classNotes engagement search
         minUpvotes minComments truthy].
    match goal with E : truthy q = true |- _ => rewrite E end.
    split; [|split].
    + intros H'. chip_cases H'; try discriminate; now simpl in H'.
    + intros c Hc. rewrite !in_app_iff in *. simpl in *. tauto.
    + rewrite !length_app. simpl. lia.
  - (* the minimum of upvotes *)
    change (chipClick "minUp" ?s) with (setEngagement s f_minUpvotes 0).
    unfold chipsOf, setEngagement, withFilters.
    cbn [filters submolts authors tags classNotes engagement search
         minUpvotes minComments].
    match goal with E : (0 <? mu)%Z = true |- _ => rewrite E end.
    change (0 <? 0)%Z with false.
    split; [|split].
    + intros H'. chip_cases H'; try discriminate; now simpl in H'.
    + intros c Hc. rewrite !in_app_iff in *. simpl in *. tauto.
    + rewrite !length_app. simpl. lia.
  - (* the minimum of comments *)
    change (chipClick "minComm" ?s) with (setEngagement s f_minComments 0).
    unfold chipsOf, setEngagement, withFilters.
    cbn [filters submolts authors tags classNotes engagement search
         minUpvotes minComments].
    match goal with E : (0 <? mc)%Z = true |- _ => rewrite E end.
    change (0 <? 0)%Z with false.
    split; [|split].
    + intros H'. chip_cases H'; try discriminate; now simpl in H'.
    + intros c Hc. rewrite !in_app_iff in *. simpl in *. tauto.
    + rewrite !length_app. simpl. lia.
Qed.

(** An action without a double quote is read back whole; one with a
    double quote is read back up to it. *)
Lemma dataAction_plain action : Plain action -> dataAction action = action.
Proof.
  unfold Plain. induction action as [|c action IH]; [reflexivity|].
  cbn [list_ascii_of_string forallb dataAction]. intros H.
  apply andb_true_iff in H as (P & H). unfold plainUnit in P.
  destruct (Ascii.eqb c "034"); [discriminate|].
  now rewrite IH.
Qed.

Lemma dataAction_quoted u v :
  Plain u -> dataAction (u ++ quote ++ v) = u.
Proof.
  unfold Plain. induction u as [|c u IH]; [reflexivity|].
  cbn [list_ascii_of_string forallb dataAction append]. intros H.
  apply andb_true_iff in H as (P & H). unfold plainUnit in P.
  destruct (Ascii.eqb c "034"); [discriminate|].
  now rewrite IH.
Qed.

(** X8.  A click on a chip removes that chip and no other, when the
    markup of the chips reads back as it was written: with no double
    quote, ampersand, carriage return or NUL in the action of a chip,
    and the four lists without repetition, the chips after the click on
    a chip shown are among the chips before, are one fewer, and the chip
    clicked is not among them.  A double quote ends the attribute the
    action is written in: the click on the chip of the tag made of an
    a, a double quote and a b, alone in the filters, reads the action
    [tag:a], and it leaves the chip and adds the tag [a]. *)
Theorem chip_click_removes_the_chip :
  (forall st c,
      NoDup (submolts (filters st)) -> NoDup (authors (filters st)) ->
      NoDup (tags (filters st)) -> NoDup (classNotes (filters st)) ->
      Forall (fun c' => Plain (Chip.action c')) (chipsOf st) ->
      In c (chipsOf st) ->
      let after := chipsOf (click c st) in
      ~ In c after
      /\ incl after (chipsOf st)
      /\ List.length (chipsOf st) = S (List.length after))
  /\ (let t := ("a" ++ quote ++ "b")%string in
      let st := mk (mkFilters [] [] [t] [] (mkEngagement 0 0) "" None)
                   None "overview" in
      let c := Chip.mk "tag" t ("tag:" ++ t) in
      chipsOf st = [c]
      /\ dataAction (Chip.action c) = "tag:a"
      /\ tags (filters (click c st)) = [t; "a"]
      /\ chipsOf (click c st) = [c; Chip.mk "tag" "a" "tag:a"]).
Proof.
  split; [|repeat split; reflexivity].
  intros st c N1 N2 N3 N4 P Hc. unfold click.
  rewrite Forall_forall in P.
  rewrite dataAction_plain by (now apply P).
  now apply action_removes_the_chip.
Qed.

Lemma chip_click_removes_the_chip_witness :
  List.length
    (chipsOf (mk (mkFilters ["general"; "ai"] [] ["topic:ai"] []
                            (mkEngagement 5 0) "bot" None) None "overview"))
  = S (List.length
         (chipsOf (click (Chip.mk "tag" "topic:ai" "tag:topic:ai")
            (mk (mkFilters ["general"; "ai"] [] ["topic:ai"] []
                           (mkEngagement 5 0) "bot" None) None "overview")))).
Proof.
  refine (proj2 (proj2 (proj1 chip_click_removes_the_chip
    (mk (mkFilters ["general"; "ai"] [] ["topic:ai"] []
                   (mkEngagement 5 0) "bot" None) None "overview")
    (Chip.mk "tag" "topic:ai" "tag:topic:ai") _ _ _ _ _ _))).
  - repeat constructor; simpl; intuition discriminate.
  - constructor.
  - repeat constructor; simpl; intuition discriminate.
  - constructor.
  - repeat constructor.
  - simpl. tauto.
Defined.

End StateFacts.
(** ** filterPosts, the indexes and the filter actions *)

Module QueryFacts.
Import JS DataService ListFacts MapFacts FilterFacts.

Lemma In_filterPosts this f p :
  In p (filterPosts this f) <-> In p (posts this) /\ Satisfies this f p.
Proof.
  rewrite filterPosts_filter, filter_In, satisfies_Satisfies. reflexivity.
Qed.

Lemma has_single s v : has (newSet [s]) v = String.eqb s v.
Proof.
  cbn. rewrite orb_false_r. apply String.eqb_sym.
Qed.

(** X9.  With the indexes built, filtering by one community is
    filtering the entry of that community in [postsBySubmolt] by the
    other fields of the specification, and filtering by one author is
    filtering the entry of that author in [postsByAuthor]; with nothing
    else set the result is the entry itself, which is what the readers of
    a community and of an author list. *)
Theorem one_name_filter_reads_the_index : forall this f name,
  let built := buildIndexes this in
  let ofSubmolt := orElse (get (postsBySubmolt built) name) [] in
  let ofAuthor := orElse (get (postsByAuthor built) name) [] in
  filterPosts built
    (mkFilters [name] (authors f) (tags f) (classNotes f)
               (engagement f) (search f) (postIds f))
  = filterPosts (withPosts built ofSubmolt)
      (mkFilters [] (authors f) (tags f) (classNotes f)
                 (engagement f) (search f) (postIds f))
  /\ filterPosts built
       (mkFilters (submolts f) [name] (tags f) (classNotes f)
                  (engagement f) (search f) (postIds f))
     = filterPosts (withPosts built ofAuthor)
         (mkFilters (submolts f) [] (tags f) (classNotes f)
                    (engagement f) (search f) (postIds f))
  /\ filterPosts built
       (mkFilters [name] [] [] [] (mkEngagement 0 0) "" None)
     = ofSubmolt
  /\ filterPosts built
       (mkFilters [] [name] [] [] (mkEngagement 0 0) "" None)
     = ofAuthor.
Proof.
  intros this f name built ofSubmolt ofAuthor.
  assert (ES : ofSubmolt
               = filter (fun p => String.eqb name (submolt_name p))
                        (posts built))
    by apply IndexFacts.groupBy_orElse.
  assert (EA : ofAuthor
               = filter (fun p => String.eqb name (author_name p))
                        (posts built))
    by apply IndexFacts.groupBy_orElse.
  repeat split.
  - rewrite !filterPosts_filter. cbn [posts withPosts].
    rewrite ES, filter_filter_and. apply filter_ext. intros p.
    apply eq_iff_eq_true.
    rewrite andb_true_iff, !satisfies_Satisfies, String.eqb_eq.
    split.
    + intros [H1 H2 H3 H4 H5 H6 H7 H8].
      cbn [submolts authors tags classNotes engagement search postIds] in *.
      destruct H1 as [H1|[H1|[]]]; [discriminate|].
      split; [exact H1|]. constructor; auto.
    + intros [E [H1 H2 H3 H4 H5 H6 H7 H8]].
      cbn [submolts authors tags classNotes engagement search postIds] in *.
      constructor; auto.
      cbn [submolts]. right. now left.
  - rewrite !filterPosts_filter. cbn [posts withPosts].
    rewrite EA, filter_filter_and. apply filter_ext. intros p.
    apply eq_iff_eq_true.
    rewrite andb_true_iff, !satisfies_Satisfies, String.eqb_eq.
    split.
    + intros [H1 H2 H3 H4 H5 H6 H7 H8].
      cbn [submolts authors tags classNotes engagement search postIds] in *.
      destruct H2 as [H2|[H2|[]]]; [discriminate|].
      split; [exact H2|]. constructor; auto.
    + intros [E [H1 H2 H3 H4 H5 H6 H7 H8]].
      cbn [submolts authors tags classNotes engagement search postIds] in *.
      constructor; auto.
      cbn [authors]. right. now left.
  - rewrite ES. unfold filterPosts. cbn. apply filter_ext. intros p.
    unfold inSubmolts. cbn [submolts]. apply has_single.
  - rewrite EA. unfold filterPosts. cbn. apply filter_ext. intros p.
    unfold inAuthors. cbn [authors]. apply has_single.
Qed.

(** The specifications that keep at least the posts another keeps. *)
Lemma incl_filterPosts this f f' :
  (forall p, Satisfies this f p -> Satisfies this f' p) ->
  incl (filterPosts this f) (filterPosts this f').
Proof.
  intros H p. rewrite !In_filterPosts. intros [I S]. auto.
Qed.

(** X10.  Within one list of the specification the values are
    alternatives, and the lists are conditions that add up: a value added
    by its toggle to a list that is empty can only remove posts from the
    result, and a value added to a list that is not empty can only add
    posts.  This holds of the communities, the authors, the tags and the
    class notes. *)
Theorem adding_a_value_narrows_then_widens : forall this st v,
  let before := filterPosts this (StateService.filters st) in
  let narrows after := incl after before in
  let widens after := incl before after in
  let f := StateService.filters st in
  (~ In v (submolts f) ->
   let after := filterPosts this
     (StateService.filters (StateService.toggleSubmoltFilter st v)) in
   (submolts f = [] -> narrows after)
   /\ (submolts f <> [] -> widens after))
  /\ (~ In v (authors f) ->
      let after := filterPosts this
        (StateService.filters (StateService.toggleAuthorFilter st v)) in
      (authors f = [] -> narrows after)
      /\ (authors f <> [] -> widens after))
  /\ (~ In v (tags f) ->
      let after := filterPosts this
        (StateService.filters (StateService.toggleTagFilter st v)) in
      (tags f = [] -> narrows after)
      /\ (tags f <> [] -> widens after))
  /\ (~ In v (classNotes f) ->
      let after := filterPosts this
        (StateService.filters (StateService.toggleClassNoteFilter st v)) in
      (classNotes f = [] -> narrows after)
      /\ (classNotes f <> [] -> widens after)).
Proof.
  intros this [[sub aut tg cn e q ids] sel tb] v. cbv zeta.
  unfold StateService.toggleSubmoltFilter, StateService.toggleAuthorFilter,
    StateService.toggleTagFilter, StateService.toggleClassNoteFilter,
    StateService.withFilters.
  cbn [StateService.filters submolts authors tags classNotes engagement
       search postIds].
  repeat split; intros; subst;
    rewrite StateFacts.toggle_absent by assumption;
    apply incl_filterPosts; intros p [H1 H2 H3 H4 H5 H6 H7 H8];
    cbn [submolts authors tags classNotes engagement search postIds] in *;
    constructor;
    cbn [submolts authors tags classNotes engagement search postIds];
    auto.
  - destruct H1 as [H1|H1]; [contradiction|]. right. apply in_or_app. auto.
  - destruct H2 as [H2|H2]; [contradiction|]. right. apply in_or_app. auto.
  - destruct H3 as [H3|(t & Ht & H3)]; [contradiction|]. right.
    exists t. split; [exact Ht|]. apply in_or_app. auto.
  - destruct H4 as [H4|(t & Ht & H4)]; [contradiction|]. right.
    exists t. split; [exact Ht|]. apply in_or_app. auto.
Qed.

Lemma adding_a_value_narrows_then_widens_witness :
  incl (filterPosts Sample.corpus
          (StateService.filters
             (StateService.toggleSubmoltFilter StateService.initial "m1")))
       (filterPosts Sample.corpus (StateService.filters StateService.initial)).
Proof.
  refine (proj1 (proj1 (adding_a_value_narrows_then_widens
                          Sample.corpus StateService.initial "m1") _) _).
  - simpl. tauto.
  - reflexivity.
Defined.

(** X11.  A lower threshold keeps every post a higher one keeps: with
    [v' <= v], the posts that pass with the minimum of upvotes, or of
    comments, set to [v] pass with it set to [v'].  A threshold of zero or
    less keeps the posts of every threshold. *)
Theorem lower_threshold_keeps_posts : forall this st field v v',
  (v' <= v)%Z ->
  incl (filterPosts this
          (StateService.filters (StateService.setEngagement st field v)))
       (filterPosts this
          (StateService.filters (StateService.setEngagement st field v'))).
Proof.
  intros this [[sub aut tg cn [mu mc] q ids] sel tb] field v v' L.
  unfold StateService.setEngagement, StateService.withFilters.
  cbn [StateService.filters submolts authors tags classNotes engagement
       search postIds minUpvotes minComments].
  apply incl_filterPosts. intros p [H1 H2 H3 H4 H5 H6 H7 H8].
  destruct field;
    cbn [submolts authors tags classNotes engagement search postIds
         minUpvotes minComments] in *;
    constructor;
    cbn [submolts authors tags classNotes engagement search postIds
         minUpvotes minComments];
    auto; lia.
Qed.

Lemma lower_threshold_keeps_posts_witness :
  incl (filterPosts Sample.corpus
          (StateService.filters
             (StateService.setEngagement StateService.initial
                StateService.f_minUpvotes 10)))
       (filterPosts Sample.corpus
          (StateService.filters
             (StateService.setEngagement StateService.initial
                StateService.f_minUpvotes 4))).
Proof.
  apply (lower_threshold_keeps_posts Sample.corpus StateService.initial
           StateService.f_minUpvotes 10 4).
  lia.
Defined.

End QueryFacts.
(** ** sortPosts, the results table and findOutliers *)

Module OrderFacts.
Import JS DataService ListFacts SortFacts Integrity.

Lemma sortCmp_le localeCompare f asc a b :
  le (sortCmp localeCompare (by_num f) asc) a b <-> inOrder f asc a b.
Proof.
  unfold le, sortCmp, inOrder, signZ.
  destruct asc.
  - rewrite Z.compare_gt_iff. lia.
  - destruct (Z.compare_spec (getNum f a - getNum f b) 0); simpl;
      split; intros; try lia; try discriminate; congruence.
Qed.

Lemma sortPosts_sorted localeCompare posts f asc :
  StronglySorted (inOrder f asc) (sortPosts localeCompare posts (by_num f) asc).
Proof.
  apply (StronglySorted_weaken (le (sortCmp localeCompare (by_num f) asc))).
  - intros a b. apply sortCmp_le.
  - apply sort_sorted.
    + intros a b H. fold (le (sortCmp localeCompare (by_num f) asc) b a).
      apply sortCmp_le.
      assert (N : ~ le (sortCmp localeCompare (by_num f) asc) a b)
        by (unfold le; intros C; now apply C).
      rewrite sortCmp_le in N. unfold inOrder in *. destruct asc; lia.
    + intros a b c. rewrite !sortCmp_le. unfold inOrder.
      destruct asc; lia.
Qed.

(** X12.  [sortPosts] returns the posts it is given, rearranged, for
    every field and direction.  By a numeric field the result is in the
    order asked, descending unless [asc] is set, and posts of equal value
    keep the order they had in the input.  This holds whatever the
    collation of the platform is. *)
Theorem sortPosts_order : forall localeCompare posts asc,
  (forall field, Permutation (sortPosts localeCompare posts field asc) posts)
  /\ (forall f,
        StronglySorted (inOrder f asc) (sortPosts localeCompare posts (by_num f) asc))
  /\ (forall f v,
        filter (fun p => (getNum f p =? v)%Z)
               (sortPosts localeCompare posts (by_num f) asc)
        = filter (fun p => (getNum f p =? v)%Z) posts).
Proof.
  intros localeCompare posts asc. split; [|split].
  - intros field. apply sort_perm.
  - intros f. apply sortPosts_sorted.
  - intros f v. apply sort_stable. intros a b Ha Hb.
    apply Z.eqb_eq in Ha, Hb.
    fold (le (sortCmp localeCompare (by_num f) asc) a b). apply sortCmp_le.
    unfold inOrder. destruct asc; lia.
Qed.

(** In a sorted list every element of a front part is in order with
    every element of the rest. *)
Lemma sorted_app {A} (R : A -> A -> Prop) (l1 l2 : list A) :
  StronglySorted R (l1 ++ l2) ->
  forall a b, In a l1 -> In b l2 -> R a b.
Proof.
  induction l1 as [|x l1 IH]; intros S a b Ha Hb; [destruct Ha|].
  simpl in S. apply StronglySorted_inv in S as [S F].
  destruct Ha as [<-|Ha].
  - rewrite Forall_forall in F. apply F. apply in_or_app. now right.
  - now apply IH.
Qed.

(** X13.  The results table shows at most 500 rows.  The rows and the
    posts left out are together the posts given; by a numeric field the
    rows are in descending order and no post left out has a greater value
    than a row.  This holds whatever the collation of the platform is. *)
Theorem table_rows_are_the_top : forall localeCompare posts,
  (forall field,
      List.length (Table.rows localeCompare posts field)
      = Nat.min 500 (List.length posts)
      /\ exists rest, Permutation (Table.rows localeCompare posts field ++ rest) posts)
  /\ (forall f,
        StronglySorted (fun a b => (getNum f b <= getNum f a)%Z)
                       (Table.rows localeCompare posts (by_num f))
        /\ exists rest,
             Permutation (Table.rows localeCompare posts (by_num f) ++ rest) posts
             /\ forall a b, In a (Table.rows localeCompare posts (by_num f)) ->
                            In b rest ->
                            (getNum f b <= getNum f a)%Z).
Proof.
  intros localeCompare posts. unfold Table.rows, slice0. split.
  - intros field. split.
    + rewrite length_firstn. unfold sortPosts.
      now rewrite (Permutation_length (sort_perm _ posts)).
    + exists (skipn 500 (sortPosts localeCompare posts field false)).
      rewrite firstn_skipn. apply sort_perm.
  - intros f. split.
    + apply StronglySorted_firstn.
      apply (sortPosts_sorted localeCompare posts f false).
    + exists (skipn 500 (sortPosts localeCompare posts (by_num f) false)). split.
      * rewrite firstn_skipn. apply sort_perm.
      * apply (sorted_app (inOrder f false)).
        rewrite firstn_skipn. apply sortPosts_sorted.
Qed.

(** *** findOutliers *)

Lemma flat_map_if {A B} (P : A -> bool) (g : A -> B) (l : list A) :
  flat_map (fun a => if P a then [g a] else []) l = map g (filter P l).
Proof.
  induction l as [|a l IH]; simpl; [reflexivity|].
  destruct (P a); simpl; now rewrite IH.
Qed.

(** In a list in descending order of [k], the elements above a bound
    come first: to take a front part and keep those above the bound is to
    keep those above the bound and take a front part. *)
Lemma filter_firstn_sorted {A} (k : A -> Z) (t : Z) (l : list A) :
  StronglySorted (fun a b => (k b <= k a)%Z) l ->
  forall n, filter (fun a => (t <? k a)%Z) (firstn n l)
            = firstn n (filter (fun a => (t <? k a)%Z) l).
Proof.
  induction 1 as [|a l S IH F]; intros n.
  - now rewrite !firstn_nil.
  - destruct n as [|n]; [reflexivity|].
    cbn [firstn filter]. destruct (t <? k a)%Z eqn:E.
    + cbn [firstn]. now rewrite IH.
    + assert (N : forall b, In b l -> (t <? k b)%Z = false).
      { intros b Hb. rewrite Forall_forall in F.
        apply Z.ltb_ge in E. apply Z.ltb_ge. specialize (F b Hb). lia. }
      rewrite (filter_none _ l N).
      rewrite (filter_none _ (firstn n l));
        [reflexivity|].
      intros b Hb. apply N. now apply In_firstn in Hb.
Qed.

Lemma sorted_filter {A} (R : A -> A -> Prop) (P : A -> bool) (l : list A) :
  StronglySorted R l -> StronglySorted R (filter P l).
Proof.
  induction 1 as [|a l S IH F]; simpl; [constructor|].
  destruct (P a); [|exact IH].
  constructor; [exact IH|].
  rewrite Forall_forall in *. intros b Hb.
  apply filter_In in Hb as [Hb _]. now apply F.
Qed.

Lemma findOutliers_parts posts :
  findOutliers posts
  = map mkHigh (topAbove upvotes 10 10 posts)
    ++ map mkLong (topAbove content_len 5000 5 posts).
Proof.
  unfold findOutliers, highUpvotes, longContent, topAbove, slice0.
  cbv zeta.
  rewrite (flat_map_if (fun p => (10 <? upvotes p)%Z) mkHigh),
    (flat_map_if (fun p => (5000 <? content_len p)%Z) mkLong).
  rewrite (filter_firstn_sorted upvotes 10)
    by apply (sort_by_Z_desc upvotes).
  rewrite (filter_firstn_sorted content_len 5000)
    by apply (sort_by_Z_desc content_len).
  reflexivity.
Qed.

Lemma filter_perm {A} (P : A -> bool) (l l' : list A) :
  Permutation l l' -> Permutation (filter P l) (filter P l').
Proof.
  induction 1 as [|a l l' H IH|a b l|l l' l'' H1 IH1 H2 IH2]; simpl.
  - constructor.
  - destruct (P a); [now constructor|exact IH].
  - destruct (P a), (P b); try reflexivity. apply perm_swap.
  - now transitivity (filter P l').
Qed.

Lemma topAbove_spec k t n posts :
  let top := topAbove k t n posts in
  List.length top
  = Nat.min n (List.length (filter (fun p => (t <? k p)%Z) posts))
  /\ StronglySorted (fun a b => (k b <= k a)%Z) top
  /\ (forall a, In a top -> In a posts /\ (t < k a)%Z)
  /\ (forall p, In p posts -> (t < k p)%Z ->
                In p top
                \/ (List.length top = n
                    /\ forall a, In a top -> (k p <= k a)%Z)).
Proof.
  intros top. unfold top, topAbove. clear top.
  set (cmp := fun a b => signZ (k b - k a)).
  set (P := fun p => (t <? k p)%Z).
  set (F := filter P (sort cmp posts)).
  assert (S : StronglySorted (fun a b => (k b <= k a)%Z) F)
    by apply sorted_filter, (sort_by_Z_desc k).
  assert (L : List.length F = List.length (filter P posts))
    by apply Permutation_length, filter_perm, sort_perm.
  assert (I : forall a, In a F <-> In a posts /\ (t < k a)%Z).
  { intros a. unfold F. rewrite filter_In, sort_In. unfold P.
    now rewrite Z.ltb_lt. }
  split; [|split; [|split]].
  - now rewrite length_firstn, L.
  - now apply StronglySorted_firstn.
  - intros a Ha. apply I. now apply In_firstn in Ha.
  - intros p Hp Hk.
    assert (Hin : In p F) by now apply I.
    rewrite <- (firstn_skipn n F) in Hin, S.
    apply in_app_or in Hin as [Hin|Hin]; [now left|right].
    split.
    + apply firstn_length_le.
      destruct (Nat.le_gt_cases n (List.length F)) as [C|C]; [exact C|].
      rewrite skipn_all2 in Hin by lia. destruct Hin.
    + intros a Ha.
      apply (sorted_app (fun a b => (k b <= k a)%Z) _ _ S a p Ha Hin).
Qed.

(** X14.  [findOutliers] reports first the posts with more than 10
    upvotes, the most upvoted first and at most 10 of them, then the posts
    with a content longer than 5000, the longest first and at most 5.  A
    post above a bound that is not reported is no greater than each of the
    10, or 5, that are.  The value of an entry is the upvotes, or the
    length, of its post. *)
Theorem findOutliers_report : forall posts,
  exists high long,
    findOutliers posts = map mkHigh high ++ map mkLong long
    /\ (List.length high
        = Nat.min 10 (List.length
                        (filter (fun p => (10 <? upvotes p)%Z) posts))
        /\ StronglySorted (fun a b => (upvotes b <= upvotes a)%Z) high
        /\ (forall a, In a high -> In a posts /\ (10 < upvotes a)%Z)
        /\ (forall p, In p posts -> (10 < upvotes p)%Z ->
                      In p high
                      \/ (List.length high = 10%nat
                          /\ forall a, In a high ->
                                       (upvotes p <= upvotes a)%Z)))
    /\ (List.length long
        = Nat.min 5 (List.length
                       (filter (fun p => (5000 <? content_len p)%Z) posts))
        /\ StronglySorted (fun a b => (content_len b <= content_len a)%Z)
                          long
        /\ (forall a, In a long -> In a posts /\ (5000 < content_len a)%Z)
        /\ (forall p, In p posts -> (5000 < content_len p)%Z ->
                      In p long
                      \/ (List.length long = 5%nat
                          /\ forall a, In a long ->
                                       (content_len p <= content_len a)%Z))).
Proof.
  intros posts.
  exists (topAbove upvotes 10 10 posts), (topAbove content_len 5000 5 posts).
  split; [apply findOutliers_parts|]. split.
  - apply (topAbove_spec upvotes 10 10 posts).
  - apply (topAbove_spec content_len 5000 5 posts).
Qed.

(** X15.  The integrity panel lists the first 8 entries of
    [findOutliers], and the entries for upvotes come first: once 8 posts
    have more than 10 upvotes, every outlier listed is one for upvotes,
    and no post is listed for the length of its content, however long. *)
Theorem long_content_is_crowded_out : forall all,
  (8 <= List.length (filter (fun p => (10 <? upvotes p)%Z) all))%nat ->
  List.length (Integrity.shownOutliers all) = 8%nat
  /\ forall o, In o (Integrity.shownOutliers all) ->
               Outlier.type o = "High Upvotes"%string.
Proof.
  intros all H. unfold Integrity.shownOutliers, slice0.
  rewrite findOutliers_parts.
  destruct (topAbove_spec upvotes 10 10 all) as (L & _).
  set (high := topAbove upvotes 10 10 all) in *.
  assert (L8 : (8 <= List.length (map mkHigh high))%nat)
    by (rewrite length_map, L; lia).
  rewrite firstn_app.
  replace (8 - List.length (map mkHigh high))%nat with 0%nat by lia.
  rewrite firstn_O, app_nil_r. split.
  - rewrite length_firstn. lia.
  - intros o Ho. apply In_firstn in Ho.
    apply in_map_iff in Ho as (p & <- & _). reflexivity.
Qed.

Lemma long_content_is_crowded_out_witness :
  List.length
    (Integrity.shownOutliers
       (map (fun i => mkPost "p" "t" "c" 6000 "a" "m" "M" (Z.of_nat i + 11)
                             0 "2026")
            (seq 0 8)))
  = 8%nat.
Proof.
  refine (proj1 (long_content_is_crowded_out _ _)).
  vm_compute. lia.
Defined.

End OrderFacts.
(** ** The rankings of tags and class notes *)

Module AggregateFacts.
Import JS DataService Aggregates ListFacts SortFacts MapFacts.

Lemma valueOf_bump k l : forall o,
  In k l ->
  valueOf (fun x : string => x) (fun o _ => (orZero o + 1)%Z) k o l
  = Some (orZero o + occurrences k l)%Z.
Proof.
  induction l as [|a l IH]; intros o H; [destruct H|].
  cbn [valueOf]. rewrite TopItemsFacts.occurrences_cons.
  destruct (String.eqb k a) eqn:E.
  - destruct (in_dec string_dec k l) as [I|I].
    + rewrite IH by exact I. unfold orZero, orElse. f_equal; lia.
    + rewrite valueOf_absent by (now rewrite map_id).
      rewrite TopItemsFacts.occurrences_absent by exact I.
      f_equal; lia.
  - apply String.eqb_neq in E. destruct H as [H|H]; [congruence|].
    rewrite IH by exact H. f_equal; lia.
Qed.

Lemma bump_accumulate keys m :
  fold_left bump keys m
  = accumulate (fun x : string => x) (fun o _ => (orZero o + 1)%Z) keys m.
Proof. reflexivity. Qed.

(** The counting loop leaves each distinct key, in the order they are
    first met, with the number of its occurrences. *)
Lemma bump_tally keys : fold_left bump keys [] = tally keys.
Proof.
  rewrite bump_accumulate.
  rewrite (accumulate_nil _ _ keys (fun k => occurrences k keys)).
  - now rewrite map_id.
  - intros k Hk. rewrite map_id in Hk.
    now rewrite valueOf_bump by exact Hk.
Qed.

Lemma fold_nested {A B S} (f : S -> B -> S) (g : A -> list B) l : forall s,
  fold_left (fun s a => fold_left f (g a) s) l s
  = fold_left f (flat_map g l) s.
Proof.
  induction l as [|a l IH]; intros s; simpl; [reflexivity|].
  now rewrite IH, fold_left_app.
Qed.

Lemma fold_mapped {B C S} (f : S -> C -> S) (h : B -> C) l : forall s,
  fold_left (fun s b => f s (h b)) l s = fold_left f (map h l) s.
Proof.
  induction l as [|b l IH]; intros s; simpl; [reflexivity|apply IH].
Qed.

Lemma pairOf_entries (counts : Map Z) :
  map pairOf (map (fun e => NameCount.mk (fst e) (snd e)) counts) = counts.
Proof.
  rewrite map_map. unfold pairOf. simpl.
  rewrite <- (map_id counts) at 2. apply map_ext. now intros [].
Qed.

Lemma ranked_tally keys : RankingOf keys (ranked (tally keys)).
Proof.
  unfold ranked. split.
  - rewrite <- (pairOf_entries (tally keys)) at 2.
    apply Permutation_map, sort_perm.
  - apply (sort_by_Z_desc NameCount.count).
  - intros c. rewrite filter_map, sort_stable.
    + rewrite <- (filter_map (fun e => (snd e =? c)%Z) pairOf).
      now rewrite pairOf_entries.
    + intros a b Ha Hb.
      apply Z.eqb_eq in Ha, Hb. unfold pairOf in Ha, Hb. simpl in Ha, Hb.
      unfold Aggregates.byCountDesc, signZ. rewrite Ha, Hb, Z.sub_diag.
      discriminate.
Qed.

Lemma tag_counts this posts :
  fold_left
    (fun counts p =>
       let tags := orElse (get (tagsByPostId this) (post_id p)) [] in
       fold_left (fun counts t => bump counts (tag t)) tags counts)
    posts []
  = tally (tagNames this posts).
Proof.
  cbv zeta.
  rewrite (fold_nested (fun counts t => bump counts (tag t))
             (fun p => orElse (get (tagsByPostId this) (post_id p)) [])).
  rewrite (fold_mapped bump tag), bump_tally. f_equal.
  unfold tagNames, tagsOf.
  induction posts as [|p posts IH]; simpl; [reflexivity|].
  now rewrite map_app, IH.
Qed.

Lemma note_counts this posts :
  fold_left
    (fun counts p =>
       let notes := orElse (get (classNotesByPostId this) (post_id p)) [] in
       fold_left (fun counts n => bump counts (class_note n)) notes counts)
    posts []
  = tally (noteNames this posts).
Proof.
  cbv zeta.
  rewrite (fold_nested (fun counts n => bump counts (class_note n))
             (fun p => orElse (get (classNotesByPostId this) (post_id p))
                              [])).
  rewrite (fold_mapped bump class_note), bump_tally. f_equal.
  unfold noteNames, classNotesOf.
  induction posts as [|p posts IH]; simpl; [reflexivity|].
  now rewrite map_app, IH.
Qed.

(** X16.  [getTopTags] is the first [limit] entries of a ranking of
    the tags of the posts given, a tag counted once for each of the posts
    that bears it: each tag is there once with that count, the counts
    descend, and tags of equal count stand in the order they are first met.
    [getTopClassNotes] is the same ranking of the class notes. *)
Theorem top_tags_and_notes_ranking : forall this posts limit,
  (exists r, getTopTags this posts limit = firstn limit r
             /\ RankingOf (tagNames this posts) r)
  /\ (exists r, getTopClassNotes this posts limit = firstn limit r
                /\ RankingOf (noteNames this posts) r).
Proof.
  intros this posts limit. split.
  - exists (ranked (tally (tagNames this posts))). split.
    + unfold getTopTags. cbv zeta. now rewrite tag_counts.
    + apply ranked_tally.
  - exists (ranked (tally (noteNames this posts))). split.
    + unfold getTopClassNotes. cbv zeta. now rewrite note_counts.
    + apply ranked_tally.
Qed.

(** *** getAllTagsGrouped *)

Lemma set_set {V} (m : Map V) k v v' : set (set m k v) k v' = set m k v'.
Proof.
  induction m as [|[k0 v0] m IH]; simpl.
  - now rewrite String.eqb_refl.
  - destruct (String.eqb k k0) eqn:E; simpl; rewrite E; [reflexivity|].
    now rewrite IH.
Qed.

(** The inner map is created empty when the prefix is new, so a turn of
    the loop counts the tag in the inner map of its prefix, the empty map
    when there is none. *)
Lemma nestedBump_step outer inner groups :
  nestedBump outer inner groups
  = set groups outer (bump (orElse (get groups outer) []) inner).
Proof.
  unfold nestedBump, hasKey.
  destruct (get groups outer) eqn:E.
  - now rewrite E.
  - rewrite get_set_same. simpl. apply set_set.
Qed.

Lemma nested_accumulate {X} (outer inner : X -> string) l : forall groups,
  fold_left (fun groups x => nestedBump (outer x) (inner x) groups) l groups
  = accumulate outer (nestedUpd inner) l groups.
Proof.
  induction l as [|t l IH]; intros groups; [reflexivity|].
  simpl. rewrite IH, nestedBump_step. reflexivity.
Qed.

Lemma valueOf_nested {X} (outer inner : X -> string) k l : forall o,
  In k (map outer l) ->
  valueOf outer (nestedUpd inner) k o l
  = Some (fold_left bump
            (map inner (filter (fun x => String.eqb k (outer x)) l))
            (orElse o [])).
Proof.
  induction l as [|a l IH]; intros o H; [destruct H|].
  cbn [valueOf filter].
  destruct (String.eqb k (outer a)) eqn:E.
  - destruct (in_dec string_dec k (map outer l)) as [I|I].
    + rewrite IH by exact I. reflexivity.
    + rewrite valueOf_absent by exact I.
      rewrite (filter_none _ l).
      * reflexivity.
      * intros t Ht. apply String.eqb_neq. intros ->. apply I.
        now apply in_map.
  - apply String.eqb_neq in E. destruct H as [H|H]; [congruence|].
    now apply IH.
Qed.

(** A loop that counts in a map of maps leaves, for each outer key in
    the order they are first met, the tally of the inner keys met with
    it. *)
Lemma nested_groups {X} (outer inner : X -> string) l :
  fold_left (fun groups x => nestedBump (outer x) (inner x) groups) l []
  = map (fun k => (k, tally (map inner
                               (filter (fun x => String.eqb k (outer x)) l))))
        (distinctInOrder (map outer l)).
Proof.
  rewrite nested_accumulate.
  apply accumulate_nil.
  intros k Hk. rewrite valueOf_nested by exact Hk.
  simpl. now rewrite bump_tally.
Qed.

(** The prefix the code reads off [split] is what stands before the
    first colon. *)
Lemma split_beforeColon t :
  match beforeColon t with
  | None => split colon t = [t]
  | Some p => exists r rest, split colon t = p :: r :: rest
  end.
Proof.
  induction t as [|c t IH]; [reflexivity|].
  cbn [beforeColon split].
  destruct (Ascii.eqb c colon).
  - destruct (split colon t) as [|r rest] eqn:E.
    + destruct (beforeColon t) as [p|]; [destruct IH as (? & ? & ?)|];
        discriminate.
    + now exists r, rest.
  - destruct (beforeColon t) as [p|]; cbn [option_map].
    + destruct IH as (r & rest & ->). now exists r, rest.
    + now rewrite IH.
Qed.

Lemma prefixOf_tagPrefix t : prefixOf t = tagPrefix t.
Proof.
  unfold prefixOf, tagPrefix. assert (H := split_beforeColon t).
  change colon with ":"%char in H.
  destruct (beforeColon t) as [p|].
  - destruct H as (r & rest & ->). reflexivity.
  - rewrite H. reflexivity.
Qed.

Lemma beforeColon_Prefixed t p :
  beforeColon t = Some p -> Prefixed t p.
Proof.
  revert p. induction t as [|c t IH]; intros p; [discriminate|].
  cbn [beforeColon]. destruct (Ascii.eqb c colon) eqn:E.
  - intros [= <-]. apply Ascii.eqb_eq in E. subst c.
    split; [now exists t|]. intros [].
  - destruct (beforeColon t) as [q|]; [|discriminate].
    intros [= <-]. destruct (IH q eq_refl) as ((rest & ->) & N).
    split; [now exists rest|].
    cbn [list_ascii_of_string]. intros [->|I]; [|now apply N].
    now rewrite Ascii.eqb_refl in E.
Qed.

Lemma beforeColon_Unprefixed t :
  beforeColon t = None -> Unprefixed t.
Proof.
  unfold Unprefixed. induction t as [|c t IH]; [intros _ []|].
  cbn [beforeColon]. destruct (Ascii.eqb c colon) eqn:E; [discriminate|].
  destruct (beforeColon t) as [q|]; [discriminate|]. intros _.
  cbn [list_ascii_of_string]. intros [->|I]; [|now apply IH].
  now rewrite Ascii.eqb_refl in E.
Qed.

Lemma tagPrefix_spec t :
  Prefixed t (tagPrefix t) \/ (Unprefixed t /\ tagPrefix t = "other").
Proof.
  unfold tagPrefix. destruct (beforeColon t) as [p|] eqn:E.
  - left. now apply beforeColon_Prefixed.
  - right. split; [now apply beforeColon_Unprefixed|reflexivity].
Qed.

Lemma groups_by_prefix this :
  fold_left (fun groups t => nestedBump (prefixOf (tag t)) (tag t) groups)
            (postTags this) []
  = map (fun k => (k, tally (tagsWithPrefix this k)))
        (distinctInOrder (map tagPrefix (map tag (postTags this)))).
Proof.
  rewrite (nested_groups (fun t => prefixOf (tag t)) tag).
  rewrite !map_map.
  rewrite (map_ext (fun t => prefixOf (tag t)) (fun t => tagPrefix (tag t)))
    by (intros t; apply prefixOf_tagPrefix).
  apply map_ext. intros k.
  unfold tagsWithPrefix. rewrite filter_map.
  rewrite (filter_ext (fun x => String.eqb k (prefixOf (tag x)))
                      (fun x => String.eqb k (tagPrefix (tag x))))
    by (intros t; now rewrite prefixOf_tagPrefix).
  reflexivity.
Qed.

Lemma ranking_names keys r :
  RankingOf keys r ->
  forall k, In k (map NameCount.name r) <-> In k keys.
Proof.
  intros [P _ _] k. rewrite <- (distinctInOrder_In keys).
  assert (E : map NameCount.name r = map fst (map pairOf r))
    by (rewrite map_map; reflexivity).
  assert (E' : distinctInOrder keys = map fst (tally keys)).
  { unfold tally. rewrite map_map. simpl. now rewrite map_id. }
  rewrite E, E'.
  split; apply Permutation_in; [|symmetry]; now apply Permutation_map.
Qed.

(** X17.  [getAllTagsGrouped] gives one group for each prefix borne by
    a tag of the table, no prefix twice, where the prefix of a tag is what
    stands before its first colon, or [other] when it has no colon.  The
    group of a prefix is never empty: it is the ranking of the tags with
    that prefix, each counted once for each row of the table that holds
    it.  Every tag of the table is in the group of its prefix: for a tag
    made of a part without a colon, a colon and a rest, the group of that
    part; for a tag without a colon, the group [other].  This holds
    whatever the collation of the platform is, by which the groups are
    put in order. *)
Theorem tags_grouped_by_prefix : forall localeCompare this,
  let result := getAllTagsGrouped localeCompare this in
  NoDup (map TagGroup.prefix result)
  /\ (forall g, In g result ->
        RankingOf (tagsWithPrefix this (TagGroup.prefix g)) (TagGroup.tags g)
        /\ TagGroup.tags g <> [])
  /\ (forall t, In t (postTags this) ->
        exists g, In g result
                  /\ TagGroup.prefix g = tagPrefix (tag t)
                  /\ In (tag t) (map NameCount.name (TagGroup.tags g)))
  /\ (forall t, In t (postTags this) ->
        forall g, In g result ->
          In (tag t) (map NameCount.name (TagGroup.tags g))
          <-> (Prefixed (tag t) (TagGroup.prefix g)
               \/ (Unprefixed (tag t) /\ TagGroup.prefix g = "other")))
  /\ (forall pre rest,
        ~ In colon (list_ascii_of_string pre) ->
        tagPrefix (pre ++ String colon rest) = pre)
  /\ (forall t, Unprefixed t -> tagPrefix t = "other").
Proof.
  intros localeCompare this result. unfold result, getAllTagsGrouped.
  cbv zeta.
  rewrite groups_by_prefix, map_map. cbn [fst snd].
  set (D := distinctInOrder (map tagPrefix (map tag (postTags this)))).
  set (mkG := fun k => TagGroup.mk k (ranked (tally (tagsWithPrefix this k)))).
  assert (P : Permutation (sort (byPrefix localeCompare) (map mkG D))
                          (map mkG D))
    by apply sort_perm.
  assert (HD : forall k, In k D
                <-> exists t, In t (postTags this) /\ tagPrefix (tag t) = k).
  { intros k. unfold D. rewrite distinctInOrder_In, map_map, in_map_iff.
    split; intros (t & A & B); exists t; tauto. }
  assert (HW : forall t, In t (postTags this) ->
                 In (tag t) (tagsWithPrefix this (tagPrefix (tag t)))).
  { intros t Ht. unfold tagsWithPrefix. apply filter_In. split.
    - now apply in_map.
    - apply String.eqb_refl. }
  assert (U1 : forall pre rest,
             ~ In colon (list_ascii_of_string pre) ->
             tagPrefix (pre ++ String colon rest) = pre).
  { intros pre rest N. unfold tagPrefix.
    induction pre as [|c pre IH]; cbn [append beforeColon].
    - now rewrite Ascii.eqb_refl.
    - cbn [list_ascii_of_string] in N.
      destruct (Ascii.eqb c colon) eqn:E.
      + apply Ascii.eqb_eq in E. exfalso. apply N. now left.
      + assert (N' : ~ In colon (list_ascii_of_string pre))
          by (intros I; apply N; now right).
        specialize (IH N').
        destruct (beforeColon (pre ++ String colon rest)) as [q|] eqn:Q;
          cbn [option_map].
        * now rewrite IH.
        * exfalso. apply beforeColon_Unprefixed in Q. apply Q.
          clear. induction pre as [|d pre IH]; [now left|now right]. }
  assert (U2 : forall t, Unprefixed t -> tagPrefix t = "other").
  { intros t N. unfold tagPrefix.
    destruct (beforeColon t) as [q|] eqn:Q; [|reflexivity].
    exfalso. apply beforeColon_Prefixed in Q as ((rest & ->) & _).
    apply N. clear.
    induction q as [|d q IH]; [now left|now right]. }
  assert (U : forall t k,
            tagPrefix t = k
            <-> (Prefixed t k \/ (Unprefixed t /\ k = "other"))).
  { intros t k. split.
    - intros <-. apply tagPrefix_spec.
    - intros [((rest & ->) & N)|(N & ->)]; [now apply U1|now apply U2]. }
  split; [|split; [|split; [|split; [|split; [exact U1|exact U2]]]]].
  - apply (Permutation_NoDup (l := map TagGroup.prefix (map mkG D))).
    + symmetry. now apply Permutation_map.
    + rewrite map_map. cbn. rewrite map_id. apply distinctInOrder_NoDup.
  - intros g Hg. apply (Permutation_in _ P) in Hg.
    apply in_map_iff in Hg as (k & <- & Hk). cbn.
    split; [apply ranked_tally|].
    apply HD in Hk as (t & Ht & <-).
    intros E.
    assert (I : In (tag t)
                   (map NameCount.name
                      (ranked (tally (tagsWithPrefix this
                                        (tagPrefix (tag t)))))))
      by (apply (ranking_names _ _ (ranked_tally _)); now apply HW).
    rewrite E in I. destruct I.
  - intros t Ht. exists (mkG (tagPrefix (tag t))). split; [|split].
    + apply (Permutation_in _ (Permutation_sym P)).
      apply in_map. apply HD. now exists t.
    + reflexivity.
    + cbn. apply (ranking_names _ _ (ranked_tally _)). now apply HW.
  - intros t Ht g Hg. apply (Permutation_in _ P) in Hg.
    apply in_map_iff in Hg as (k & <- & Hk).
    unfold mkG. cbn [TagGroup.prefix TagGroup.tags].
    rewrite <- U.
    rewrite (ranking_names _ _ (ranked_tally _)).
    unfold tagsWithPrefix. rewrite filter_In, String.eqb_eq.
    split; [intros (_ & E); now symmetry|].
    intros E. split; [now apply in_map|now symmetry].
Qed.

(** *** The lists of the filter panel and of the author card *)

Lemma insertBy_map {A B} (g : A -> B) (cmp : A -> A -> comparison)
    (cmp' : B -> B -> comparison) x l :
  (forall a b, cmp' (g a) (g b) = cmp a b) ->
  insertBy cmp' (g x) (map g l) = map g (insertBy cmp x l).
Proof.
  intros H. induction l as [|y l IH]; simpl; [reflexivity|].
  rewrite H. destruct (cmp x y); simpl; try reflexivity.
  now rewrite IH.
Qed.

Lemma sort_map {A B} (g : A -> B) (cmp : A -> A -> comparison)
    (cmp' : B -> B -> comparison) l :
  (forall a b, cmp' (g a) (g b) = cmp a b) ->
  sort cmp' (map g l) = map g (sort cmp l).
Proof.
  intros H. induction l as [|x l IH]; [reflexivity|].
  change (sort cmp' (map g (x :: l)))
    with (insertBy cmp' (g x) (sort cmp' (map g l))).
  change (sort cmp (x :: l)) with (insertBy cmp x (sort cmp l)).
  rewrite IH. now apply insertBy_map.
Qed.

Lemma sorted_pairs (counts : Map Z) :
  sort FilterLists.bySndDesc counts = map pairOf (ranked counts).
Proof.
  unfold ranked.
  rewrite <- (sort_map pairOf Aggregates.byCountDesc FilterLists.bySndDesc)
    by reflexivity.
  now rewrite pairOf_entries.
Qed.

Lemma sorted_items (counts : Map Z) (displays : Map string) :
  sort FilterLists.bySndDesc counts
  = map nameCount
      (sort DataService.byCountDesc
         (map (fun e => Item.mk (fst e) (snd e)
                          (orName (get displays (fst e)) (fst e)))
              counts)).
Proof.
  rewrite <- (sort_map nameCount DataService.byCountDesc
                FilterLists.bySndDesc) by reflexivity.
  rewrite map_map. unfold nameCount. cbn.
  f_equal. rewrite <- (map_id counts) at 1. apply map_ext. now intros [].
Qed.

Lemma submolt_counts posts :
  fold_left (fun counts p => bump counts (submolt_name p)) posts []
  = accumulate (getStr f_submolt_name) countUpd posts [].
Proof. reflexivity. Qed.

(** X18.  The lists the interface counts for itself are those of the
    engine: the communities of the filter panel are the names and counts
    of [getTopItems] over the corpus by community with limit 20, its class
    notes those of [getTopClassNotes] with limit 15; and the card of an
    author, shown when the built index has posts under the name, lists
    under [Active In] the names and counts of [getTopItems] with limit 5
    over the posts of the corpus by that author. *)
Theorem panel_lists_are_the_engine_rankings : forall this all displayField,
  FilterLists.topSubmolts all
  = map nameCount (getTopItems all f_submolt_name 20 displayField)
  /\ FilterLists.topNotes this all
     = map pairOf (getTopClassNotes this all 15)
  /\ forall name,
       let byAuthor :=
         filter (fun p => String.eqb name (author_name p)) (posts this) in
       Reader.activeIn (buildIndexes this) name
       = if (List.length byAuthor =? 0)%nat then None
         else Some (map nameCount
                      (getTopItems byAuthor f_submolt_name 5 None)).
Proof.
  intros this all displayField. split; [|split].
  - unfold FilterLists.topSubmolts, getTopItems, slice0. cbv zeta.
    rewrite TopItemsFacts.countStep_accumulate, submolt_counts.
    rewrite <- firstn_map. f_equal. apply sorted_items.
  - unfold FilterLists.topNotes, getTopClassNotes, slice0. cbv zeta.
    rewrite <- firstn_map. f_equal. apply sorted_pairs.
  - intros name byAuthor. unfold Reader.activeIn. cbv zeta.
    cbn [postsByAuthor buildIndexes].
    rewrite IndexFacts.groupBy_orElse. fold byAuthor.
    destruct (List.length byAuthor =? 0)%nat; [reflexivity|].
    f_equal. unfold getTopItems, slice0.
    rewrite TopItemsFacts.countStep_accumulate, submolt_counts.
    rewrite <- firstn_map. f_equal. apply sorted_items.
Qed.

End AggregateFacts.
(** ** The network of authors and communities *)

Module BridgeFacts.
Import JS DataService Aggregates Network BridgeNetwork.
Import ListFacts SortFacts MapFacts.















End BridgeFacts.
(** ** Selections and the posts shown *)

Module SelectionQueryFacts.
Import JS DataService ListFacts MapFacts FilterFacts QueryFacts.
Import Selection EmbeddingsEvents.

Lemma In_filter_postIds this f ids p :
  ids <> [] ->
  In p (filterPosts this (Selection.setPostIds f ids))
  <-> In p (filterPosts this (withoutPostIds f)) /\ In (post_id p) ids.
Proof.
  intros N. rewrite !In_filterPosts. split.
  - intros [I [H1 H2 H3 H4 H5 H6 H7 H8]].
    cbn [Selection.setPostIds submolts authors tags classNotes engagement
         search postIds] in *.
    split.
    + split; [exact I|]. constructor; auto.
    + destruct H8 as [H8|[H8|(ids' & E & H8)]]; try congruence.
  - intros [[I [H1 H2 H3 H4 H5 H6 H7 H8]] Hp].
    cbn [withoutPostIds submolts authors tags classNotes engagement
         search postIds] in *.
    split; [exact I|]. constructor; auto.
    cbn [Selection.setPostIds postIds]. right. right. now exists ids.
Qed.

Lemma In_filter_submolts this f names p :
  names <> [] ->
  In p (filterPosts this (setSubmolts f names))
  <-> In p (filterPosts this (setSubmolts f []))
      /\ In (submolt_name p) names.
Proof.
  intros N. rewrite !In_filterPosts. split.
  - intros [I [H1 H2 H3 H4 H5 H6 H7 H8]].
    cbn [setSubmolts submolts authors tags classNotes engagement
         search postIds] in *.
    destruct H1 as [H1|H1]; [congruence|].
    split; [|exact H1]. split; [exact I|]. constructor; auto.
  - intros [[I [H1 H2 H3 H4 H5 H6 H7 H8]] Hp].
    cbn [setSubmolts submolts authors tags classNotes engagement
         search postIds] in *.
    split; [exact I|]. constructor; auto.
Qed.

(** X20.  What a rectangle drag does to the posts shown.  When the
    drag selects nothing, because the rectangle is too small or holds no
    point, the filters stay as they are, an earlier selection included.
    Otherwise, in the embeddings plot the posts shown are those that pass
    the other filters and whose id is selected; in the plot of
    communities they are those that pass the other filters and whose
    community is selected, the communities chosen before being
    replaced. *)
Theorem rectangle_drag_and_the_posts_shown :
  forall this xScale yScale start mouse f,
  (forall embs,
     let sel := selection xScale yScale x y emb_post_id embs start mouse in
     let after := Selection.filters
                    (mouseupEmbeddings xScale yScale embs mouse
                                       (mkState (Some start) f)) in
     (sel = [] -> after = f)
     /\ (sel <> [] -> forall p,
           In p (filterPosts this after)
           <-> In p (filterPosts this (withoutPostIds f))
               /\ In (post_id p) sel))
  /\ (forall umap,
        let sel := selection xScale yScale umap_x umap_y umap_submolt_name
                             umap start mouse in
        let after := Selection.filters
                       (mouseupSpaces xScale yScale umap mouse
                                      (mkState (Some start) f)) in
        (sel = [] -> after = f)
        /\ (sel <> [] -> forall p,
              In p (filterPosts this after)
              <-> In p (filterPosts this (setSubmolts f []))
                  /\ In (submolt_name p) sel)).
Proof.
  intros this xScale yScale start mouse f. split.
  - intros embs sel after. unfold after.
    rewrite SelectionFacts.mouseupEmbeddings_selection. fold sel.
    cbn [Selection.filters]. split.
    + now intros ->.
    + intros N p. destruct sel as [|i ids] eqn:E; [congruence|].
      now apply In_filter_postIds.
  - intros umap sel after. unfold after.
    rewrite SelectionFacts.mouseupSpaces_selection. fold sel.
    cbn [Selection.filters]. split.
    + now intros ->.
    + intros N p. destruct sel as [|i ids] eqn:E; [congruence|].
      now apply In_filter_submolts.
Qed.

Lemma rectangle_drag_and_the_posts_shown_witness :
  In Sample.P1
     (filterPosts Sample.embedded
        (Selection.filters
           (mouseupEmbeddings Sample.xScale Sample.yScale
              (postEmbeddings Sample.embedded) (Num.ofZ 170, Num.ofZ 250)
              (mkState (Some (Num.ofZ 130, Num.ofZ 230)) emptyFilters))))
  <-> In Sample.P1
         (filterPosts Sample.embedded (withoutPostIds emptyFilters))
      /\ In (post_id Sample.P1)
            (selection Sample.xScale Sample.yScale x y emb_post_id
               (postEmbeddings Sample.embedded)
               (Num.ofZ 130, Num.ofZ 230) (Num.ofZ 170, Num.ofZ 250)).
Proof.
  refine (proj2 (proj1 (rectangle_drag_and_the_posts_shown
            Sample.embedded Sample.xScale Sample.yScale
            (Num.ofZ 130, Num.ofZ 230) (Num.ofZ 170, Num.ofZ 250) emptyFilters)
            (postEmbeddings Sample.embedded)) _ Sample.P1).
  vm_compute. discriminate.
Defined.

(** X21.  The button that finds similar posts, pressed with a post
    selected, leaves every filter but the list of post ids as it is and
    sets that list to the selected id followed by the ids of the ten
    nearest posts.  The posts shown are then those that pass the other
    filters and are the selected post or one of the ten; with distinct
    post ids in the corpus they are at most 11, and for a selected post
    without an embedding only that post is left. *)
Theorem find_similar_and_the_posts_shown : forall this0 id st,
  truthy id = true ->
  NoDup (map post_id (posts this0)) ->
  let this := buildIndexes this0 in
  let others := withoutPostIds (StateService.filters st) in
  let shown :=
    filterPosts this
      (StateService.filters (findSimilarClick this (Some id) st)) in
  withoutPostIds
    (StateService.filters (findSimilarClick this (Some id) st)) = others
  /\ (forall p, In p shown <->
                In p (filterPosts this others)
                /\ (post_id p = id
                    \/ In (post_id p)
                          (map post_id (findSimilarPosts this id 10))))
  /\ (List.length shown <= 11)%nat
  /\ (get (embeddingByPostId this) id = None ->
      forall p, In p shown -> post_id p = id).
Proof.
  intros this0 id st T ND this others shown.
  assert (E : StateService.filters (findSimilarClick this (Some id) st)
              = Selection.setPostIds (StateService.filters st)
                                     (similarIds this id)).
  { unfold findSimilarClick. rewrite T. reflexivity. }
  assert (S : forall p, In p shown <->
                In p (filterPosts this others)
                /\ In (post_id p) (similarIds this id)).
  { intros p. unfold shown. rewrite E.
    apply In_filter_postIds. discriminate. }
  split; [now rewrite E|]. split; [|split].
  - intros p. rewrite S. unfold similarIds. simpl.
    split; intros [A [B|B]]; auto.
  - assert (L : (List.length (similarIds this id) <= 11)%nat).
    { unfold similarIds. cbn [List.length]. rewrite length_map.
      apply le_n_S. unfold findSimilarPosts, slice0.
      destruct (get (embeddingByPostId this) id); [|simpl; lia].
      etransitivity; [apply SimilarFacts.filterBoolean_length|].
      rewrite length_map. apply firstn_le_length. }
    etransitivity; [|exact L].
    rewrite <- (length_map post_id shown).
    apply NoDup_incl_length.
    + unfold shown. rewrite filterPosts_filter.
      cbn [posts buildIndexes this].
      clear - ND. induction (posts this0) as [|a l IH]; simpl;
        [constructor|].
      inversion_clear ND as [|? ? Ha ND'].
      destruct (satisfies _ _ a); [|now apply IH].
      simpl. constructor; [|now apply IH].
      intros C. apply Ha. apply in_map_iff in C as (b & Eb & Hb).
      apply filter_In in Hb as [Hb _]. apply in_map_iff. now exists b.
    + intros k Hk. apply in_map_iff in Hk as (p & <- & Hp).
      now apply S in Hp.
  - intros N p Hp. apply S in Hp as [_ Hp].
    unfold similarIds, findSimilarPosts in Hp. rewrite N in Hp.
    destruct Hp as [Hp|[]]. now symmetry.
Qed.

Lemma find_similar_and_the_posts_shown_witness :
  (List.length
     (filterPosts Sample.embedded
        (StateService.filters
           (findSimilarClick Sample.embedded (Some "P1"%string)
                             StateService.initial)))
   <= 11)%nat.
Proof.
  refine (proj1 (proj2 (proj2 (find_similar_and_the_posts_shown
            (DataService.mk [Sample.P1; Sample.P2; Sample.P3] [] [] [] []
               [mkEmbedding "P1" (Num.ofZ 0) (Num.ofZ 0);
                mkEmbedding "P2" (Num.ofZ 1) (Num.ofZ 0);
                mkEmbedding "P3" (Num.ofZ 5) (Num.ofZ 5)]
               [] [] [] [] [] [])
            "P1" StateService.initial _ _)))).
  - reflexivity.
  - repeat constructor; simpl; intuition discriminate.
Defined.

End SelectionQueryFacts.
